(** * SayFight server core: room registry, voice-command matcher, game engine

    A shallow embedding of the three backend services of the repository

    - [RoomManager]      (services/RoomManager.ts),
    - [CommandExtractor] (services/CommandExtractor.ts),
    - [GameManager]      (services/GameManager.ts),

    and of the two periodic sweeps and the timers of the server entry point,
    together with the properties of them that the specification states.

    Modelling conventions.

    - A JavaScript [Map] iterates in insertion order, keeps the position of a
      key that is set again and forgets the position of a deleted key: it is
      an association list ([JsMap]).  The one map that is never iterated
      ([playerToRoom]) is a [gmap].
    - A JavaScript number is an IEEE 754 binary64 value: Rocq's primitive
      [float].  A [Date] is its [getTime ()] value, an integer number of
      milliseconds ([Z]).
    - A string is a sequence of code units below 256 (Latin-1).
    - A method that mutates [this] takes the state and returns the new one;
      [new Date ()] and [Math.random ()] are read from explicit arguments. *)

From Stdlib Require Import ZArith String Ascii Bool Floats.
From stdpp Require Import base option list strings gmap pretty.

Set Warnings "-inexact-float".

Local Open Scope string_scope.
Local Open Scope Z_scope.

(** ** JavaScript strings *)

Module Js.

Definition is_upper (c : ascii) : bool :=
  let n := nat_of_ascii c in
  ((65 <=? n)%nat && (n <=? 90)%nat)
  || ((192 <=? n)%nat && (n <=? 222)%nat && negb (n =? 215)%nat).

Definition lower_char (c : ascii) : ascii :=
  if is_upper c then ascii_of_nat (nat_of_ascii c + 32) else c.

(** [String.prototype.toLowerCase] *)
Fixpoint toLowerCase (s : string) : string :=
  match s with
  | EmptyString => EmptyString
  | String c s' => String (lower_char c) (toLowerCase s')
  end.

(** White space and line terminators below 256. *)
Definition is_space (c : ascii) : bool :=
  let n := nat_of_ascii c in
  ((9 <=? n)%nat && (n <=? 13)%nat) || (n =? 32)%nat || (n =? 160)%nat.

Fixpoint trimStart (s : string) : string :=
  match s with
  | EmptyString => EmptyString
  | String c s' => if is_space c then trimStart s' else s
  end.

Fixpoint trimEnd (s : string) : string :=
  match s with
  | EmptyString => EmptyString
  | String c s' =>
      match trimEnd s' with
      | EmptyString => if is_space c then EmptyString else String c EmptyString
      | t => String c t
      end
  end.

(** [String.prototype.trim] *)
Definition trim (s : string) : string := trimEnd (trimStart s).

(** [s.startsWith (p)] *)
Fixpoint startsWith (s p : string) : bool :=
  match p, s with
  | EmptyString, _ => true
  | String _ _, EmptyString => false
  | String a p', String b s' => Ascii.eqb a b && startsWith s' p'
  end.

(** [s.includes (p)] *)
Fixpoint includes (s p : string) : bool :=
  startsWith s p
  || match s with
     | EmptyString => false
     | String _ s' => includes s' p
     end.

(** [s.split (' ')] *)
Fixpoint split_space (s : string) : list string :=
  match s with
  | EmptyString => [EmptyString]
  | String c s' =>
      if Ascii.eqb c " "%char then EmptyString :: split_space s'
      else match split_space s' with
           | [] => [String c EmptyString]
           | w :: ws => String c w :: ws
           end
  end.

(** [a.join (' ')] *)
Fixpoint join_space (ws : list string) : string :=
  match ws with
  | [] => EmptyString
  | [w] => w
  | w :: ws' => w ++ " " ++ join_space ws'
  end.

(** [a.slice (-2)] *)
Definition slice_last2 {A} (l : list A) : list A :=
  drop (length l - 2)%nat l.

(** [a.slice (0, 2)] *)
Definition slice_first2 {A} (l : list A) : list A := take 2 l.

(** [s.charAt (i)]: the empty string when [i] is out of range. *)
Fixpoint charAt (s : string) (i : nat) : string :=
  match s, i with
  | EmptyString, _ => EmptyString
  | String c _, O => String c EmptyString
  | String _ s', S i' => charAt s' i'
  end.

(** [!s] on a string: only the empty string is falsy. *)
Definition falsy (s : string) : bool := String.eqb s "".

(** The class [\w] of a regular expression without the unicode flag. *)
Definition is_word_char (c : ascii) : bool :=
  let n := nat_of_ascii c in
  ((48 <=? n)%nat && (n <=? 57)%nat)
  || ((65 <=? n)%nat && (n <=? 90)%nat)
  || (n =? 95)%nat
  || ((97 <=? n)%nat && (n <=? 122)%nat).

Definition head_is_word (s : string) : bool :=
  match s with
  | EmptyString => false
  | String c _ => is_word_char c
  end.

(** [new RegExp ("\\b" + lit + "\\b").test (s)] for a literal [lit] without
    metacharacters.  [prev] tells whether the character before the current
    position is a word character; [\b] holds where that differs from the
    character at the position. *)
Fixpoint strip_prefix (s p : string) : option string :=
  match p, s with
  | EmptyString, _ => Some s
  | String a p', String b s' =>
      if Ascii.eqb a b then strip_prefix s' p' else None
  | String _ _, EmptyString => None
  end.

Fixpoint last_is_word (prev : bool) (lit : string) : bool :=
  match lit with
  | EmptyString => prev
  | String c lit' => last_is_word (is_word_char c) lit'
  end.

Definition boundary (prev : bool) (rest : string) : bool :=
  xorb prev (head_is_word rest).

Definition word_match_here (prev : bool) (s lit : string) : bool :=
  boundary prev s
  && match strip_prefix s lit with
     | Some rest => boundary (last_is_word prev lit) rest
     | None => false
     end.

Fixpoint word_test_from (prev : bool) (s lit : string) : bool :=
  word_match_here prev s lit
  || match s with
     | EmptyString => false
     | String c s' => word_test_from (is_word_char c) s' lit
     end.

Definition word_test (s lit : string) : bool := word_test_from false s lit.

(** [Math.random ()] lies in [0, 1), so [Math.floor (Math.random () * n)] is
    an index below [n].  The generator is a stream of natural numbers read
    at an explicit position; the index drawn at a position is the number
    found there reduced below [n]. *)
Definition Rng : Type := nat -> nat.

Definition random_below (n : nat) (rng : Rng) (pos : nat) : nat :=
  (rng pos mod n)%nat.

End Js.

(** ** JavaScript [Map] with string keys *)

Module JsMap.

Abbreviation t V := (list (string * V)) (only parsing).

Section Ops.
Context {V : Type}.

Definition empty : t V := [].

Fixpoint get (k : string) (m : t V) : option V :=
  match m with
  | [] => None
  | (k', v) :: m' => if String.eqb k k' then Some v else get k m'
  end.

Definition has (k : string) (m : t V) : bool :=
  match get k m with Some _ => true | None => false end.

(** [m.set (k, v)]: in place when the key is present, appended last
    otherwise. *)
Fixpoint set (k : string) (v : V) (m : t V) : t V :=
  match m with
  | [] => [(k, v)]
  | (k', v') :: m' =>
      if String.eqb k k' then (k, v) :: m' else (k', v') :: set k v m'
  end.

Fixpoint delete (k : string) (m : t V) : t V :=
  match m with
  | [] => []
  | (k', v') :: m' =>
      if String.eqb k k' then delete k m' else (k', v') :: delete k m'
  end.

Definition keys (m : t V) : list string := fst <$> m.
Definition values (m : t V) : list V := snd <$> m.
Definition size (m : t V) : nat := length m.

(** The first entry, in iteration order, whose value satisfies [f]. *)
Fixpoint find (f : V -> bool) (m : t V) : option (string * V) :=
  match m with
  | [] => None
  | (k, v) :: m' => if f v then Some (k, v) else find f m'
  end.

End Ops.

End JsMap.

(** ** Room and player records (types/index.ts) *)

Module Types.

Record Player : Type := mkPlayer {
  id : string;
  name : string;
  roomCode : string;
  socketId : string;
  connected : bool
}.

Inductive RoomStatus : Type := waiting | preparing | playing | finished.

Record ReadyState : Type := mkReady { ready : bool; hasMic : bool }.

Record Room : Type := mkRoom {
  code : string;
  hostSocketId : string;
  players : JsMap.t Player;
  gameState : RoomStatus;
  createdAt : Z;
  hostDisconnectedAt : option Z;
  readyPlayers : option (JsMap.t ReadyState)
}.

Definition set_connected (b : bool) (p : Player) : Player :=
  mkPlayer (id p) (name p) (roomCode p) (socketId p) b.

Definition set_socketId (s : string) (p : Player) : Player :=
  mkPlayer (id p) (name p) (roomCode p) s (connected p).

Definition set_players (ps : JsMap.t Player) (r : Room) : Room :=
  mkRoom (code r) (hostSocketId r) ps (gameState r) (createdAt r)
         (hostDisconnectedAt r) (readyPlayers r).

Definition set_gameState (g : RoomStatus) (r : Room) : Room :=
  mkRoom (code r) (hostSocketId r) (players r) g (createdAt r)
         (hostDisconnectedAt r) (readyPlayers r).

Definition set_hostSocketId (s : string) (r : Room) : Room :=
  mkRoom (code r) s (players r) (gameState r) (createdAt r)
         (hostDisconnectedAt r) (readyPlayers r).

Definition set_hostDisconnectedAt (d : option Z) (r : Room) : Room :=
  mkRoom (code r) (hostSocketId r) (players r) (gameState r) (createdAt r)
         d (readyPlayers r).

Definition set_readyPlayers (rp : option (JsMap.t ReadyState)) (r : Room) : Room :=
  mkRoom (code r) (hostSocketId r) (players r) (gameState r) (createdAt r)
         (hostDisconnectedAt r) rp.

End Types.

(** ** The room registry (services/RoomManager.ts) *)

Module RoomManager.
Import Types.

Record t : Type := mk {
  rooms : JsMap.t Room;
  playerToRoom : gmap string string
}.

Definition init : t := mk JsMap.empty ∅.

Definition getAllRooms (m : t) : list Room := JsMap.values (rooms m).

(** *** Room codes *)

Definition characters : string := "ABCDEFGHIJKLMNOPQRSTUVWXYZ".

(** The body of the [for] loop, [i] from [0] to [3]. *)
Definition draw_code (rng : Js.Rng) (pos : nat) : string :=
  foldl (fun code i =>
           code ++ Js.charAt characters
                     (Js.random_below (String.length characters) rng (pos + i)))
        "" (seq 0 4).

(** The [do ... while (this.rooms.has (code))] loop.  It has no bound in
    the source; [fuel] bounds the number of candidates drawn, and [None]
    stands for a loop that has not ended within that bound. *)
Fixpoint generateRoomCode (fuel : nat) (rng : Js.Rng) (pos : nat) (m : t)
  : option (string * nat) :=
  match fuel with
  | O => None
  | S fuel' =>
      let code := draw_code rng pos in
      if JsMap.has code (rooms m)
      then generateRoomCode fuel' rng (pos + 4) m
      else Some (code, (pos + 4)%nat)
  end.

Definition createRoom (fuel : nat) (rng : Js.Rng) (pos : nat)
           (hostSocketId : string) (now : Z) (m : t)
  : option (string * nat * t) :=
  match generateRoomCode fuel rng pos m with
  | None => None
  | Some (code, pos') =>
      let room := mkRoom code hostSocketId JsMap.empty waiting now None
                         (Some JsMap.empty) in
      Some (code, pos', mk (JsMap.set code room (rooms m)) (playerToRoom m))
  end.

Definition joinRoom (roomCode : string) (player : Player) (m : t) : bool * t :=
  match JsMap.get roomCode (rooms m) with
  | None => (false, m)
  | Some room =>
      match gameState room with
      | waiting =>
          let room' := set_players (JsMap.set (id player) player (players room)) room in
          (true, mk (JsMap.set roomCode room' (rooms m))
                    (<[socketId player := roomCode]> (playerToRoom m)))
      | _ => (false, m)
      end
  end.

(** The value [leaveRoom] returns when it is not [null]. *)
Record LeaveResult : Type := mkLeave {
  lr_roomCode : string;
  lr_playerId : string;
  lr_isHost : option bool
}.

Definition leaveRoom (socketId : string) (now : Z) (m : t)
  : option LeaveResult * t :=
  match playerToRoom m !! socketId with
  | None => (None, m)
  | Some roomCode =>
      if Js.falsy roomCode then (None, m) else
      match JsMap.get roomCode (rooms m) with
      | None => (None, m)
      | Some room =>
          (* the first player, in iteration order, bound to that socket *)
          let hit := JsMap.find (fun p => String.eqb (Types.socketId p) socketId)
                                (players room) in
          let playerId := fst <$> hit in
          let room1 :=
            match hit with
            | Some (i, p) =>
                set_players (JsMap.set i (set_connected false p) (players room)) room
            | None => room
            end in
          let p2r := delete socketId (playerToRoom m) in
          if String.eqb (hostSocketId room1) socketId then
            let room2 := set_hostDisconnectedAt (Some now) room1 in
            (Some (mkLeave roomCode "host" (Some true)),
             mk (JsMap.set roomCode room2 (rooms m)) p2r)
          else
            (match playerId with
             | Some i => if Js.falsy i then None
                         else Some (mkLeave roomCode i None)
             | None => None
             end,
             mk (JsMap.set roomCode room1 (rooms m)) p2r)
      end
  end.

Definition getRoom (roomCode : string) (m : t) : option Room :=
  JsMap.get roomCode (rooms m).

Definition startGame (roomCode : string) (m : t) : bool * t :=
  match JsMap.get roomCode (rooms m) with
  | None => (false, m)
  | Some room =>
      if (JsMap.size (players room) <? 1)%nat then (false, m)
      else (true, mk (JsMap.set roomCode (set_gameState playing room) (rooms m))
                     (playerToRoom m))
  end.

Definition endGame (roomCode : string) (m : t) : bool * t :=
  match JsMap.get roomCode (rooms m) with
  | None => (false, m)
  | Some room =>
      (true, mk (JsMap.set roomCode (set_gameState finished room) (rooms m))
                (playerToRoom m))
  end.

Definition resetRoom (roomCode : string) (m : t) : bool * t :=
  match JsMap.get roomCode (rooms m) with
  | None => (false, m)
  | Some room =>
      let room1 := set_gameState waiting room in
      let room2 :=
        match readyPlayers room1 with
        | Some _ => set_readyPlayers (Some JsMap.empty) room1
        | None => room1
        end in
      (true, mk (JsMap.set roomCode room2 (rooms m)) (playerToRoom m))
  end.

Definition reconnectHost (roomCode newSocketId : string) (m : t)
  : option Room * t :=
  match JsMap.get roomCode (rooms m) with
  | None => (None, m)
  | Some room =>
      let room' := set_hostDisconnectedAt None (set_hostSocketId newSocketId room) in
      (Some room', mk (JsMap.set roomCode room' (rooms m)) (playerToRoom m))
  end.

Definition isRoomValid (roomCode : string) (m : t) : bool :=
  JsMap.has roomCode (rooms m).

Definition reconnectPlayer (roomCode playerId newSocketId : string) (m : t)
  : option Player * t :=
  match JsMap.get roomCode (rooms m) with
  | None => (None, m)
  | Some room =>
      match JsMap.get playerId (players room) with
      | None => (None, m)
      | Some player =>
          let player' := set_connected true (set_socketId newSocketId player) in
          let room' := set_players (JsMap.set playerId player' (players room)) room in
          (Some player',
           mk (JsMap.set roomCode room' (rooms m))
              (<[newSocketId := roomCode]> (playerToRoom m)))
      end
  end.

(** The bindings of all players of [room] are deleted from [playerToRoom]. *)
Definition release_players (room : Room) (p2r : gmap string string)
  : gmap string string :=
  foldl (fun acc p => delete (socketId p) acc) p2r (JsMap.values (players room)).

Definition expired (now : Z) (room : Room) : bool :=
  let twoHoursAgo := now - 2 * 60 * 60 * 1000 in
  let thirtySecondsAgo := now - 30 * 1000 in
  if createdAt room <? twoHoursAgo then true
  else match hostDisconnectedAt room with
       | Some d => d <? thirtySecondsAgo
       | None => false
       end.

(** One turn of the loop of [cleanupOldRooms] on the entry [(code, room)];
    both branches of the source have the same body. *)
Definition cleanup_entry (now : Z) (m : t) (e : string * Room) : t :=
  if expired now e.2
  then mk (JsMap.delete e.1 (rooms m)) (release_players e.2 (playerToRoom m))
  else m.

(** Deleting the entry being visited does not disturb the iteration of a
    [Map], and no room is changed by the loop: the entries visited are
    those present when the loop starts. *)
Definition cleanupOldRooms (now : Z) (m : t) : t :=
  foldl (cleanup_entry now) m (rooms m).

Definition notify_due (now : Z) (room : Room) : bool :=
  let fiveSecondsAgo := now - 5 * 1000 in
  match hostDisconnectedAt room with
  | Some d => (d <? fiveSecondsAgo) && (d >? now - 30 * 1000)
  | None => false
  end.

Definition getRoomsToNotifyHostDisconnect (now : Z) (m : t) : list string :=
  fst <$> filter (fun e => notify_due now e.2 = true) (rooms m).

Definition getRoomCount (m : t) : nat := JsMap.size (rooms m).

Definition removePlayer (roomCode playerId : string) (m : t) : bool * t :=
  match JsMap.get roomCode (rooms m) with
  | None => (false, m)
  | Some room =>
      match JsMap.get playerId (players room) with
      | None => (false, m)
      | Some player =>
          let room' := set_players (JsMap.delete playerId (players room)) room in
          (true,
           mk (JsMap.set roomCode room' (rooms m))
              (if Js.falsy (socketId player) then playerToRoom m
               else delete (socketId player) (playerToRoom m)))
      end
  end.

(** The connections that a sweep at [now] releases: those of the players of
    the expired rooms. *)
Definition released (now : Z) (m : t) (s : string) : Prop :=
  exists k room p, (k, room) ∈ rooms m /\ expired now room = true
                   /\ p ∈ JsMap.values (players room) /\ socketId p = s.

(** *** Queries *)

Definition getRoomBySocketId (socketId : string) (m : t) : option Room :=
  (* a room that the socket hosts, first *)
  match List.find (fun room => String.eqb (hostSocketId room) socketId)
                  (JsMap.values (rooms m)) with
  | Some room => Some room
  | None =>
      (* then the room the socket is bound to as a player *)
      match playerToRoom m !! socketId with
      | Some roomCode =>
          if Js.falsy roomCode then None else JsMap.get roomCode (rooms m)
      | None => None
      end
  end.

Definition getRoomByPlayerId (playerId : string) (m : t) : option string :=
  fst <$> List.find (fun e : string * Room => JsMap.has playerId (players e.2))
                    (rooms m).

Definition getTotalPlayerCount (m : t) : nat :=
  foldl (fun count room => (count + JsMap.size (players room))%nat) 0%nat
        (JsMap.values (rooms m)).

(** *** The states of the registry

    One step is one call of a method that changes the registry, or one of
    the writes of the server entry point to the status and the ready map of
    a room it got from [getRoom]. *)

Inductive step : t -> t -> Prop :=
| step_createRoom fuel rng pos host now m code pos' m' :
    createRoom fuel rng pos host now m = Some (code, pos', m') -> step m m'
| step_joinRoom roomCode player m :
    step m (joinRoom roomCode player m).2
| step_leaveRoom socketId now m :
    step m (leaveRoom socketId now m).2
| step_startGame roomCode m :
    step m (startGame roomCode m).2
| step_endGame roomCode m :
    step m (endGame roomCode m).2
| step_resetRoom roomCode m :
    step m (resetRoom roomCode m).2
| step_reconnectHost roomCode socketId m :
    step m (reconnectHost roomCode socketId m).2
| step_reconnectPlayer roomCode playerId socketId m :
    step m (reconnectPlayer roomCode playerId socketId m).2
| step_cleanupOldRooms now m :
    step m (cleanupOldRooms now m)
| step_removePlayer roomCode playerId m :
    step m (removePlayer roomCode playerId m).2
| step_write roomCode room status ready m :
    getRoom roomCode m = Some room ->
    step m (mk (JsMap.set roomCode
                  (set_readyPlayers ready (set_gameState status room)) (rooms m))
               (playerToRoom m)).

Definition reachable (m : t) : Prop := rtc step init m.

(** A room code: four letters, each from [A] to [Z]. *)
Definition is_capital (c : ascii) : bool :=
  let n := nat_of_ascii c in (65 <=? n)%nat && (n <=? 90)%nat.

Definition is_room_code (s : string) : bool :=
  (String.length s =? 4)%nat && forallb is_capital (list_ascii_of_string s).

(** The keys of [rooms] are pairwise distinct, as in any [Map], every room
    is stored under its own code, and that code is four capital letters. *)
Definition wf (m : RoomManager.t) : Prop :=
  NoDup (JsMap.keys (rooms m))
  ∧ ∀ k room, (k, room) ∈ rooms m → code room = k ∧ is_room_code k = true.

End RoomManager.

(** ** The periodic sweeps of the server entry point (index.ts) *)

Module Server.

(** [io.to (room).emit (event)] *)
Inductive Emit : Type := ToRoom (room event : string).

#[global] Instance Emit_eq_dec : EqDecision Emit.
Proof. solve_decision. Defined.

(** The times at which [setInterval (f, period)], started at [t0], calls [f]:
    the [k]-th call is at [t0 + k * period]. *)
Definition firing_times (t0 period : Z) (n : nat) : list Z :=
  (fun k => t0 + Z.of_nat k * period) <$> seq 1 n.

(** The body of the interval that notifies the players of a room whose host
    is away. *)
Definition notifyHostDisconnect (now : Z) (m : RoomManager.t) : list Emit :=
  (fun c => ToRoom c "hostDisconnected")
    <$> RoomManager.getRoomsToNotifyHostDisconnect now m.

(** What the first [n] calls of that interval emit while the registry stays
    as it is. *)
Definition notifier_log (t0 : Z) (n : nat) (m : RoomManager.t) : list Emit :=
  concat ((fun now => notifyHostDisconnect now m) <$> firing_times t0 2000 n).

(** The number of [hostDisconnected] events sent to the room [code]. *)
Definition notifications (code : string) (log : list Emit) : nat :=
  length (filter (fun e => e = ToRoom code "hostDisconnected") log).

(** The claim that the players of a room are not told more than once that
    its host is away, whatever the interval runs through while the registry
    stays as it is. *)
Definition notified_at_most_once (m : RoomManager.t) (code : string) : Prop :=
  forall (t0 : Z) (n : nat), (notifications code (notifier_log t0 n m) <= 1)%nat.

End Server.

(** ** Example registries *)

Module Scenario.
Import Types RoomManager.

(** A generator whose every draw is [0]: every candidate code is [AAAA]. *)
Definition rng0 : Js.Rng := fun _ => 0%nat.

(** The registry after the socket [h0] created a room at time [0]. *)
Definition created : RoomManager.t :=
  match createRoom 1 rng0 0 "h0" 0 init with
  | Some (_, _, m) => m
  | None => init
  end.

Definition alice : Player := mkPlayer "player_1" "alice" "AAAA" "s1" true.

(** ... and after a player joined it from the socket [s1]. *)
Definition joined : RoomManager.t := (joinRoom "AAAA" alice created).2.

(** The socket of the host emits [joinRoom] for its own room: the entry
    point builds a player with that socket and the registry binds it. *)
Definition host_player : Player := mkPlayer "player_2" "host" "AAAA" "h0" true.

Definition joined_host : RoomManager.t := (joinRoom "AAAA" host_player joined).2.

(** That socket then disconnects at time [0]. *)
Definition host_away : RoomManager.t := (leaveRoom "h0" 0 joined_host).2.

End Scenario.

(** ** JavaScript numbers *)

Module Num.

(** The number of a length or an index. *)
Definition of_nat (n : nat) : float := PrimFloat.of_uint63 (Uint63.of_Z (Z.of_nat n)).

(** [a >= b]: false when either side is [NaN]. *)
Definition geb (a b : float) : bool := PrimFloat.leb b a.

(** [Math.min (a, b)] and [Math.max (a, b)]: [NaN] when either argument is,
    and [-0] counts as less than [+0]. *)
Definition Math_min (a b : float) : float :=
  if PrimFloat.is_nan a || PrimFloat.is_nan b then PrimFloat.nan
  else if PrimFloat.ltb a b then a
  else if PrimFloat.ltb b a then b
  else if PrimFloat.get_sign a then a else b.

Definition Math_max (a b : float) : float :=
  if PrimFloat.is_nan a || PrimFloat.is_nan b then PrimFloat.nan
  else if PrimFloat.ltb a b then b
  else if PrimFloat.ltb b a then a
  else if PrimFloat.get_sign a then b else a.

(** [x || 0] for [x] a number or [undefined]: [0], [-0] and [NaN] are falsy. *)
Definition or_zero (x : option float) : float :=
  match x with
  | Some v => if PrimFloat.is_nan v || PrimFloat.is_zero v then 0%float else v
  | None => 0%float
  end.

End Num.

(** ** The voice-command matcher (services/CommandExtractor.ts) *)

Module CommandExtractor.

Inductive CommandType : Type := movement | action | game_specific.

Record GameCommand : Type := mkCommand {
  type : CommandType;
  command : string;
  confidence : float;
  rawText : string;
  matchScore : option float
}.

(** The own properties of the object [PHRASE_MAP], in the order of the
    source. *)
Definition PHRASE_MAP : list (string * string) := [
  ("wifi", "pandas hack wifi");
  ("gravity", "squirrels fight gravity");
  ("homework", "llamas eat homework");
  ("rockets", "turtles launch rockets");
  ("tuxedos", "pigeons rock tuxedos");
  ("waves", "cows surf waves");
  ("math", "chickens study math");
  ("cookies", "dolphins bake cookies");
  ("poetry", "monkeys compose poetry");
  ("sweaters", "sharks knit sweaters");
  ("insurance", "beavers sell insurance");
  ("murals", "eagles paint murals");
  ("ferraris", "snails race ferraris");
  ("yoga", "owls teach yoga");
  ("castles", "crabs build castles");
  ("chess", "whales play chess");
  ("restaurants", "bats open restaurants");
  ("websites", "foxes code websites");
  ("podcasts", "bears host podcasts");
  ("hair", "wolves braid hair");
  ("storms", "goats forecast storms");
  ("revolutions", "sheep lead revolutions");
  ("tacos", "horses sell tacos");
  ("karate", "ducks practice karate");
  ("ninjas", "geese become ninjas");
  ("helicopters", "rabbits fly helicopters");
  ("kingdoms", "mice rule kingdoms");
  ("symphonies", "rats compose symphonies");
  ("mysteries", "bees solve mysteries");
  ("pyramids", "ants build pyramids");
  ("pizza", "jellyfish deliver pizza");
  ("marathons", "starfish run marathons");
  ("crime", "seahorses fight crime");
  ("saxophone", "walrus plays saxophone");
  ("pineapples", "seals juggle pineapples");
  ("bands", "otters start bands");
  ("dance", "platypus teaches dance");
  ("bitcoin", "koalas invest bitcoin");
  ("rainbows", "zebras paint rainbows");
  ("volleyball", "giraffes play volleyball");
  ("novels", "hippos author novels");
  ("bread", "rhinos bake bread");
  ("professionally", "elephants moonwalk professionally");
  ("vacuums", "tigers sell vacuums");
  ("mittens", "lions knit mittens");
  ("ceramics", "cheetahs teach ceramics");
  ("computers", "leopards fix computers");
  ("opera", "panthers sing opera");
  ("origami", "jaguars fold origami");
  ("parties", "pumas host parties");
  ("coffee", "badgers brew coffee");
  ("hearts", "raccoons charm hearts");
  ("screenplays", "possums draft screenplays");
  ("drums", "armadillos play drums");
  ("physics", "porcupines teach physics");
  ("bicycles", "hedgehogs race bicycles");
  ("pools", "moles dig pools");
  ("flowers", "wombats sell flowers");
  ("mainframes", "flamingos hack mainframes");
  ("spotlight", "peacocks grab spotlight");
  ("loudly", "parrots gossip loudly");
  ("nails", "toucans paint nails");
  ("feelings", "pelicans catch feelings");
  ("magic", "herons practice magic");
  ("lawyers", "swans become lawyers");
  ("jazz", "geese honk jazz");
  ("chaos", "doves spread chaos");
  ("cupcakes", "vultures sell cupcakes");
  ("kindergarten", "hawks teach kindergarten");
  ("submarines", "falcons race submarines");
  ("socks", "eagles snatch socks");
  ("backwards", "condors fly backwards");
  ("poorly", "ostriches hide poorly");
  ("war", "emus wage war");
  ("high", "kiwis bounce high");
  ("internet", "penguins surf internet");
  ("portraits", "puffins paint portraits");
  ("fast", "sloths run fast");
  ("jokes", "anteaters tell jokes");
  ("ballads", "tapirs sing ballads");
  ("hard", "capybaras chill hard");
  ("spaceships", "beavers build spaceships");
  ("boats", "otters hijack boats");
  ("mockingly", "seals clap mockingly");
  ("salsa", "walruses dance salsa");
  ("jets", "manatees race jets");
  ("knights", "narwhals joust knights");
  ("gossip", "beluga whales gossip");
  ("masterpieces", "orcas paint masterpieces");
  ("systems", "dolphins hack systems");
  ("fortunes", "porpoises tell fortunes");
  ("disco", "whales sing disco");
  ("blogs", "squid publish blogs");
  ("treasure", "octopi grab treasure");
  ("reality", "crabs pinch reality")
].

(** The names that every object inherits from [Object.prototype]. *)
Definition prototype_names : list string := [
  "constructor"; "__defineGetter__"; "__defineSetter__"; "hasOwnProperty";
  "__lookupGetter__"; "__lookupSetter__"; "isPrototypeOf";
  "propertyIsEnumerable"; "toString"; "valueOf"; "__proto__"; "toLocaleString"
].

(** The value of [this.PHRASE_MAP[key]]: the phrase of an own property, a
    function or object inherited from the prototype, or [undefined]. *)
Inductive Property : Type :=
| Own (phrase : string)
| Inherited
| Undefined.

Definition PHRASE_MAP_get (key : string) : Property :=
  match JsMap.get key PHRASE_MAP with
  | Some phrase => Own phrase
  | None => if existsb (String.eqb key) prototype_names then Inherited else Undefined
  end.

Definition movement_commands : list (string * list string) := [
  ("go", ["go"; "move"; "forward"; "advance"]);
  ("left", ["left"; "turn left"; "go left"]);
  ("right", ["right"; "turn right"; "go right"]);
  ("stop", ["stop"; "halt"; "freeze"]);
  ("back", ["back"; "reverse"; "backward"])
].

Definition action_commands : list (string * list string) := [
  ("jump", ["jump"; "hop"; "leap"]);
  ("fire", ["fire"; "shoot"; "bang"]);
  ("draw", ["draw"]);
  ("duck", ["duck"; "crouch"; "down"])
].

Definition gameSpecific_commands : list (string * list string) := [
  ("boost", ["boost"; "turbo"; "speed"]);
  ("brake", ["brake"; "slow"]);
  ("ready", ["ready"])
].

Definition matchesAnyVariant (text : string) (variants : list string) : bool :=
  (* an exact match *)
  existsb (fun variant => String.eqb text variant) variants
  (* a phrase contained in the text, or a single word standing as a word and
     not inside a longer variant that the text contains *)
  || existsb
       (fun variant =>
          if Js.includes variant " " then Js.includes text variant
          else Js.word_test text variant
               && negb (existsb
                          (fun v => Js.includes v " " && Js.includes v variant
                                    && Js.includes text v)
                          variants))
       variants
  (* a single word said several times *)
  || (let words := Js.split_space text in
      (1 <? length words)%nat
      && existsb
           (fun variant =>
              negb (Js.includes variant " ")
              && forallb (fun word => String.eqb word variant) words)
           variants).

(** What one turn of the loop over [dynamicWords] does. *)
Inductive Turn : Type :=
| Hit (c : GameCommand)   (* [return] a command *)
| Next                    (* go on with the next word *)
| TypeError.              (* [fullPhrase.toLowerCase] is not a function *)

(** The checks of the loop body that come after the phrase checks. *)
Definition match_trigger (normalizedText text wordLower : string) (confidence : float)
  : Turn :=
  if String.eqb normalizedText wordLower || Js.includes normalizedText wordLower then
    Hit (mkCommand game_specific wordLower confidence text (Some 1.0%float))
  else if (3 <=? String.length wordLower)%nat
          && (2 <=? String.length normalizedText)%nat then
    if Js.startsWith wordLower normalizedText
       && Num.geb (Num.of_nat (String.length normalizedText))
                  (Num.of_nat (String.length wordLower) * 0.6)%float
    then Hit (mkCommand game_specific wordLower (confidence * 0.9)%float text
                        (Some 0.8%float))
    else Next
  else Next.

(** The body of the loop over [dynamicWords]. *)
Definition match_word (normalizedText text : string) (confidence : float)
           (word : string) : Turn :=
  let wordLower := Js.toLowerCase word in
  match PHRASE_MAP_get wordLower with
  | Inherited => TypeError
  | Undefined => match_trigger normalizedText text wordLower confidence
  | Own fullPhrase =>
      if Js.falsy fullPhrase
      then match_trigger normalizedText text wordLower confidence
      else
        let phraseLower := Js.toLowerCase fullPhrase in
        let phraseWords := Js.split_space phraseLower in
        if String.eqb normalizedText phraseLower
           || Js.includes normalizedText phraseLower then
          Hit (mkCommand game_specific wordLower confidence text (Some 2.0%float))
        else if (3 <=? length phraseWords)%nat then
          let lastTwo := Js.join_space (Js.slice_last2 phraseWords) in
          if Js.includes normalizedText lastTwo then
            Hit (mkCommand game_specific wordLower confidence text (Some 1.5%float))
          else
            let firstTwo := Js.join_space (Js.slice_first2 phraseWords) in
            if Js.includes normalizedText firstTwo
               && Js.includes normalizedText wordLower then
              Hit (mkCommand game_specific wordLower confidence text (Some 1.5%float))
            else match_trigger normalizedText text wordLower confidence
        else match_trigger normalizedText text wordLower confidence
  end.

Fixpoint match_words (normalizedText text : string) (confidence : float)
         (words : list string) : Turn :=
  match words with
  | [] => Next
  | word :: words' =>
      match match_word normalizedText text confidence word with
      | Next => match_words normalizedText text confidence words'
      | turn => turn
      end
  end.

(** The first command of [table] one of whose variants matches. *)
Definition match_table (ty : CommandType) (table : list (string * list string))
           (normalizedText text : string) (confidence : float)
  : option GameCommand :=
  match List.find (fun e => matchesAnyVariant normalizedText e.2) table with
  | Some (command, _) => Some (mkCommand ty command confidence text None)
  | None => None
  end.

(** The part of [extract] after the dynamic words. *)
Definition match_vocabulary (normalizedText text : string) (confidence : float)
  : option GameCommand :=
  match match_table movement movement_commands normalizedText text confidence with
  | Some c => Some c
  | None =>
      match match_table action action_commands normalizedText text confidence with
      | Some c => Some c
      | None =>
          match_table game_specific gameSpecific_commands normalizedText text confidence
      end
  end.

(** What a call ends with: a returned value or a thrown exception. *)
Inductive Outcome (A : Type) : Type :=
| Returns (a : A)
| Throws.
Arguments Returns {A} a.
Arguments Throws {A}.

Definition normalize (text : string) : string := Js.trim (Js.toLowerCase text).

Definition extract (text : string) (confidence : float)
           (dynamicWords : option (list string)) : Outcome (option GameCommand) :=
  let normalizedText := normalize text in
  match match_words normalizedText text confidence (default [] dynamicWords) with
  | Hit c => Returns (Some c)
  | TypeError => Throws
  | Next => Returns (match_vocabulary normalizedText text confidence)
  end.

(** The number of matches of [/go/g]: the occurrences of [go] from left
    to right, each search going on after the match before. *)
Fixpoint count_go (s : string) : nat :=
  match s with
  | EmptyString => O
  | String c s' =>
      if Ascii.eqb c "g"%char then
        match s' with
        | String c' s'' => if Ascii.eqb c' "o"%char then S (count_go s'') else count_go s'
        | EmptyString => O
        end
      else count_go s'
  end.

Definition extractRacerBoost (text : string) : nat :=
  Nat.min (count_go (normalize text)) 3.

Definition getConfidenceThreshold (commandType : string) : float :=
  if String.eqb commandType "movement" then 0.7%float
  else if String.eqb commandType "action" then 0.8%float
  else if String.eqb commandType "game_specific" then 0.6%float
  else 0.7%float.

(** *** The tiers as the specification words them

    [transcript] is the normalised transcript, [word] the trigger word and
    [phrase] the phrase mapped to it; "at least 60%" is a comparison of
    integers. *)

Inductive Tier : Type := FullPhrase | PartialPhrase | TriggerWord | FuzzyPrefix.

Definition tier_score (t : Tier) : float :=
  match t with
  | FullPhrase => 2.0%float
  | PartialPhrase => 1.5%float
  | TriggerWord => 1.0%float
  | FuzzyPrefix => 0.8%float
  end.

Definition last_two_words (phrase : string) : string :=
  match rev (Js.split_space phrase) with
  | z :: y :: _ => y ++ " " ++ z
  | ws => Js.join_space (rev ws)
  end.

Definition first_two_words (phrase : string) : string :=
  match Js.split_space phrase with
  | x :: y :: _ => x ++ " " ++ y
  | ws => Js.join_space ws
  end.

Definition spec_tier (transcript word phrase : string) : option Tier :=
  if String.eqb transcript phrase || Js.includes transcript phrase then
    Some FullPhrase
  else if (3 <=? length (Js.split_space phrase))%nat
          && (Js.includes transcript (last_two_words phrase)
              || (Js.includes transcript (first_two_words phrase)
                  && Js.includes transcript word)) then
    Some PartialPhrase
  else if String.eqb transcript word || Js.includes transcript word then
    Some TriggerWord
  else if (3 <=? String.length word)%nat
          && (2 <=? String.length transcript)%nat
          && Js.startsWith word transcript
          && (60 * String.length word <=? 100 * String.length transcript)%nat then
    Some FuzzyPrefix
  else None.

(** The command of a tier: a fuzzy prefix match lowers the confidence. *)
Definition spec_command (t : Tier) (word text : string) (confidence : float)
  : GameCommand :=
  mkCommand game_specific word
            (match t with
             | FuzzyPrefix => (confidence * 0.9)%float
             | _ => confidence
             end)
            text (Some (tier_score t)).

(** The tiers read on the transcript that is lower-cased only, as the
    specification words them, for one trigger word with its phrase. *)
Definition first_tier_of_lower_cased (text word phrase : string) (confidence : float)
  : Prop :=
  extract text confidence (Some [word])
  = match spec_tier (Js.toLowerCase text) (Js.toLowerCase word) phrase with
    | Some t => Returns (Some (spec_command t (Js.toLowerCase word) text confidence))
    | None => extract text confidence None
    end.

(** The last two tiers, and the turn of the loop that a tier stands for. *)
Definition trigger_tier (transcript word : string) : option Tier :=
  if String.eqb transcript word || Js.includes transcript word then
    Some TriggerWord
  else if (3 <=? String.length word)%nat
          && (2 <=? String.length transcript)%nat
          && Js.startsWith word transcript
          && (60 * String.length word <=? 100 * String.length transcript)%nat then
    Some FuzzyPrefix
  else None.

Definition turn_of (t : option Tier) (word text : string) (confidence : float) : Turn :=
  match t with
  | Some t => Hit (spec_command t word text confidence)
  | None => Next
  end.

End CommandExtractor.

(** ** Game sessions (types/game.ts) *)

Module Game.

Inductive GameMode : Type := voice_racer | tug_of_war | quick_draw | word_bridge.

Inductive GameStatus : Type := waiting | countdown | playing | finished.

Record Position : Type := mkPosition { x : float; y : float }.

Record PlayerGameState : Type := mkPlayerState {
  id : string;
  name : string;
  score : float;
  isAlive : bool;
  position : option Position
}.

(** The fields that [VoiceRacerState] adds to the base state. *)
Record VoiceRacer : Type := mkRacer {
  trackLength : float;
  playerPositions : JsMap.t float;
  playerSpeeds : JsMap.t float;
  racerWords : JsMap.t string      (* [playerWords] *)
}.

Record Teams : Type := mkTeams { red : list string; blue : list string }.

(** The fields that [TugOfWarState] adds to the base state. *)
Record TugOfWar : Type := mkTug {
  teams : Teams;
  tugWords : JsMap.t string        (* [playerWords] *)
  ; ropePosition : float
}.

(** The union [GameState]; the game manager builds and reads the first two
    variants only. *)
Inductive Variant : Type :=
| Racer (r : VoiceRacer)
| Tug (g : TugOfWar)
| QuickDraw
| WordBridge.

Record GameState : Type := mkGame {
  status : GameStatus;
  startTime : option Z;
  endTime : option Z;
  winner : option string;
  players : JsMap.t PlayerGameState;
  variant : Variant
}.

Definition mode (g : GameState) : GameMode :=
  match variant g with
  | Racer _ => voice_racer
  | Tug _ => tug_of_war
  | QuickDraw => quick_draw
  | WordBridge => word_bridge
  end.

Definition set_status (s : GameStatus) (g : GameState) : GameState :=
  mkGame s (startTime g) (endTime g) (winner g) (players g) (variant g).

Definition set_startTime (d : Z) (g : GameState) : GameState :=
  mkGame (status g) (Some d) (endTime g) (winner g) (players g) (variant g).

Definition set_endTime (d : Z) (g : GameState) : GameState :=
  mkGame (status g) (startTime g) (Some d) (winner g) (players g) (variant g).

Definition set_winner (w : option string) (g : GameState) : GameState :=
  mkGame (status g) (startTime g) (endTime g) w (players g) (variant g).

Definition set_players (ps : JsMap.t PlayerGameState) (g : GameState) : GameState :=
  mkGame (status g) (startTime g) (endTime g) (winner g) ps (variant g).

Definition set_variant (v : Variant) (g : GameState) : GameState :=
  mkGame (status g) (startTime g) (endTime g) (winner g) (players g) v.

(** [GameAction]; the timestamp is not read by the game manager. *)
Record GameAction : Type := mkAction {
  playerId : string;
  command : string;
  timestamp : Z;
  matchScore : option float
}.

End Game.

(** ** The game engine (services/GameManager.ts) *)

Module GameManager.
Import Game.

(** What the manager emits. *)
Inductive Event : Type :=
| Countdown (roomCode : string) (count : Z)
| GameUpdate (roomCode : string) (gameState : GameState)
| GameEnd (roomCode : string) (gameState : GameState).

(** The state of the manager.  A game is an object: a timer of [startGame]
    keeps the object it was started for, also after the room got another
    game.  [games] therefore holds, with each game, a number that tells the
    objects apart.  [intervals] lists the running tick loops with their room,
    [gameLoops] is the map of the source, [emitted] the events emitted so
    far, oldest first. *)
Record t : Type := mk {
  games : JsMap.t (nat * GameState);
  gameLoops : JsMap.t nat;
  intervals : list (nat * string);
  fresh : nat;
  emitted : list Event
}.

Definition init : t := mk JsMap.empty JsMap.empty [] 0 [].

Definition set_games (gs : JsMap.t (nat * GameState)) (m : t) : t :=
  mk gs (gameLoops m) (intervals m) (fresh m) (emitted m).

Definition emit (e : Event) (m : t) : t :=
  mk (games m) (gameLoops m) (intervals m) (fresh m) (emitted m ++ [e]).

Definition getGame (roomCode : string) (m : t) : option GameState :=
  snd <$> JsMap.get roomCode (games m).

Definition RACING_WORDS : list string := [
  "wifi"; "gravity"; "homework"; "rockets"; "tuxedos"; "waves"; "math"; "cookies";
  "poetry"; "sweaters"; "insurance"; "murals"; "ferraris"; "yoga"; "castles"; "chess";
  "restaurants"; "websites"; "podcasts"; "hair"; "storms"; "revolutions"; "tacos"; "karate";
  "ninjas"; "helicopters"; "kingdoms"; "symphonies"; "mysteries"; "pyramids"; "pizza"; "marathons";
  "crime"; "saxophone"; "pineapples"; "bands"; "dance"; "bitcoin"; "rainbows"; "volleyball";
  "novels"; "bread"; "professionally"; "vacuums"; "mittens"; "ceramics"; "computers"; "opera";
  "origami"; "parties"; "coffee"; "hearts"; "screenplays"; "drums"; "physics"; "bicycles";
  "pools"; "flowers"; "mainframes"; "spotlight"; "loudly"; "nails"; "feelings"; "magic";
  "lawyers"; "jazz"; "chaos"; "cupcakes"; "kindergarten"; "submarines"; "socks"; "backwards";
  "poorly"; "war"; "high"; "internet"; "portraits"; "fast"; "jokes"; "ballads";
  "hard"; "spaceships"; "boats"; "mockingly"; "salsa"; "jets"; "knights"; "gossip";
  "masterpieces"; "systems"; "fortunes"; "disco"; "blogs"; "treasure"; "reality"
].

(** A result or a thrown [Error]; the state is changed in both cases. *)
Inductive Result (A : Type) : Type :=
| Ok (a : A)
| Error (message : string).
Arguments Ok {A} a.
Arguments Error {A} message.

Definition swap {A} (i j : nat) (l : list A) : list A :=
  match l !! i, l !! j with
  | Some a, Some b => <[j := a]> (<[i := b]> l)
  | _, _ => l
  end.

(** The Fisher-Yates loop: [i] runs from [n] down to [1], the draw for each
    [i] is read at the next position of the generator. *)
Fixpoint shuffle_from {A} (i : nat) (rng : Js.Rng) (pos : nat) (l : list A) : list A :=
  match i with
  | O => l
  | S i' =>
      let j := Js.random_below (i + 1) rng pos in
      shuffle_from i' rng (pos + 1) (swap i j l)
  end.

Definition shuffle {A} (rng : Js.Rng) (pos : nat) (l : list A) : list A :=
  shuffle_from (length l - 1) rng pos l.

(** [availableWords[wordIndex % availableWords.length]] *)
Definition word_at (availableWords : list string) (wordIndex : nat) : string :=
  default "" (availableWords !! (wordIndex mod length availableWords)%nat).

Definition stopGameLoop (roomCode : string) (m : t) : t :=
  match JsMap.get roomCode (gameLoops m) with
  | Some loop =>
      mk (games m) (JsMap.delete roomCode (gameLoops m))
         (filter (fun i => fst i ≠ loop) (intervals m)) (fresh m) (emitted m)
  | None => m
  end.

Definition endGame (roomCode : string) (now : Z) (m : t) : t :=
  let m1 := stopGameLoop roomCode m in
  match JsMap.get roomCode (games m1) with
  | Some (_, game) =>
      let game' := set_endTime now (set_status finished game) in
      set_games (JsMap.delete roomCode (games m1)) (emit (GameEnd roomCode game') m1)
  | None => m1
  end.

Definition createVoiceRacerGame (rng : Js.Rng) (pos : nat)
           (players : JsMap.t Types.Player) : GameState :=
  let availableWords := shuffle rng pos RACING_WORDS in
  let entries := imap (fun wordIndex e => (wordIndex, e)) players in
  mkGame waiting None None None
    (foldl (fun acc '(_, (playerId, player)) =>
              JsMap.set playerId
                (mkPlayerState playerId (Types.name player) 0 true
                               (Some (mkPosition 0 50)))
                acc)
           JsMap.empty entries)
    (Racer
       (mkRacer 100
          (foldl (fun acc '(_, (playerId, _)) => JsMap.set playerId 0%float acc)
                 JsMap.empty entries)
          (foldl (fun acc '(_, (playerId, _)) => JsMap.set playerId 0%float acc)
                 JsMap.empty entries)
          (foldl (fun acc '(wordIndex, (playerId, _)) =>
                    JsMap.set playerId (word_at availableWords wordIndex) acc)
                 JsMap.empty entries))).

Definition createTugOfWarGame (rng : Js.Rng) (pos : nat)
           (players : JsMap.t Types.Player) : Result GameState :=
  let playerArray := JsMap.values players in
  if negb (length playerArray mod 2 =? 0)%nat then
    Error "Tug of War requires an even number of players"
  else
    let availableWords := shuffle rng pos RACING_WORDS in
    let midpoint := (length playerArray / 2)%nat in
    let entries := imap (fun index player => (index, player)) playerArray in
    Ok (mkGame waiting None None None
          (foldl (fun acc '(index, player) =>
                    JsMap.set (Types.id player)
                      (mkPlayerState (Types.id player) (Types.name player) 0 true
                         (Some (mkPosition (if (index <? midpoint)%nat then 25 else 75) 50)))
                      acc)
                 JsMap.empty entries)
          (Tug
             (mkTug
                (mkTeams
                   (Types.id <$> take midpoint playerArray)
                   (Types.id <$> drop midpoint playerArray))
                (foldl (fun acc '(index, player) =>
                          JsMap.set (Types.id player) (word_at availableWords index) acc)
                       JsMap.empty entries)
                0))).

(** [mode] is the string that the caller passes: the entry point hands on
    the string of the client unchecked, so the [default] branch of the
    [switch] can be reached. *)
Definition createGame (roomCode : string) (mode : string) (rng : Js.Rng) (pos : nat)
           (now : Z) (players : JsMap.t Types.Player) (m : t)
  : Result GameState * t :=
  let m1 := endGame roomCode now m in
  let made :=
    if String.eqb mode "voice_racer" then Ok (createVoiceRacerGame rng pos players)
    else if String.eqb mode "tug_of_war" then createTugOfWarGame rng pos players
    else if String.eqb mode "quick_draw" then Error "Quick Draw not implemented yet"
    else if String.eqb mode "word_bridge" then Error "Word Bridge not implemented yet"
    else Error ("Unknown game mode: " ++ mode) in
  match made with
  | Ok gameState =>
      (Ok gameState,
       mk (JsMap.set roomCode (fresh m1, gameState) (games m1))
          (gameLoops m1) (intervals m1) (S (fresh m1)) (emitted m1))
  | Error message => (Error message, m1)
  end.

Definition startGameLoop (roomCode : string) (m : t) : t :=
  mk (games m) (JsMap.set roomCode (fresh m) (gameLoops m))
     (intervals m ++ [(fresh m, roomCode)]) (S (fresh m)) (emitted m).

(** *** The countdown

    The variables that the callback of the interval of [startGame] closes
    over: the room code, the game object and the counter. *)
Record CountdownClosure : Type := mkCountdown {
  cd_roomCode : string;
  cd_game : nat;
  cd_countdown : Z
}.

(** [game.status = s] for the game object numbered [ref]: seen in [games]
    while that object is still registered, lost otherwise. *)
Definition set_status_of (ref : nat) (s : GameStatus) (m : t) : t :=
  set_games ((fun e : string * (nat * GameState) =>
                if (fst (snd e) =? ref)%nat
                then (fst e, (ref, set_status s (snd (snd e))))
                else e)
               <$> games m) m.

Definition startGame (roomCode : string) (now : Z) (m : t)
  : Result CountdownClosure * t :=
  match JsMap.get roomCode (games m) with
  | None => (Error ("No game found for room " ++ roomCode), m)
  | Some (ref, game) =>
      (Ok (mkCountdown roomCode ref 3),
       set_games (JsMap.set roomCode
                    (ref, set_startTime now (set_status countdown game)) (games m)) m)
  end.

(** One call of the callback.  The closure it returns is [None] when the
    call ended with [clearInterval]. *)
Definition countdown_callback (cl : CountdownClosure) (m : t)
  : option CountdownClosure * t :=
  let m1 := emit (Countdown (cd_roomCode cl) (cd_countdown cl)) m in
  let countdown := cd_countdown cl - 1 in
  if countdown <? 0 then
    (None, startGameLoop (cd_roomCode cl) (set_status_of (cd_game cl) playing m1))
  else
    (Some (mkCountdown (cd_roomCode cl) (cd_game cl) countdown), m1).

(** *** The tick loop *)

Definition store (roomCode : string) (ref : nat) (game : GameState) (m : t) : t :=
  set_games (JsMap.set roomCode (ref, game) (games m)) m.

(** One turn of the [forEach] of [updateVoiceRacer]. *)
Definition update_racer_player (acc : VoiceRacer * JsMap.t PlayerGameState)
           (e : string * float) : VoiceRacer * JsMap.t PlayerGameState :=
  let '(r, players) := acc in
  let '(playerId, position) := e in
  let speed := Num.or_zero (JsMap.get playerId (playerSpeeds r)) in
  let newSpeed := (speed * 0.98)%float in
  let speeds :=
    JsMap.set playerId (if PrimFloat.ltb 0.001 newSpeed then newSpeed else 0%float)
              (playerSpeeds r) in
  let newPosition := Num.Math_min (position + newSpeed)%float (trackLength r + 1)%float in
  let positions := JsMap.set playerId newPosition (playerPositions r) in
  let players' :=
    match JsMap.get playerId players with
    | Some playerState =>
        match Game.position playerState with
        | Some p =>
            JsMap.set playerId
              (mkPlayerState (id playerState) (name playerState) (score playerState)
                 (isAlive playerState)
                 (Some (mkPosition (newPosition / trackLength r * 100)%float (y p))))
              players
        | None => players
        end
    | None => players
    end in
  (mkRacer (trackLength r) positions speeds (racerWords r), players').

Definition updateVoiceRacer (r : VoiceRacer) (game : GameState) : GameState :=
  let '(r', players') :=
    foldl update_racer_player (r, players game) (playerPositions r) in
  set_variant (Racer r') (set_players players' game).

(** The rope stays where it is. *)
Definition updateTugOfWar (g : TugOfWar) (game : GameState) : GameState := game.

(** [checkGameEnd]: the returned flag, and the game with its winner. *)
Definition checkGameEnd (game : GameState) : bool * GameState :=
  match variant game with
  | Racer r =>
      match JsMap.find (fun position => Num.geb position (trackLength r))
                       (playerPositions r) with
      | Some (playerId, _) => (true, set_winner (Some playerId) game)
      | None => (false, game)
      end
  | Tug g =>
      if PrimFloat.leb (ropePosition g) (-80)%float then
        (true, set_winner (head (red (teams g))) game)
      else if Num.geb (ropePosition g) 80%float then
        (true, set_winner (head (blue (teams g))) game)
      else (false, game)
  | _ => (false, game)
  end.

(** One call of the callback of the interval of [startGameLoop]. *)
Definition gameLoop_callback (roomCode : string) (now : Z) (m : t) : t :=
  match JsMap.get roomCode (games m) with
  | None => stopGameLoop roomCode m
  | Some (ref, game) =>
      match status game with
      | playing =>
          let game1 :=
            match variant game with
            | Racer r => updateVoiceRacer r game
            | Tug g => updateTugOfWar g game
            | _ => game
            end in
          let m1 := emit (GameUpdate roomCode game1) (store roomCode ref game1 m) in
          let '(ended, game2) := checkGameEnd game1 in
          let m2 := store roomCode ref game2 m1 in
          if ended then endGame roomCode now m2 else m2
      | _ => stopGameLoop roomCode m
      end
  end.

(** *** Actions *)

Definition processVoiceRacerCommand (r : VoiceRacer) (action : GameAction) : VoiceRacer :=
  let playerId := Game.playerId action in
  let matchScore := default 1.0%float (Game.matchScore action) in
  match JsMap.get playerId (racerWords r) with
  | None => r
  | Some playerWord =>
      if Js.falsy playerWord then r else
      let currentSpeed := Num.or_zero (JsMap.get playerId (playerSpeeds r)) in
      let baseBoost := if PrimFloat.ltb currentSpeed 0.015 then 0.06%float else 0.04%float in
      let boostAmount := (baseBoost * matchScore)%float in
      let newSpeed :=
        Num.Math_min (currentSpeed + boostAmount)%float (0.15 * matchScore)%float in
      mkRacer (trackLength r) (playerPositions r)
              (JsMap.set playerId newSpeed (playerSpeeds r)) (racerWords r)
  end.

(** [team.includes (playerId)] *)
Definition includes (team : list string) (playerId : string) : bool :=
  existsb (String.eqb playerId) team.

Definition processTugOfWarCommand (g : TugOfWar) (action : GameAction) : TugOfWar :=
  let playerId := Game.playerId action in
  let matchScore := default 1.0%float (Game.matchScore action) in
  let isRedTeam := includes (red (teams g)) playerId in
  let isBlueTeam := includes (blue (teams g)) playerId in
  if negb isRedTeam && negb isBlueTeam then g
  else
    let BASE_PULL_FORCE := 3%float in
    let pullForce := (BASE_PULL_FORCE * matchScore)%float in
    if isRedTeam then
      mkTug (teams g) (tugWords g)
            (Num.Math_max (-100)%float (ropePosition g - pullForce)%float)
    else
      mkTug (teams g) (tugWords g)
            (Num.Math_min 100%float (ropePosition g + pullForce)%float).

Definition processCommand (roomCode : string) (action : GameAction) (m : t) : t :=
  match JsMap.get roomCode (games m) with
  | None => m
  | Some (ref, game) =>
      match status game with
      | playing =>
          match variant game with
          | Racer r =>
              store roomCode ref
                    (set_variant (Racer (processVoiceRacerCommand r action)) game) m
          | Tug g =>
              store roomCode ref
                    (set_variant (Tug (processTugOfWarCommand g action)) game) m
          | _ => m
          end
      | _ => m
      end
  end.

(** Where a pull of a blue player moves the rope. *)
Definition blue_pull (matchScore rope : float) : float :=
  Num.Math_min 100%float (rope + 3 * matchScore)%float.

(** *** The calls of the countdown interval, one after the other

    What one call of the callback did, as seen from outside: when it ran,
    what it emitted, and the status of the game of the room and whether a
    tick loop is registered for the room when it returned. *)
Record TimerStep : Type := mkStep {
  at_time : Z;
  emits : list Event;
  status_after : option GameStatus;
  loop_after : bool
}.

(** The first [n] calls of an interval of period [period] that was set at
    time [t] with the closure [cl], each at one period after the one
    before, until a call clears the interval. *)
Fixpoint countdown_steps (roomCode : string) (t period : Z) (n : nat)
         (cl : option CountdownClosure) (m : GameManager.t) : list TimerStep :=
  match n, cl with
  | S n', Some c =>
      let '(cl', m') := countdown_callback c m in
      mkStep (t + period)
             (drop (length (emitted m)) (emitted m'))
             (status <$> getGame roomCode m')
             (JsMap.has roomCode (gameLoops m'))
      :: countdown_steps roomCode (t + period) period n' cl' m'
  | _, _ => []
  end.

(** The claim that the game is not yet [playing] when the call that emits
    the count [0] returns. *)
Definition playing_held_after_zero (roomCode : string) (steps : list TimerStep) : Prop :=
  forall s, In s steps -> In (Countdown roomCode 0) (emits s) ->
            status_after s <> Some playing.

(** The position of the rope of the game of a room. *)
Definition ropeAt (roomCode : string) (m : GameManager.t) : option float :=
  match getGame roomCode m with
  | Some game =>
      match variant game with
      | Tug g => Some (ropePosition g)
      | _ => None
      end
  | None => None
  end.

(** The speed of a player in the game of a room. *)
Definition speedAt (roomCode playerId : string) (m : GameManager.t) : option float :=
  match getGame roomCode m with
  | Some game =>
      match variant game with
      | Racer r => JsMap.get playerId (playerSpeeds r)
      | _ => None
      end
  | None => None
  end.

End GameManager.

(** ** Example games *)

Module GameScenario.
Import Game GameManager.

Definition ann : Types.Player := Types.mkPlayer "p1" "ann" "AAAA" "s1" true.
Definition bob : Types.Player := Types.mkPlayer "p2" "bob" "AAAA" "s2" true.

Definition two_players : JsMap.t Types.Player := [("p1", ann); ("p2", bob)].

Definition rng0 : Js.Rng := fun _ => 0%nat.

(** A tug-of-war game for the room [AAAA], created and then started by the
    calls of its countdown; [ann] is red, [bob] is blue. *)
Definition tug_created : GameManager.t :=
  (createGame "AAAA" "tug_of_war" rng0 0 0 two_players init).2.

Definition game_of (r : Result GameState) : GameState :=
  match r with
  | Ok game => game
  | Error _ => mkGame waiting None None None JsMap.empty QuickDraw
  end.

Definition tug_game : GameState :=
  game_of (createGame "AAAA" "tug_of_war" rng0 0 0 two_players init).1.

Definition tug_started : Result CountdownClosure * GameManager.t :=
  startGame "AAAA" 0 tug_created.

Definition countdown_of (r : Result CountdownClosure) : option CountdownClosure :=
  match r with Ok cl => Some cl | Error _ => None end.

Fixpoint countdown_run (n : nat) (cl : option CountdownClosure) (m : GameManager.t)
  : GameManager.t :=
  match n, cl with
  | S n', Some c =>
      let '(cl', m') := countdown_callback c m in countdown_run n' cl' m'
  | _, _ => m
  end.

Definition tug_playing : GameManager.t :=
  countdown_run 4 (countdown_of tug_started.1) tug_started.2.

(** The same for a race. *)
Definition race_created : GameManager.t :=
  (createGame "AAAA" "voice_racer" rng0 0 0 two_players init).2.

Definition race_playing : GameManager.t :=
  countdown_run 4 (countdown_of (startGame "AAAA" 0 race_created).1)
                (startGame "AAAA" 0 race_created).2.

(** The [playing] games of the two examples and their mode-specific parts. *)
Definition tug_playing_game : GameState :=
  default (game_of (Error "")) (getGame "AAAA" tug_playing).

Definition tug_playing_data : TugOfWar :=
  match variant tug_playing_game with
  | Tug g => g
  | _ => mkTug (mkTeams [] []) JsMap.empty 0
  end.

Definition race_playing_game : GameState :=
  default (game_of (Error "")) (getGame "AAAA" race_playing).

Definition race_playing_data : VoiceRacer :=
  match variant race_playing_game with
  | Racer r => r
  | _ => mkRacer 0 JsMap.empty JsMap.empty JsMap.empty
  end.

(** A full-phrase action of [bob], and a trigger-word action of [ann]. *)
Definition bob_full_phrase : GameAction := mkAction "p2" "homework" 0 (Some 2.0%float).
Definition ann_trigger_word : GameAction := mkAction "p1" "gravity" 0 (Some 1.0%float).

(** The tug of war after fourteen full-phrase pulls of [bob]. *)
Definition tug_won : GameManager.t :=
  Nat.iter 14 (processCommand "AAAA" bob_full_phrase) tug_playing.

Definition tug_won_game : GameState :=
  default (game_of (Error "")) (getGame "AAAA" tug_won).

Definition tug_won_data : TugOfWar :=
  match variant tug_won_game with
  | Tug g => g
  | _ => mkTug (mkTeams [] []) JsMap.empty 0
  end.

(** A race in which both players cross the end of the track in the next
    tick: [bob], second in the order of the players, is behind [ann] and
    faster, and is ahead of [ann] after the tick. *)
Definition race_close_data : VoiceRacer :=
  mkRacer 100 [("p1", 99.95%float); ("p2", 99.9%float)]
          [("p1", 0.1%float); ("p2", 0.3%float)]
          (racerWords race_playing_data).

Definition race_close_game : GameState :=
  set_variant (Racer race_close_data) race_playing_game.

Definition race_close : GameManager.t := store "AAAA" 0 race_close_game race_playing.

Definition race_close_moved : VoiceRacer :=
  match variant (updateVoiceRacer race_close_data race_close_game) with
  | Racer r => r
  | _ => race_close_data
  end.

End GameScenario.

(** ** The handlers of the server entry point (index.ts) *)

Module Handlers.
Import Types.

(** *** Creation of rooms, one per address and minute *)

Definition ROOM_CREATION_COOLDOWN : Z := 60000.

(** The registry and the map from an address to the time of its last
    creation of a room. *)
Record t : Type := mk {
  registry : RoomManager.t;
  roomCreationLimiter : JsMap.t Z
}.

(** What the handler of [createRoom] sends back on the socket. *)
Inductive Reply : Type :=
| error (message : string)
| roomCreated (roomCode : string).

(** [Math.ceil (x / 1000)] for an integer [x], as [Date.now ()] and the
    differences of such values are. *)
Definition ceil_seconds (x : Z) : Z := - ((- x) / 1000).

(** [Please wait ${waitTime} seconds before creating another room] *)
Definition wait_message (waitTime : Z) : string :=
  "Please wait " ++ pretty waitTime ++ " seconds before creating another room".

(** The handler of [createRoom] for a socket with the address [ip].  The
    loop of [generateRoomCode] has no bound, hence [fuel] and the option. *)
Definition onCreateRoom (fuel : nat) (rng : Js.Rng) (pos : nat)
           (ip socketId : string) (now : Z) (s : t) : option (Reply * nat * t) :=
  let lastCreation := default 0 (JsMap.get ip (roomCreationLimiter s)) in
  if now - lastCreation <? ROOM_CREATION_COOLDOWN then
    let waitTime := ceil_seconds (ROOM_CREATION_COOLDOWN - (now - lastCreation)) in
    Some (error (wait_message waitTime), pos, s)
  else
    let limiter := JsMap.set ip now (roomCreationLimiter s) in
    match RoomManager.createRoom fuel rng pos socketId now (registry s) with
    | Some (roomCode, pos', registry') =>
        Some (roomCreated roomCode, pos', mk registry' limiter)
    | None => None
    end.

(** One turn of the loop of the interval that forgets old entries of the
    limiter, on the entry [e], and the whole loop over the entries present
    when it starts. *)
Definition prune_step (now : Z) (limiter : JsMap.t Z) (e : string * Z) : JsMap.t Z :=
  if now - e.2 >? ROOM_CREATION_COOLDOWN then JsMap.delete e.1 limiter else limiter.

Definition pruneLimiter (now : Z) (s : t) : t :=
  mk (registry s)
     (foldl (prune_step now) (roomCreationLimiter s) (roomCreationLimiter s)).

(** *** The ready gate *)

Inductive Out : Type :=
| playerReadyStatus (roomCode playerId : string) (ready hasMic : bool)
                    (totalReady totalPlayers : nat)
| allPlayersReady (roomCode : string).

(** What a handler of the ready gate did: the events it sent to the room,
    whether it set the timeout that starts the game, and the registry. *)
Record Gate : Type := mkGate {
  sent : list Out;
  start_scheduled : bool;
  after : RoomManager.t
}.

Definition totalReady (readyPlayers : JsMap.t ReadyState) : nat :=
  length (List.filter ready (JsMap.values readyPlayers)).

(** [room.readyPlayers?.get (id)?.ready === true] *)
Definition is_ready (readyPlayers : JsMap.t ReadyState) (id : string) : bool :=
  match JsMap.get id readyPlayers with
  | Some r => ready r
  | None => false
  end.

Definition onPlayerReady (roomCode playerId : string) (hasMic : bool)
           (m : RoomManager.t) : Gate :=
  match RoomManager.getRoom roomCode m with
  | Some room =>
      if JsMap.has playerId (players room) then
        let readyPlayers :=
          JsMap.set playerId (mkReady true hasMic)
                    (default JsMap.empty (readyPlayers room)) in
        let m' :=
          RoomManager.mk
            (JsMap.set roomCode (set_readyPlayers (Some readyPlayers) room)
                       (RoomManager.rooms m))
            (RoomManager.playerToRoom m) in
        let status :=
          playerReadyStatus roomCode playerId true hasMic (totalReady readyPlayers)
                            (JsMap.size (players room)) in
        match gameState room with
        | preparing =>
            let playerIds := JsMap.keys (players room) in
            let allReady := forallb (is_ready readyPlayers) playerIds in
            if allReady && (0 <? length playerIds)%nat
            then mkGate [status; allPlayersReady roomCode] true m'
            else mkGate [status] false m'
        | _ => mkGate [status] false m'
        end
      else mkGate [] false m
  | None => mkGate [] false m
  end.

Definition onPlayerNotReady (roomCode playerId : string) (m : RoomManager.t) : Gate :=
  match RoomManager.getRoom roomCode m with
  | Some room =>
      match readyPlayers room with
      | Some ready0 =>
          let readyPlayers := JsMap.set playerId (mkReady false false) ready0 in
          mkGate [playerReadyStatus roomCode playerId false false
                                    (totalReady readyPlayers)
                                    (JsMap.size (players room))]
                 false
                 (RoomManager.mk
                    (JsMap.set roomCode (set_readyPlayers (Some readyPlayers) room)
                               (RoomManager.rooms m))
                    (RoomManager.playerToRoom m))
      | None => mkGate [] false m
      end
  | None => mkGate [] false m
  end.

(** *** Transcripts *)

Record TranscriptEvent : Type := mkEvent {
  ev_text : string;
  ev_confidence : float;
  ev_playerId : string;
  ev_roomCode : string;
  ev_timestamp : Z
}.

(** What the handler of a transcript sends: [transcript] to the socket of
    the player, [hostTranscript] to the socket of the host, [playerCommand]
    to the room. *)
Inductive Message : Type :=
| transcript (socketId text : string) (confidence : float)
| hostTranscript (socketId playerId playerName text : string) (confidence : float)
                 (timestamp : Z)
| playerCommand (roomCode playerId command : string)
                (type : CommandExtractor.CommandType) (confidence : float)
                (timestamp : Z) (playerName : string).

(** The string of a command type. *)
Definition type_name (ty : CommandExtractor.CommandType) : string :=
  match ty with
  | CommandExtractor.movement => "movement"
  | CommandExtractor.action => "action"
  | CommandExtractor.game_specific => "game_specific"
  end.

(** The two messages that echo the transcript. *)
Definition echo (event : TranscriptEvent) (rooms : RoomManager.t) : list Message :=
  match RoomManager.getRoom (ev_roomCode event) rooms with
  | Some room =>
      let player := JsMap.get (ev_playerId event) (players room) in
      (match player with
       | Some p =>
           if Js.falsy (socketId p) then []
           else [transcript (socketId p) (ev_text event) (ev_confidence event)]
       | None => []
       end
       ++ (if Js.falsy (hostSocketId room) then []
           else [hostTranscript (hostSocketId room) (ev_playerId event)
                   (match player with
                    | Some p => if Js.falsy (name p) then "Unknown" else name p
                    | None => "Unknown"
                    end)
                   (ev_text event) (ev_confidence event) (ev_timestamp event)]))%list
  | None => []
  end.

(** The word of the player in the game of the room, if any. *)
Definition dynamicWords (event : TranscriptEvent) (gm : GameManager.t) : list string :=
  let word_of (playerWords : JsMap.t string) :=
    match JsMap.get (ev_playerId event) playerWords with
    | Some playerWord => if Js.falsy playerWord then [] else [playerWord]
    | None => []
    end in
  match GameManager.getGame (ev_roomCode event) gm with
  | Some game =>
      match Game.variant game with
      | Game.Racer r => word_of (Game.racerWords r)
      | Game.Tug g => word_of (Game.tugWords g)
      | _ => []
      end
  | None => []
  end.

Definition playerName_of (event : TranscriptEvent) (rooms : RoomManager.t) : string :=
  match RoomManager.getRoom (ev_roomCode event) rooms with
  | Some room =>
      match JsMap.get (ev_playerId event) (players room) with
      | Some player => name player
      | None => "Unknown Player"
      end
  | None => "Unknown Player"
  end.

(** The handler of a transcript: the messages sent, and the game manager
    when the handler returns, or the exception of [extract]. *)
Definition onTranscript (event : TranscriptEvent) (rooms : RoomManager.t)
           (gm : GameManager.t)
  : list Message * CommandExtractor.Outcome GameManager.t :=
  let sent := echo event rooms in
  match CommandExtractor.extract (ev_text event) (ev_confidence event)
                                 (Some (dynamicWords event gm)) with
  | CommandExtractor.Throws => (sent, CommandExtractor.Throws)
  | CommandExtractor.Returns None => (sent, CommandExtractor.Returns gm)
  | CommandExtractor.Returns (Some command) =>
      if Num.geb (CommandExtractor.confidence command)
                 (CommandExtractor.getConfidenceThreshold
                    (type_name (CommandExtractor.type command)))
      then
        ((sent ++ [playerCommand (ev_roomCode event) (ev_playerId event)
                     (CommandExtractor.command command)
                     (CommandExtractor.type command)
                     (CommandExtractor.confidence command)
                     (ev_timestamp event) (playerName_of event rooms)])%list,
         CommandExtractor.Returns
           (GameManager.processCommand (ev_roomCode event)
              (Game.mkAction (ev_playerId event) (CommandExtractor.command command)
                             (ev_timestamp event)
                             (CommandExtractor.matchScore command))
              gm))
      else (sent, CommandExtractor.Returns gm)
  end.

End Handlers.

(** ** Example server states *)

Module HandlersScenario.
Import Types Handlers.

(** A server that has seen nothing yet, and the same after the address
    [10.0.0.1] created a room at 100 seconds. *)
Definition fresh : Handlers.t := Handlers.mk RoomManager.init JsMap.empty.

Definition after_creation : Handlers.t :=
  match onCreateRoom 1 Scenario.rng0 0 "10.0.0.1" "h0" 100000 fresh with
  | Some (_, _, s) => s
  | None => fresh
  end.

Definition ann : Player := mkPlayer "p1" "ann" "AAAA" "s1" true.
Definition bob : Player := mkPlayer "p2" "bob" "AAAA" "s2" true.

(** A room in [preparing] with two players, neither ready. *)
Definition preparing_room : RoomManager.t :=
  RoomManager.mk
    [("AAAA", mkRoom "AAAA" "h0" [("p1", ann); ("p2", bob)] preparing 0 None
                     (Some JsMap.empty))]
    (<["s1" := "AAAA"]> (<["s2" := "AAAA"]> ∅)).

End HandlersScenario.

(** * Part II: properties *)

(** ** Facts about [JsMap] *)

Module JsMapFacts.
Import JsMap.

Section Facts.
Context {V : Type}.
Implicit Types (m : t V) (k : string) (v : V).

Lemma get_set_eq k v m : get k (set k v m) = Some v.
Proof.
  induction m as [|[k' v'] m IH]; simpl.
  - by rewrite String.eqb_refl.
  - destruct (String.eqb k k') eqn:E; simpl; rewrite ?String.eqb_refl, ?E; done.
Qed.

Lemma get_set_ne k k' v m : k ≠ k' → get k' (set k v m) = get k' m.
Proof.
  intros Hne. induction m as [|[k0 v0] m IH]; simpl.
  - apply String.eqb_neq in Hne. rewrite String.eqb_sym in Hne. by rewrite Hne.
  - destruct (String.eqb k k0) eqn:E; simpl.
    + apply String.eqb_eq in E as <-.
      assert (String.eqb k' k = false) as -> by (apply String.eqb_neq; congruence).
      done.
    + by rewrite IH.
Qed.

Lemma get_delete_eq k m : get k (delete k m) = None.
Proof.
  induction m as [|[k' v'] m IH]; simpl; [done|].
  destruct (String.eqb k k') eqn:E; simpl; rewrite ?E; done.
Qed.

Lemma get_delete_ne k k' m : k ≠ k' → get k' (delete k m) = get k' m.
Proof.
  intros Hne. induction m as [|[k0 v0] m IH]; simpl; [done|].
  destruct (String.eqb k k0) eqn:E; simpl.
  - apply String.eqb_eq in E as <-.
    assert (String.eqb k' k = false) as -> by (apply String.eqb_neq; congruence).
    done.
  - by rewrite IH.
Qed.

Lemma has_true k m : has k m = true ↔ is_Some (get k m).
Proof.
  unfold has. destruct (get k m); split; try done.
  all: try by intros [? ?]. all: eauto.
Qed.

Lemma get_Some_elem k v m : get k m = Some v → (k, v) ∈ m.
Proof.
  induction m as [|[k' v'] m IH]; simpl; [done|].
  destruct (String.eqb k k') eqn:E.
  - apply String.eqb_eq in E as <-. intros [= ->]. left.
  - intros H. right. by apply IH.
Qed.

Lemma elem_keys k v m : (k, v) ∈ m → k ∈ keys m.
Proof. intros H. unfold keys. apply list_elem_of_fmap. by exists (k, v). Qed.

Lemma get_None_keys k m : get k m = None ↔ k ∉ keys m.
Proof.
  unfold keys. induction m as [|[k' v'] m IH]; simpl.
  - split; [intros _; apply not_elem_of_nil | done].
  - rewrite not_elem_of_cons. destruct (String.eqb k k') eqn:E.
    + apply String.eqb_eq in E. split; [done | intros [? _]; done].
    + apply String.eqb_neq in E. rewrite IH. tauto.
Qed.

Lemma elem_get k v m : NoDup (keys m) → (k, v) ∈ m → get k m = Some v.
Proof.
  unfold keys. induction m as [|[k' v'] m IH]; simpl.
  - intros _ H. by apply elem_of_nil in H.
  - rewrite NoDup_cons. intros [Hk Hnd] [[= -> ->] | Hin]%elem_of_cons.
    + by rewrite String.eqb_refl.
    + destruct (String.eqb k k') eqn:E; [|by apply IH].
      apply String.eqb_eq in E as <-. destruct Hk. by apply (elem_keys k v).
Qed.

Lemma keys_set_present k v m : k ∈ keys m → keys (set k v m) = keys m.
Proof.
  unfold keys. induction m as [|[k' v'] m IH]; simpl.
  - intros H. by apply elem_of_nil in H.
  - destruct (String.eqb k k') eqn:E; simpl.
    + apply String.eqb_eq in E as <-. done.
    + apply String.eqb_neq in E. intros [?|?]%elem_of_cons; [done|].
      f_equal. by apply IH.
Qed.

Lemma keys_set_absent k v m : k ∉ keys m → keys (set k v m) = (keys m ++ [k])%list.
Proof.
  unfold keys. induction m as [|[k' v'] m IH]; simpl; [done|].
  rewrite not_elem_of_cons. intros [Hne Hk].
  apply String.eqb_neq in Hne. rewrite Hne. simpl. f_equal. by apply IH.
Qed.

Lemma NoDup_keys_set k v m : NoDup (keys m) → NoDup (keys (set k v m)).
Proof.
  intros Hnd. destruct (decide (k ∈ keys m)) as [Hin|Hout].
  - by rewrite keys_set_present.
  - rewrite keys_set_absent by done. apply NoDup_app. split; [done|].
    split; [|apply NoDup_singleton].
    intros x Hx ->%list_elem_of_singleton. done.
Qed.

Lemma elem_set k v k' v' m :
  (k', v') ∈ set k v m → (k', v') = (k, v) ∨ (k', v') ∈ m.
Proof.
  induction m as [|[k0 v0] m IH]; simpl.
  - intros ->%list_elem_of_singleton. by left.
  - destruct (String.eqb k k0) eqn:E.
    + intros [->|Hin]%elem_of_cons; [by left|]. right. by right.
    + intros [->|Hin]%elem_of_cons; [right; left|].
      destruct (IH Hin) as [?|?]; [by left | right; by right].
Qed.

Lemma elem_delete k k' v m : (k', v) ∈ delete k m ↔ k' ≠ k ∧ (k', v) ∈ m.
Proof.
  induction m as [|[k0 v0] m IH]; simpl.
  - split; [intros H; by apply elem_of_nil in H | intros [_ H]; done].
  - destruct (String.eqb k k0) eqn:E.
    + apply String.eqb_eq in E as <-. rewrite IH, elem_of_cons.
      split; [tauto|]. intros [Hne [[= ? ?]|?]]; done.
    + apply String.eqb_neq in E. rewrite !elem_of_cons, IH.
      split; [|tauto]. intros [[= -> ->]|?]; [|tauto]. split; [congruence|by left].
Qed.

Lemma NoDup_keys_delete k m : NoDup (keys m) → NoDup (keys (delete k m)).
Proof.
  unfold keys. induction m as [|[k' v'] m IH]; simpl; [done|].
  rewrite NoDup_cons. intros [Hk Hnd].
  destruct (String.eqb k k'); simpl; [by apply IH|].
  apply NoDup_cons. split; [|by apply IH].
  intros [[k0 v0] [Heq Hin]]%list_elem_of_fmap. simpl in Heq. subst k0.
  apply elem_delete in Hin as [_ Hin]. apply Hk. by apply (elem_keys k' v0).
Qed.

Lemma find_Some f m k v :
  find f m = Some (k, v) → (k, v) ∈ m ∧ f v = true.
Proof.
  induction m as [|[k0 v0] m IH]; simpl; [done|].
  destruct (f v0) eqn:E.
  - intros [= -> ->]. split; [left | done].
  - intros H. destruct (IH H). split; [by right | done].
Qed.

Lemma find_None f m :
  find f m = None ↔ ∀ k v, (k, v) ∈ m → f v = false.
Proof.
  induction m as [|[k0 v0] m IH]; simpl.
  - split; [intros _ k v H; by apply elem_of_nil in H | done].
  - destruct (f v0) eqn:E.
    + split; [done|]. intros H. rewrite (H k0 v0) in E; [done | left].
    + rewrite IH. split.
      * intros H k v [[= -> ->]|?]%elem_of_cons; eauto.
      * intros H k v ?. apply (H k v). by right.
Qed.
End Facts.

End JsMapFacts.

(** ** Properties of the room registry *)

Module RoomManagerProps.
Import Types RoomManager.

Implicit Types (m : RoomManager.t) (room : Room).

(** *** Well-formed registries *)

Lemma wf_init : wf init.
Proof.
  split; [apply NoDup_nil_2|]. intros k room H. by apply elem_of_nil in H.
Qed.

(** Replacing a room by one with the same code. *)
Lemma wf_update m k room room' p2r :
  getRoom k m = Some room → code room' = code room →
  wf m → wf (mk (JsMap.set k room' (rooms m)) p2r).
Proof.
  intros Hget Hcode [Hnd Hall]. split; simpl.
  - by apply JsMapFacts.NoDup_keys_set.
  - intros k0 r0 [[= -> ->]|Hin]%JsMapFacts.elem_set; [|by apply Hall].
    apply JsMapFacts.get_Some_elem, Hall in Hget. by rewrite Hcode.
Qed.

Lemma wf_same_rooms m p2r : wf m → wf (mk (rooms m) p2r).
Proof. by intros [? ?]. Qed.

Lemma wf_delete m k p2r : wf m → wf (mk (JsMap.delete k (rooms m)) p2r).
Proof.
  intros [Hnd Hall]. split; simpl.
  - by apply JsMapFacts.NoDup_keys_delete.
  - intros k0 r0 [_ Hin]%JsMapFacts.elem_delete. by apply Hall.
Qed.

Lemma wf_cleanup_entry now m e : wf m → wf (cleanup_entry now m e).
Proof.
  intros Hwf. unfold cleanup_entry. destruct (expired now e.2); [|done].
  by apply wf_delete.
Qed.

Lemma wf_cleanupOldRooms now m : wf m → wf (cleanupOldRooms now m).
Proof.
  unfold cleanupOldRooms. generalize (rooms m) as l. intros l. revert m.
  induction l as [|e l IH]; intros m Hwf; simpl; [done|].
  by apply IH, wf_cleanup_entry.
Qed.

(** *** Room codes *)

Lemma charAt_capital (i : nat) :
  (i < 26)%nat →
  ∃ c, Js.charAt characters i = String c EmptyString ∧ is_capital c = true.
Proof.
  intros Hi.
  assert (Forall (λ i, ∃ c, Js.charAt characters i = String c EmptyString
                            ∧ is_capital c = true) (seq 0 26)) as Hall.
  { repeat (apply Forall_cons; split; [eexists; split; reflexivity|]).
    apply Forall_nil_2. }
  rewrite Forall_forall in Hall. apply Hall, elem_of_seq. lia.
Qed.

Lemma draw_code_unfold (rng : Js.Rng) (pos : nat) :
  let ch i := Js.charAt characters (rng (pos + i)%nat mod 26)%nat in
  draw_code rng pos = (((("" ++ ch 0%nat) ++ ch 1%nat) ++ ch 2%nat) ++ ch 3%nat).
Proof. reflexivity. Qed.

Lemma draw_code_is_room_code (rng : Js.Rng) (pos : nat) :
  is_room_code (draw_code rng pos) = true.
Proof.
  rewrite draw_code_unfold. cbv zeta.
  destruct (charAt_capital (rng (pos + 0)%nat mod 26)) as (c0 & -> & H0);
    [apply Nat.mod_upper_bound; lia|].
  destruct (charAt_capital (rng (pos + 1)%nat mod 26)) as (c1 & -> & H1);
    [apply Nat.mod_upper_bound; lia|].
  destruct (charAt_capital (rng (pos + 2)%nat mod 26)) as (c2 & -> & H2);
    [apply Nat.mod_upper_bound; lia|].
  destruct (charAt_capital (rng (pos + 3)%nat mod 26)) as (c3 & -> & H3);
    [apply Nat.mod_upper_bound; lia|].
  unfold is_room_code. simpl. by rewrite H0, H1, H2, H3.
Qed.

Lemma generateRoomCode_Some fuel rng pos m c pos' :
  generateRoomCode fuel rng pos m = Some (c, pos') →
  is_room_code c = true ∧ getRoom c m = None.
Proof.
  revert pos. induction fuel as [|fuel IH]; intros pos; simpl; [done|].
  destruct (JsMap.has (draw_code rng pos) (rooms m)) eqn:E; [apply IH|].
  intros [= <- <-]. split; [apply draw_code_is_room_code|].
  unfold getRoom, JsMap.has in *. by destruct (JsMap.get _ _).
Qed.

(** The loop ends as soon as a candidate is not in the registry. *)
Lemma generateRoomCode_ends fuel rng pos m k :
  (k < fuel)%nat →
  getRoom (draw_code rng (pos + 4 * k)) m = None →
  is_Some (generateRoomCode fuel rng pos m).
Proof.
  revert pos k. induction fuel as [|fuel IH]; intros pos k Hk Hfree; [lia|].
  simpl. destruct (JsMap.has (draw_code rng pos) (rooms m)) eqn:E; [|eauto].
  destruct k as [|k].
  - replace (pos + 4 * 0)%nat with pos in Hfree by lia.
    unfold getRoom, JsMap.has in *. by rewrite Hfree in E.
  - apply (IH _ k); [lia|]. by replace (pos + 4 + 4 * k)%nat with (pos + 4 * S k)%nat by lia.
Qed.

Lemma createRoom_Some fuel rng pos host now m c pos' m' :
  createRoom fuel rng pos host now m = Some (c, pos', m') →
  is_room_code c = true ∧ getRoom c m = None
  ∧ m' = mk (JsMap.set c (mkRoom c host JsMap.empty waiting now None (Some JsMap.empty))
                      (rooms m)) (playerToRoom m).
Proof.
  unfold createRoom. destruct (generateRoomCode fuel rng pos m) as [[c0 p0]|] eqn:E; [|done].
  intros [= <- <- <-]. by destruct (generateRoomCode_Some _ _ _ _ _ _ E).
Qed.

Lemma wf_createRoom fuel rng pos host now m c pos' m' :
  createRoom fuel rng pos host now m = Some (c, pos', m') → wf m → wf m'.
Proof.
  intros (Hc & Hfree & ->)%createRoom_Some [Hnd Hall]. split; simpl.
  - by apply JsMapFacts.NoDup_keys_set.
  - intros k0 r0 [[= -> ->]|Hin]%JsMapFacts.elem_set; [done | by apply Hall].
Qed.

Lemma wf_step m m' : step m m' → wf m → wf m'.
Proof.
  intros Hstep Hwf. destruct Hstep as
    [fuel rng pos host now m c pos' m' Hc
    | rc player m | s now m | rc m | rc m | rc m | rc s m | rc pid s m
    | now m | rc pid m | rc room status ready m Hget].
  - by eapply wf_createRoom.
  - unfold joinRoom. destruct (JsMap.get rc (rooms m)) as [room|] eqn:E; [|done].
    destruct (gameState room); try done. simpl. by eapply wf_update.
  - unfold leaveRoom. destruct (playerToRoom m !! s) as [rc|]; [|done].
    destruct (Js.falsy rc); [done|].
    destruct (JsMap.get rc (rooms m)) as [room|] eqn:E; [|done].
    destruct (JsMap.find _ (players room)) as [[i p]|]; simpl;
      destruct (String.eqb (hostSocketId room) s); simpl; by eapply wf_update.
  - unfold startGame. destruct (JsMap.get rc (rooms m)) as [room|] eqn:E; [|done].
    destruct (_ <? _)%nat; [done|]. simpl. by eapply wf_update.
  - unfold endGame. destruct (JsMap.get rc (rooms m)) as [room|] eqn:E; [|done].
    simpl. by eapply wf_update.
  - unfold resetRoom. destruct (JsMap.get rc (rooms m)) as [room|] eqn:E; [|done].
    simpl. eapply wf_update; [done| |done]. by destruct (readyPlayers room).
  - unfold reconnectHost. destruct (JsMap.get rc (rooms m)) as [room|] eqn:E; [|done].
    simpl. by eapply wf_update.
  - unfold reconnectPlayer. destruct (JsMap.get rc (rooms m)) as [room|] eqn:E; [|done].
    destruct (JsMap.get pid (players room)); [|done]. simpl. by eapply wf_update.
  - by apply wf_cleanupOldRooms.
  - unfold removePlayer. destruct (JsMap.get rc (rooms m)) as [room|] eqn:E; [|done].
    destruct (JsMap.get pid (players room)); [|done]. simpl. by eapply wf_update.
  - by eapply wf_update.
Qed.

Lemma reachable_wf m : reachable m → wf m.
Proof.
  intros H. refine (rtc_ind_r (λ m, wf m) init wf_init _ m H).
  intros m1 m2 _ Hstep IH. by eapply wf_step.
Qed.

Lemma codes_are_keys (l : JsMap.t Room) :
  (∀ k room, (k, room) ∈ l → code room = k) →
  code <$> JsMap.values l = JsMap.keys l.
Proof.
  unfold JsMap.values, JsMap.keys.
  induction l as [|[k r] l IH]; intros H; simpl; [done|].
  f_equal; [apply H; left | apply IH; intros ???; apply H; by right].
Qed.

(** *** Reconnection of the host *)

(** C5.  [reconnectHost] returns [null] exactly when no room has the code.
    When the room exists the call succeeds whatever its
    [hostDisconnectedAt] is: the room it returns, which is the room now
    registered under the code, has the new host connection and no
    [hostDisconnectedAt], and its code, players (entries and their
    [connected] flags), status, creation time and ready map are those of
    the room before.  No other room, no key of the registry and no
    connection binding changes. *)
Theorem reconnectHost_rebinds_host_only m (roomCode newSocketId : string) :
  ((reconnectHost roomCode newSocketId m).1 = None ↔ getRoom roomCode m = None)
  ∧ (∀ room, getRoom roomCode m = Some room →
       ∃ room',
         (reconnectHost roomCode newSocketId m).1 = Some room'
         ∧ getRoom roomCode (reconnectHost roomCode newSocketId m).2 = Some room'
         ∧ hostSocketId room' = newSocketId
         ∧ hostDisconnectedAt room' = None
         ∧ code room' = code room
         ∧ players room' = players room
         ∧ gameState room' = gameState room
         ∧ createdAt room' = createdAt room
         ∧ readyPlayers room' = readyPlayers room)
  ∧ (∀ c, c ≠ roomCode →
       getRoom c (reconnectHost roomCode newSocketId m).2 = getRoom c m)
  ∧ JsMap.keys (rooms (reconnectHost roomCode newSocketId m).2) = JsMap.keys (rooms m)
  ∧ playerToRoom (reconnectHost roomCode newSocketId m).2 = playerToRoom m.
Proof.
  unfold reconnectHost, getRoom.
  destruct (JsMap.get roomCode (rooms m)) as [room|] eqn:E; simpl.
  - split; [split; discriminate|]. split.
    + intros r [= <-]. eexists. split; [reflexivity|].
      rewrite JsMapFacts.get_set_eq. done.
    + split; [intros c Hc; by apply JsMapFacts.get_set_ne|]. split; [|done].
      apply JsMapFacts.keys_set_present.
      eapply JsMapFacts.elem_keys, JsMapFacts.get_Some_elem, E.
  - rewrite E. split; [done|]. split; [discriminate|]. done.
Qed.

(** *** Room codes are four capital letters and identify one room *)

(** C9.  In every state the registry can reach, every room has a code of
    exactly four letters [A]-[Z] and no two rooms have the same code.
    [createRoom] returns such a code, one that no registered room has (the
    candidates are drawn again until one is free), and adds one room under
    it, after the rooms already there; and it does return as soon as one of
    the candidates drawn is free. *)
Theorem room_codes_four_capitals_unique m :
  reachable m →
  Forall (λ room, is_room_code (code room) = true) (getAllRooms m)
  ∧ NoDup (code <$> getAllRooms m)
  ∧ (∀ fuel rng pos host now c pos' m',
       createRoom fuel rng pos host now m = Some (c, pos', m') →
       is_room_code c = true
       ∧ (c ∉ code <$> getAllRooms m)
       ∧ code <$> getAllRooms m' = ((code <$> getAllRooms m) ++ [c])%list)
  ∧ (∀ fuel rng pos host now k,
       (k < fuel)%nat →
       getRoom (draw_code rng (pos + 4 * k)) m = None →
       is_Some (createRoom fuel rng pos host now m)).
Proof.
  intros Hreach. pose proof (reachable_wf m Hreach) as Hwf.
  destruct (Hwf) as [Hnd Hall]. unfold getAllRooms.
  assert (code <$> JsMap.values (rooms m) = JsMap.keys (rooms m)) as Hkeys.
  { apply codes_are_keys. intros k room Hin. by apply Hall. }
  split; [|split; [|split]].
  - apply Forall_forall. intros room Hin. unfold JsMap.values in Hin.
    apply list_elem_of_fmap in Hin as [[k r] [-> Hin]]. simpl.
    destruct (Hall k r Hin) as [-> ?]. done.
  - by rewrite Hkeys.
  - intros fuel rng pos host now c pos' m' Hc.
    pose proof (wf_createRoom _ _ _ _ _ _ _ _ _ Hc Hwf) as [Hnd' Hall'].
    apply createRoom_Some in Hc as (Hcode & Hfree & ->).
    apply JsMapFacts.get_None_keys in Hfree.
    split; [done|]. split; [by rewrite Hkeys|].
    rewrite Hkeys, codes_are_keys by (intros k r Hin; by apply Hall').
    simpl. by apply JsMapFacts.keys_set_absent.
  - intros fuel rng pos host now k Hk Hfree. unfold createRoom.
    destruct (generateRoomCode_ends fuel rng pos m k Hk Hfree) as [[c p] ->]. eauto.
Qed.

Lemma reachable_created : reachable Scenario.created.
Proof.
  eapply rtc_l; [|apply rtc_refl].
  eapply (step_createRoom 1 Scenario.rng0 0 "h0" 0 init). reflexivity.
Qed.

Lemma room_codes_four_capitals_unique_witness :
  Forall (λ room, is_room_code (code room) = true) (getAllRooms Scenario.created)
  ∧ NoDup (code <$> getAllRooms Scenario.created)
  ∧ (∀ fuel rng pos host now c pos' m',
       createRoom fuel rng pos host now Scenario.created = Some (c, pos', m') →
       is_room_code c = true
       ∧ (c ∉ code <$> getAllRooms Scenario.created)
       ∧ code <$> getAllRooms m' = ((code <$> getAllRooms Scenario.created) ++ [c])%list)
  ∧ (∀ fuel rng pos host now k,
       (k < fuel)%nat →
       getRoom (draw_code rng (pos + 4 * k)) Scenario.created = None →
       is_Some (createRoom fuel rng pos host now Scenario.created)).
Proof. exact (room_codes_four_capitals_unique Scenario.created reachable_created). Defined.

(** *** Leaving a room *)

(** A connection without a binding in [playerToRoom] leaves nothing. *)
Lemma leaveRoom_unbound m (s : string) (now : Z) :
  playerToRoom m !! s = None → leaveRoom s now m = (None, m).
Proof. unfold leaveRoom. by intros ->. Qed.

(** What [leaveRoom] does for a connection that is bound to a room and is
    the host of that room: [hostDisconnectedAt] is set, the room and all its
    player entries stay. *)
Lemma leaveRoom_bound_host m (s rc : string) (now : Z) room :
  playerToRoom m !! s = Some rc → rc ≠ "" →
  getRoom rc m = Some room → hostSocketId room = s →
  ∃ room',
    leaveRoom s now m
    = (Some (mkLeave rc "host" (Some true)),
       mk (JsMap.set rc room' (rooms m)) (delete s (playerToRoom m)))
    ∧ hostDisconnectedAt room' = Some now
    ∧ hostSocketId room' = s
    ∧ code room' = code room
    ∧ gameState room' = gameState room
    ∧ JsMap.keys (players room') = JsMap.keys (players room).
Proof.
  intros Hb Hrc Hget Hhost. unfold leaveRoom, getRoom in *. rewrite Hb.
  assert (Js.falsy rc = false) as -> by (by apply String.eqb_neq).
  rewrite Hget.
  destruct (JsMap.find _ (players room)) as [[i p]|] eqn:Hf; simpl;
    rewrite Hhost, String.eqb_refl; eexists; (split; [reflexivity|]); simpl;
    repeat split; try done.
  apply JsMapFacts.keys_set_present.
  apply JsMapFacts.find_Some in Hf as [Hin _]. by eapply JsMapFacts.elem_keys.
Qed.

(** What [leaveRoom] does for a connection that is bound to a room and is
    the connection of one of its players: that player stays in the room,
    with [connected] false, and is named in the result. *)
Lemma leaveRoom_player m (s rc : string) (now : Z) room (i : string) (p : Player) :
  playerToRoom m !! s = Some rc → rc ≠ "" →
  getRoom rc m = Some room → hostSocketId room ≠ s →
  JsMap.find (λ q, String.eqb (socketId q) s) (players room) = Some (i, p) →
  i ≠ "" →
  ∃ room',
    leaveRoom s now m
    = (Some (mkLeave rc i None),
       mk (JsMap.set rc room' (rooms m)) (delete s (playerToRoom m)))
    ∧ JsMap.get i (players room') = Some (set_connected false p)
    ∧ (∀ j, j ≠ i → JsMap.get j (players room') = JsMap.get j (players room))
    ∧ JsMap.keys (players room') = JsMap.keys (players room)
    ∧ hostDisconnectedAt room' = hostDisconnectedAt room
    ∧ hostSocketId room' = hostSocketId room.
Proof.
  intros Hb Hrc Hget Hhost Hf Hi. unfold leaveRoom, getRoom in *. rewrite Hb.
  assert (Js.falsy rc = false) as -> by (by apply String.eqb_neq).
  rewrite Hget, Hf. simpl.
  assert (String.eqb (hostSocketId room) s = false) as -> by (by apply String.eqb_neq).
  assert (Js.falsy i = false) as -> by (by apply String.eqb_neq).
  eexists. split; [reflexivity|]. simpl.
  split; [apply JsMapFacts.get_set_eq|].
  split; [intros j Hj; by apply JsMapFacts.get_set_ne|].
  split; [|done].
  apply JsMapFacts.keys_set_present.
  apply JsMapFacts.find_Some in Hf as [Hin _]. by eapply JsMapFacts.elem_keys.
Qed.

(** C1 (the code departs from the claim).  [createRoom] registers the room
    with the creating connection as its host and leaves [playerToRoom] as it
    is, and [leaveRoom] looks its argument up in [playerToRoom] first.  So
    for a connection that has no binding of its own and creates a room,
    [leaveRoom] called with that connection, the host of the new room,
    returns [null] and changes nothing: [hostDisconnectedAt] stays unset and
    no host-left result is reported. *)
Theorem leaveRoom_of_room_creator_is_null
    (fuel : nat) (rng : Js.Rng) (pos : nat) (host : string) (t0 now : Z)
    m (c : string) (pos' : nat) (m1 : RoomManager.t) :
  playerToRoom m !! host = None →
  createRoom fuel rng pos host t0 m = Some (c, pos', m1) →
  (∃ room, getRoom c m1 = Some room
           ∧ hostSocketId room = host ∧ hostDisconnectedAt room = None)
  ∧ leaveRoom host now m1 = (None, m1)
  ∧ (∃ room, getRoom c (leaveRoom host now m1).2 = Some room
             ∧ hostDisconnectedAt room = None).
Proof.
  intros Hb (_ & _ & ->)%createRoom_Some.
  assert (leaveRoom host now
            (mk (JsMap.set c (mkRoom c host JsMap.empty waiting t0 None (Some JsMap.empty))
                   (rooms m)) (playerToRoom m))
          = (None, mk (JsMap.set c (mkRoom c host JsMap.empty waiting t0 None (Some JsMap.empty))
                         (rooms m)) (playerToRoom m))) as Hleave
    by (by apply leaveRoom_unbound).
  split; [|split; [done|rewrite Hleave]];
    (eexists; split; [apply JsMapFacts.get_set_eq | done]).
Qed.

Lemma leaveRoom_of_room_creator_is_null_witness :
  (∃ room, getRoom "AAAA" Scenario.created = Some room
           ∧ hostSocketId room = "h0" ∧ hostDisconnectedAt room = None)
  ∧ leaveRoom "h0" 5000 Scenario.created = (None, Scenario.created)
  ∧ (∃ room, getRoom "AAAA" (leaveRoom "h0" 5000 Scenario.created).2 = Some room
             ∧ hostDisconnectedAt room = None).
Proof.
  apply (leaveRoom_of_room_creator_is_null
           1 Scenario.rng0 0 "h0" 0 5000 init "AAAA" 4 Scenario.created);
    reflexivity.
Defined.

(** *** The hourly sweep *)

Lemma release_players_lookup (ps : list Player) (p2r : gmap string string) (s : string) :
  foldl (λ acc p, delete (socketId p) acc) p2r ps !! s
  = if decide (s ∈ socketId <$> ps) then None else p2r !! s.
Proof.
  revert p2r. induction ps as [|p ps IH]; intros p2r; [done|].
  rewrite fmap_cons. cbn [foldl].
  - rewrite IH. destruct (decide (s ∈ socketId <$> ps)) as [Hin|Hout].
    + rewrite decide_True; [done | by right].
    + destruct (decide (s = socketId p)) as [->|Hne].
      * rewrite decide_True by left. apply lookup_delete_eq.
      * rewrite decide_False by (rewrite not_elem_of_cons; done).
        by apply lookup_delete_ne.
Qed.

(** The sweep only deletes: an absent room stays absent, a released
    connection stays released. *)
Lemma cleanup_entries_absent (l : JsMap.t Room) (now : Z) m (c : string) :
  getRoom c m = None → getRoom c (foldl (cleanup_entry now) m l) = None.
Proof.
  revert m. induction l as [|e l IH]; intros m H; simpl; [done|].
  apply IH. unfold cleanup_entry. destruct (expired now e.2); [|done].
  unfold getRoom in *. simpl. destruct (decide (e.1 = c)) as [->|Hne].
  - apply JsMapFacts.get_delete_eq.
  - by rewrite JsMapFacts.get_delete_ne.
Qed.

Lemma cleanup_entries_released (l : JsMap.t Room) (now : Z) m (s : string) :
  playerToRoom m !! s = None →
  playerToRoom (foldl (cleanup_entry now) m l) !! s = None.
Proof.
  revert m. induction l as [|e l IH]; intros m H; simpl; [done|].
  apply IH. unfold cleanup_entry. destruct (expired now e.2); [|done]. simpl.
  unfold release_players. rewrite release_players_lookup. by case_decide.
Qed.

(** A room that is not expired is kept. *)
Lemma cleanup_entries_keep (l : JsMap.t Room) (now : Z) m (c : string) room :
  (∀ e, e ∈ l → e.1 = c → expired now e.2 = false) →
  getRoom c m = Some room →
  getRoom c (foldl (cleanup_entry now) m l) = Some room.
Proof.
  revert m. induction l as [|e l IH]; intros m Hl H; simpl; [done|].
  apply IH; [intros e' He'; apply Hl; by right|].
  unfold cleanup_entry. destruct (expired now e.2) eqn:E; [|done].
  unfold getRoom in *. simpl. rewrite JsMapFacts.get_delete_ne; [done|].
  intros Heq. rewrite (Hl e) in E; [done | left | done].
Qed.

(** A binding is kept when no expired room has a player on that connection. *)
Lemma cleanup_entries_keep_binding (l : JsMap.t Room) (now : Z) m (s rc : string) :
  (∀ e, e ∈ l → expired now e.2 = true →
        s ∉ socketId <$> JsMap.values (players e.2)) →
  playerToRoom m !! s = Some rc →
  playerToRoom (foldl (cleanup_entry now) m l) !! s = Some rc.
Proof.
  revert m. induction l as [|e l IH]; intros m Hl H; simpl; [done|].
  apply IH; [intros e' He'; apply Hl; by right|].
  unfold cleanup_entry. destruct (expired now e.2) eqn:E; [|done]. simpl.
  unfold release_players. rewrite release_players_lookup.
  rewrite decide_False; [done|]. apply Hl; [left | done].
Qed.

(** The sweep as designed: a registered room that is expired, by age or
    because its [hostDisconnectedAt] is more than 30 seconds old, is deleted
    and the connections of its players are released. *)
Lemma cleanupOldRooms_expired m (now : Z) (c : string) room :
  getRoom c m = Some room → expired now room = true →
  getRoom c (cleanupOldRooms now m) = None
  ∧ ∀ p, p ∈ JsMap.values (players room) →
         playerToRoom (cleanupOldRooms now m) !! socketId p = None.
Proof.
  intros Hget Hexp. unfold cleanupOldRooms.
  pose proof (JsMapFacts.get_Some_elem _ _ _ Hget) as Hin.
  apply list_elem_of_split in Hin as (l1 & l2 & Hl). rewrite Hl.
  rewrite !foldl_app. simpl.
  set (m1 := foldl (cleanup_entry now) m l1).
  assert (getRoom c (cleanup_entry now m1 (c, room)) = None
          ∧ ∀ p, p ∈ JsMap.values (players room) →
                 playerToRoom (cleanup_entry now m1 (c, room)) !! socketId p = None)
    as [H1 H2].
  { unfold cleanup_entry. simpl. rewrite Hexp. unfold getRoom. simpl. split.
    - apply JsMapFacts.get_delete_eq.
    - intros p Hp. unfold release_players. rewrite release_players_lookup.
      rewrite decide_True; [done|]. apply list_elem_of_fmap. by exists p. }
  split; [by apply cleanup_entries_absent|].
  intros p Hp. by apply cleanup_entries_released, H2.
Qed.

Lemma cleanupOldRooms_keep m (now : Z) (c : string) room :
  NoDup (JsMap.keys (rooms m)) →
  getRoom c m = Some room → expired now room = false →
  getRoom c (cleanupOldRooms now m) = Some room.
Proof.
  intros Hnd Hget Hexp. apply cleanup_entries_keep; [|done].
  intros [k r] Hin Hk. simpl in *. subst k.
  apply (JsMapFacts.elem_get _ _ _ Hnd) in Hin. unfold getRoom in Hget.
  by replace r with room by congruence.
Qed.

(** C2 (the code departs from the claim).  A connection without a binding
    in [playerToRoom], as the creator of a room is, hosts a registered room.
    It disconnects: [leaveRoom] returns [null] and records nothing.  A sweep
    at any later time within two hours of the creation of the room, so also
    one more than 30 seconds after the disconnection, keeps the room, and
    keeps the binding of each of its players that no expired room shares. *)
Theorem unrecorded_host_disconnect_survives_sweep
    m (host c : string) room (t sweep : Z) :
  NoDup (JsMap.keys (rooms m)) →
  playerToRoom m !! host = None →
  getRoom c m = Some room →
  hostSocketId room = host →
  hostDisconnectedAt room = None →
  sweep - 2 * 60 * 60 * 1000 ≤ createdAt room →
  (leaveRoom host t m).1 = None
  ∧ getRoom c (cleanupOldRooms sweep (leaveRoom host t m).2) = Some room
  ∧ ∀ p, p ∈ JsMap.values (players room) →
         playerToRoom m !! socketId p = Some c →
         (∀ k r, (k, r) ∈ rooms m → expired sweep r = true →
                 socketId p ∉ socketId <$> JsMap.values (players r)) →
         playerToRoom (cleanupOldRooms sweep (leaveRoom host t m).2) !! socketId p
         = Some c.
Proof.
  intros Hnd Hb Hget Hhost Hdis Hage. rewrite leaveRoom_unbound by done. simpl.
  split; [done|]. split.
  - apply cleanupOldRooms_keep; [done..|]. unfold expired. rewrite Hdis.
    destruct (createdAt room <? _) eqn:E; [|done]. apply Z.ltb_lt in E. lia.
  - intros p Hp Hbind Hothers. apply cleanup_entries_keep_binding; [|done].
    intros [k r] Hin Hexp. by apply (Hothers k r).
Qed.

Lemma unrecorded_host_disconnect_survives_sweep_witness :
  (leaveRoom "h0" 1000 Scenario.joined).1 = None
  ∧ (∃ room,
       getRoom "AAAA" (cleanupOldRooms 40000 (leaveRoom "h0" 1000 Scenario.joined).2)
       = Some room
       ∧ hostSocketId room = "h0" ∧ hostDisconnectedAt room = None)
  ∧ playerToRoom (cleanupOldRooms 40000 (leaveRoom "h0" 1000 Scenario.joined).2) !! "s1"
    = Some "AAAA".
Proof.
  destruct (unrecorded_host_disconnect_survives_sweep
              Scenario.joined "h0" "AAAA"
              (mkRoom "AAAA" "h0" [("player_1", Scenario.alice)] waiting 0 None
                      (Some JsMap.empty))
              1000 40000) as (H1 & H2 & H3).
  - vm_compute. apply NoDup_singleton.
  - reflexivity.
  - reflexivity.
  - reflexivity.
  - reflexivity.
  - simpl. lia.
  - split; [exact H1|]. split; [eexists; split; [exact H2 | done]|].
    apply (H3 Scenario.alice).
    + vm_compute. left.
    + reflexivity.
    + intros k r Hin Hexp. vm_compute in Hin.
      apply list_elem_of_singleton in Hin. injection Hin as -> ->. discriminate Hexp.
Defined.

(** *** The sweep that tells the players that the host is away *)

Lemma notify_due_window (now : Z) room :
  notify_due now room = true
  ↔ ∃ d, hostDisconnectedAt room = Some d ∧ now - 30000 < d ∧ d < now - 5000.
Proof.
  unfold notify_due. destruct (hostDisconnectedAt room) as [d|].
  - rewrite andb_true_iff, Z.ltb_lt, Z.gtb_gt. split.
    + intros [? ?]. exists d. split; [done | lia].
    + intros (d' & [= <-] & ? & ?). lia.
  - split; [done | by intros (? & ? & _)].
Qed.

Lemma elem_of_getRoomsToNotify (now : Z) m (c : string) :
  c ∈ getRoomsToNotifyHostDisconnect now m
  ↔ ∃ room, (c, room) ∈ rooms m ∧ notify_due now room = true.
Proof.
  unfold getRoomsToNotifyHostDisconnect. rewrite list_elem_of_fmap. split.
  - intros ([k r] & -> & [Hd Hin]%list_elem_of_filter). by exists r.
  - intros (r & Hin & Hd). exists (c, r). split; [done|].
    by apply list_elem_of_filter.
Qed.

Lemma NoDup_getRoomsToNotify (now : Z) m :
  NoDup (JsMap.keys (rooms m)) → NoDup (getRoomsToNotifyHostDisconnect now m).
Proof.
  unfold getRoomsToNotifyHostDisconnect, JsMap.keys.
  induction (rooms m) as [|[k r] l IH]; simpl; [done|].
  rewrite NoDup_cons. intros [Hk Hnd]. rewrite filter_cons. case_decide; simpl.
  - apply NoDup_cons. split; [|by apply IH].
    intros ([k' r'] & Heq & [_ Hin]%list_elem_of_filter)%list_elem_of_fmap.
    simpl in Heq. subst k'. apply Hk. apply list_elem_of_fmap. by exists (k, r').
  - by apply IH.
Qed.

Import Server.

Lemma notifications_app (c : string) (l1 l2 : list Emit) :
  notifications c (l1 ++ l2) = (notifications c l1 + notifications c l2)%nat.
Proof. unfold notifications. by rewrite filter_app, length_app. Qed.

(** One call of the interval sends one event to each room it is given. *)
Lemma notifications_one_sweep (c : string) (codes : list string) :
  NoDup codes →
  notifications c ((λ k, ToRoom k "hostDisconnected") <$> codes)
  = if decide (c ∈ codes) then 1%nat else 0%nat.
Proof.
  unfold notifications. induction codes as [|k l IH]; intros Hnd; [done|].
  apply NoDup_cons in Hnd as [Hk Hnd]. rewrite fmap_cons, filter_cons.
  destruct (decide (k = c)) as [->|Hne].
  - rewrite decide_True by done. simpl. rewrite IH by done.
    rewrite decide_False by done. rewrite decide_True by left. done.
  - rewrite decide_False by congruence. rewrite IH by done.
    destruct (decide (c ∈ l)) as [Hin|Hout].
    + rewrite decide_True; [done | by right].
    + rewrite decide_False; [done|]. rewrite not_elem_of_cons. split; congruence.
Qed.

Lemma filter_none {A} (P : A → Prop) `{!∀ x, Decision (P x)} (l : list A) :
  (∀ x, ¬ P x) → filter P l = [].
Proof.
  intros Hno. induction l as [|x l IH]; [done|]. by rewrite filter_cons_False.
Qed.

Lemma notifications_sweeps (c : string) m (times : list Z) :
  NoDup (JsMap.keys (rooms m)) →
  notifications c (concat ((λ now, notifyHostDisconnect now m) <$> times))
  = length (filter (λ now, c ∈ getRoomsToNotifyHostDisconnect now m) times).
Proof.
  intros Hnd. induction times as [|now times IH]; [done|].
  rewrite fmap_cons. simpl. rewrite notifications_app, IH.
  unfold notifyHostDisconnect at 1.
  rewrite notifications_one_sweep by (by apply NoDup_getRoomsToNotify).
  rewrite filter_cons. by case_decide.
Qed.

(** C8 (as amended).  One call of the 2-second interval surfaces exactly
    the registered rooms whose [hostDisconnectedAt] is more than 5 and less
    than 30 seconds old; it computes a list and leaves the registry alone.
    The interval sends [hostDisconnected] to such a room at every call that
    falls in that window, so once per call and not once per episode; it
    sends nothing to a room whose [hostDisconnectedAt] is unset, and once
    [reconnectHost] has run for a room no call surfaces it. *)
Theorem hostDisconnected_sent_at_every_sweep_in_window m :
  NoDup (JsMap.keys (rooms m)) →
  (∀ (now : Z) (c : string),
     c ∈ getRoomsToNotifyHostDisconnect now m
     ↔ ∃ room d, getRoom c m = Some room ∧ hostDisconnectedAt room = Some d
                 ∧ now - 30000 < d ∧ d < now - 5000)
  ∧ (∀ (t0 : Z) (n : nat) (c : string) room (d : Z),
       getRoom c m = Some room → hostDisconnectedAt room = Some d →
       notifications c (notifier_log t0 n m)
       = length (filter (λ now, d + 5000 < now ∧ now < d + 30000)
                        (firing_times t0 2000 n)))
  ∧ (∀ (t0 : Z) (n : nat) (c : string) room,
       getRoom c m = Some room → hostDisconnectedAt room = None →
       notifications c (notifier_log t0 n m) = 0%nat)
  ∧ (∀ (c s : string) (now : Z),
       c ∉ getRoomsToNotifyHostDisconnect now (reconnectHost c s m).2).
Proof.
  intros Hnd.
  assert (∀ (now : Z) (c : string),
            c ∈ getRoomsToNotifyHostDisconnect now m
            ↔ ∃ room d, getRoom c m = Some room ∧ hostDisconnectedAt room = Some d
                        ∧ now - 30000 < d ∧ d < now - 5000) as Hsurf.
  { intros now c. rewrite elem_of_getRoomsToNotify. split.
    - intros (room & Hin & (d & ? & ? & ?)%notify_due_window).
      exists room, d. split; [by apply JsMapFacts.elem_get|done].
    - intros (room & d & Hget & ? & ? & ?). exists room.
      split; [by apply JsMapFacts.get_Some_elem|].
      apply notify_due_window. by exists d. }
  split; [done|]. split; [|split].
  - intros t0 n c room d Hget Hd. unfold notifier_log.
    rewrite notifications_sweeps by done. f_equal.
    apply list_filter_iff. intros now. rewrite Hsurf. split.
    + intros (room' & d' & Hget' & Hd' & ? & ?).
      assert (d' = d) as -> by congruence. lia.
    + intros [? ?]. exists room, d. split; [done|]. split; [done | lia].
  - intros t0 n c room Hget Hd. unfold notifier_log.
    rewrite notifications_sweeps by done.
    rewrite filter_none; [done|].
    intros now (room' & d' & Hget' & Hd' & _)%Hsurf. congruence.
  - intros c s now. rewrite elem_of_getRoomsToNotify.
    intros (room & Hin & (d & Hd & _)%notify_due_window).
    unfold reconnectHost in Hin.
    destruct (JsMap.get c (rooms m)) as [r0|] eqn:E; simpl in Hin.
    + apply JsMapFacts.elem_get in Hin; [|by apply JsMapFacts.NoDup_keys_set].
      rewrite JsMapFacts.get_set_eq in Hin. injection Hin as <-. done.
    + apply JsMapFacts.elem_keys in Hin. by apply JsMapFacts.get_None_keys in E.
Qed.

Lemma host_away_keys : NoDup (JsMap.keys (rooms Scenario.host_away)).
Proof. vm_compute. apply NoDup_singleton. Qed.

Lemma hostDisconnected_sent_at_every_sweep_in_window_witness :
  NoDup (JsMap.keys (rooms Scenario.host_away))
  ∧ ("AAAA" ∈ getRoomsToNotifyHostDisconnect 6000 Scenario.host_away
     ↔ ∃ room d, getRoom "AAAA" Scenario.host_away = Some room
                 ∧ hostDisconnectedAt room = Some d
                 ∧ 6000 - 30000 < d ∧ d < 6000 - 5000)
  ∧ "AAAA" ∉ getRoomsToNotifyHostDisconnect 6000
               (reconnectHost "AAAA" "h1" Scenario.host_away).2.
Proof.
  destruct (hostDisconnected_sent_at_every_sweep_in_window
              Scenario.host_away host_away_keys) as (H1 & _ & _ & H4).
  split; [exact host_away_keys|]. split; [apply H1 | apply H4].
Defined.

(** C8 (the claim as stated fails).  The host of the room [AAAA] left at
    time [0] and stays away.  The first fifteen calls of the interval, at
    2, 4, ..., 30 seconds, send [hostDisconnected] to the room twelve times,
    once at each of the calls from 6 to 28 seconds: the players are notified
    repeatedly, not once. *)
Lemma host_away_notified_twelve_times :
  notifications "AAAA" (notifier_log 0 15 Scenario.host_away) = 12%nat
  ∧ ¬ notified_at_most_once Scenario.host_away "AAAA".
Proof.
  assert (notifications "AAAA" (notifier_log 0 15 Scenario.host_away) = 12%nat)
    as Hcount by (vm_compute; reflexivity).
  split; [exact Hcount|]. intros Hclaim.
  specialize (Hclaim 0 15%nat). rewrite Hcount in Hclaim. lia.
Qed.

End RoomManagerProps.

(** ** Properties of the voice-command matcher *)

Module CommandExtractorProps.
Import CommandExtractor.

(** *** The phrase table *)

(** Every phrase of the table is not empty and already in lower case, and
    no trigger word has more than 14 characters. *)
Lemma PHRASE_MAP_entries :
  Forall (λ e : string * string,
            Js.falsy e.2 = false ∧ Js.toLowerCase e.2 = e.2
            ∧ (String.length e.1 ≤ 14)%nat)
         PHRASE_MAP.
Proof.
  assert (forallb (λ e : string * string,
                     negb (Js.falsy e.2) && String.eqb (Js.toLowerCase e.2) e.2
                     && (String.length e.1 <=? 14)%nat)
                  PHRASE_MAP = true) as H by (vm_compute; reflexivity).
  rewrite forallb_forall in H. apply Forall_forall. intros e He.
  apply list_elem_of_In, H in He.
  apply andb_true_iff in He as [[H1 H2]%andb_true_iff H3].
  apply negb_true_iff in H1. apply String.eqb_eq in H2. apply Nat.leb_le in H3.
  done.
Qed.

Lemma PHRASE_MAP_get_Own (key phrase : string) :
  PHRASE_MAP_get key = Own phrase →
  Js.falsy phrase = false ∧ Js.toLowerCase phrase = phrase
  ∧ (String.length key ≤ 14)%nat.
Proof.
  unfold PHRASE_MAP_get. destruct (JsMap.get key PHRASE_MAP) as [p|] eqn:E.
  - intros [= ->]. apply JsMapFacts.get_Some_elem in E.
    pose proof PHRASE_MAP_entries as H. rewrite Forall_forall in H.
    apply (H _ E).
  - by destruct (existsb _ _).
Qed.

(** *** Strings and lists *)

Lemma startsWith_length (s p : string) :
  Js.startsWith s p = true → (String.length p ≤ String.length s)%nat.
Proof.
  revert s. induction p as [|a p IH]; intros [|b s]; simpl; try done; try lia.
  intros [_ H]%andb_true_iff. apply IH in H. lia.
Qed.

Lemma slice_last2_rev {A} (l : list A) :
  (2 ≤ length l)%nat →
  ∃ y z rest, Js.slice_last2 l = [y; z] ∧ rev l = z :: y :: rest.
Proof.
  intros Hlen. unfold Js.slice_last2.
  pose proof (take_drop (length l - 2) l) as Hsplit.
  assert (length (drop (length l - 2) l) = 2%nat) as Hd
    by (rewrite length_drop; lia).
  destruct (drop (length l - 2) l) as [|y [|z [|? ?]]]; try done.
  exists y, z, (rev (take (length l - 2) l)). split; [done|].
  rewrite <- Hsplit at 1. by rewrite rev_app_distr.
Qed.

Lemma last_two_words_slice (phrase : string) :
  (3 ≤ length (Js.split_space phrase))%nat →
  Js.join_space (Js.slice_last2 (Js.split_space phrase)) = last_two_words phrase.
Proof.
  intros Hlen. unfold last_two_words.
  destruct (slice_last2_rev (Js.split_space phrase)) as (y & z & rest & -> & ->);
    [lia | done].
Qed.

Lemma first_two_words_slice (phrase : string) :
  (3 ≤ length (Js.split_space phrase))%nat →
  Js.join_space (Js.slice_first2 (Js.split_space phrase)) = first_two_words phrase.
Proof.
  unfold first_two_words, Js.slice_first2.
  destruct (Js.split_space phrase) as [|x [|y ws]]; simpl; [lia | lia | done].
Qed.

(** *** "At least 60%" in binary64 *)

(** For a transcript no longer than a trigger word of the table, the
    comparison of floats in the source decides [60 * |word| <= 100 * |transcript|]. *)
Lemma covers_60_percent (lw lt : nat) :
  (lw ≤ 14)%nat → (lt ≤ lw)%nat →
  Num.geb (Num.of_nat lt) (Num.of_nat lw * 0.6)%float = (60 * lw <=? 100 * lt)%nat.
Proof.
  intros Hw Ht.
  assert (forallb (λ w, forallb (λ t, Bool.eqb
                                        (Num.geb (Num.of_nat t) (Num.of_nat w * 0.6)%float)
                                        (60 * w <=? 100 * t)%nat)
                                (seq 0 (S w)))
                  (seq 0 15) = true) as H by (vm_compute; reflexivity).
  rewrite forallb_forall in H.
  assert (In lw (seq 0 15)) as Hlw by (apply in_seq; lia).
  specialize (H lw Hlw). rewrite forallb_forall in H.
  assert (In lt (seq 0 (S lw))) as Hlt by (apply in_seq; lia).
  specialize (H lt Hlt). by apply Bool.eqb_prop in H.
Qed.

(** *** One turn of the loop against the tiers of the specification *)


Lemma match_trigger_tier (transcript text word : string) (confidence : float) :
  (String.length word ≤ 14)%nat →
  match_trigger transcript text word confidence
  = turn_of (trigger_tier transcript word) word text confidence.
Proof.
  intros Hw. unfold match_trigger, trigger_tier.
  destruct (String.eqb transcript word || Js.includes transcript word); [done|].
  destruct ((3 <=? String.length word)%nat && (2 <=? String.length transcript)%nat);
    cbn [andb]; [|done].
  destruct (Js.startsWith word transcript) eqn:Hp; cbn [andb]; [|done].
  rewrite covers_60_percent by (by try apply startsWith_length).
  by destruct (60 * _ <=? _)%nat.
Qed.

Lemma match_word_tier (transcript text word phrase : string) (confidence : float) :
  PHRASE_MAP_get (Js.toLowerCase word) = Own phrase →
  match_word transcript text confidence word
  = turn_of (spec_tier transcript (Js.toLowerCase word) phrase)
            (Js.toLowerCase word) text confidence.
Proof.
  intros Hget. destruct (PHRASE_MAP_get_Own _ _ Hget) as (Hne & Hlow & Hlen).
  unfold match_word. rewrite Hget, Hne, Hlow. cbv zeta. unfold spec_tier.
  destruct (String.eqb transcript phrase || Js.includes transcript phrase); [done|].
  destruct (3 <=? length (Js.split_space phrase))%nat eqn:H3; cbn [andb orb].
  - apply Nat.leb_le in H3.
    rewrite last_two_words_slice, first_two_words_slice by done.
    destruct (Js.includes transcript (last_two_words phrase)); [done|]. cbn [andb orb].
    destruct (Js.includes transcript (first_two_words phrase)
              && Js.includes transcript (Js.toLowerCase word)); [done|].
    by rewrite match_trigger_tier.
  - by rewrite match_trigger_tier.
Qed.

(** *** The matcher on one word and on several *)

(** [extract] takes the words in the order of the list: the first word with
    a match at any tier gives the result, and only when a word has none is
    the next one looked at. *)
Lemma extract_cons (text : string) (confidence : float) (word : string)
      (words : list string) :
  extract text confidence (Some (word :: words))
  = match match_word (normalize text) text confidence word with
    | Hit c => Returns (Some c)
    | TypeError => Throws
    | Next => extract text confidence (Some words)
    end.
Proof.
  unfold extract. simpl.
  by destruct (match_word (normalize text) text confidence word).
Qed.

(** C3.  For a trigger word that the table maps to a phrase, [extract] on
    that one word returns the command of the first tier, in the order
    full phrase (2.0), partial phrase (1.5), trigger word (1.0), fuzzy
    prefix (0.8, confidence times 0.9), that the normalised (lower-cased,
    trimmed) transcript meets, and goes on to the fixed vocabulary, without
    any dynamic-word match, when it meets none.  For the word [wifi]:
    [pandas hack wifi] scores 2.0, [hack wifi] 1.5, [wifi] 1.0, [wif] 0.8,
    and [gravity] matches nothing. *)
Theorem extract_returns_first_tier
    (text word phrase : string) (confidence : float) :
  PHRASE_MAP_get (Js.toLowerCase word) = Own phrase →
  extract text confidence (Some [word])
  = match spec_tier (normalize text) (Js.toLowerCase word) phrase with
    | Some t => Returns (Some (spec_command t (Js.toLowerCase word) text confidence))
    | None => extract text confidence None
    end
  ∧ PHRASE_MAP_get "wifi" = Own "pandas hack wifi"
  ∧ extract "pandas hack wifi" confidence (Some ["wifi"])
    = Returns (Some (mkCommand game_specific "wifi" confidence "pandas hack wifi"
                               (Some 2.0%float)))
  ∧ extract "hack wifi" confidence (Some ["wifi"])
    = Returns (Some (mkCommand game_specific "wifi" confidence "hack wifi"
                               (Some 1.5%float)))
  ∧ extract "wifi" confidence (Some ["wifi"])
    = Returns (Some (mkCommand game_specific "wifi" confidence "wifi"
                               (Some 1.0%float)))
  ∧ extract "wif" confidence (Some ["wifi"])
    = Returns (Some (mkCommand game_specific "wifi" (confidence * 0.9)%float "wif"
                               (Some 0.8%float)))
  ∧ match_word (normalize "gravity") "gravity" confidence "wifi" = Next
  ∧ extract "gravity" confidence (Some ["wifi"]) = Returns None.
Proof.
  intros Hget. split; [|by repeat split].
  rewrite extract_cons, (match_word_tier _ _ _ phrase) by done.
  by destruct (spec_tier _ _ _).
Qed.

Lemma extract_returns_first_tier_witness :
  PHRASE_MAP_get (Js.toLowerCase "WiFi") = Own "pandas hack wifi"
  ∧ spec_tier (normalize " Wif ") (Js.toLowerCase "WiFi") "pandas hack wifi"
    = Some FuzzyPrefix
  ∧ extract " Wif " 1%float (Some ["WiFi"])
    = Returns (Some (mkCommand game_specific "wifi" (1 * 0.9)%float " Wif "
                               (Some 0.8%float))).
Proof.
  split; [reflexivity|]. split; [reflexivity|].
  destruct (extract_returns_first_tier " Wif " "WiFi" "pandas hack wifi" 1%float)
    as [H _]; [reflexivity|].
  exact H.
Defined.

(** C3, on the transcript that is lower-cased only.  [extract] trims the
    transcript as well: for the transcript [wif ] with a space at its end,
    whose lower-cased form meets no tier of the word [wifi], it returns the
    fuzzy prefix match, score 0.8 with the confidence times 0.9, where
    reading the tiers on the lower-cased transcript gives no dynamic-word
    match. *)
Lemma extract_trims_the_transcript :
  PHRASE_MAP_get (Js.toLowerCase "wifi") = Own "pandas hack wifi"
  ∧ spec_tier (Js.toLowerCase "wif ") (Js.toLowerCase "wifi") "pandas hack wifi" = None
  ∧ extract "wif " 1%float None = Returns None
  ∧ extract "wif " 1%float (Some ["wifi"])
    = Returns (Some (mkCommand game_specific "wifi" (1 * 0.9)%float "wif "
                               (Some 0.8%float)))
  ∧ ¬ first_tier_of_lower_cased "wif " "wifi" "pandas hack wifi" 1%float.
Proof.
  split; [reflexivity|]. split; [reflexivity|]. split; [reflexivity|].
  split; [reflexivity|].
  unfold first_tier_of_lower_cased. intros H. vm_compute in H. discriminate H.
Qed.

(** C10.  With several dynamic words [extract] tries all four tiers of a
    word before it looks at the next word of the list, so the result is
    that of the first word with any match.  For the transcript
    [pandas hack wifi gravity] and the words [gravity], [wifi] it is the
    trigger-word match of [gravity], score 1.0, although [wifi], alone or
    first in the list, has a full-phrase match, score 2.0. *)
Theorem extract_prefers_earlier_word_over_higher_tier :
  (∀ (text : string) (confidence : float) (word : string) (words : list string),
     extract text confidence (Some (word :: words))
     = match match_word (normalize text) text confidence word with
       | Hit c => Returns (Some c)
       | TypeError => Throws
       | Next => extract text confidence (Some words)
       end)
  ∧ (∀ (transcript text word phrase : string) (confidence : float),
       PHRASE_MAP_get (Js.toLowerCase word) = Own phrase →
       match_word transcript text confidence word
       = match spec_tier transcript (Js.toLowerCase word) phrase with
         | Some t => Hit (spec_command t (Js.toLowerCase word) text confidence)
         | None => Next
         end)
  ∧ (∀ confidence : float,
       extract "pandas hack wifi gravity" confidence (Some ["gravity"; "wifi"])
       = Returns (Some (mkCommand game_specific "gravity" confidence
                                  "pandas hack wifi gravity" (Some 1.0%float)))
       ∧ extract "pandas hack wifi gravity" confidence (Some ["wifi"; "gravity"])
         = Returns (Some (mkCommand game_specific "wifi" confidence
                                    "pandas hack wifi gravity" (Some 2.0%float)))
       ∧ extract "pandas hack wifi gravity" confidence (Some ["wifi"])
         = Returns (Some (mkCommand game_specific "wifi" confidence
                                    "pandas hack wifi gravity" (Some 2.0%float)))).
Proof.
  split; [apply extract_cons|]. split; [|by repeat split].
  intros transcript text word phrase confidence Hget.
  by rewrite (match_word_tier _ _ _ phrase).
Qed.

End CommandExtractorProps.

(** ** Properties of the game engine *)

Module GameManagerProps.
Import Game GameManager.

Implicit Types (m : GameManager.t) (game : GameState).

(** *** The countdown *)

Lemma get_set_status_of (ref : nat) (s : GameStatus) m (k : string) :
  JsMap.get k (games (set_status_of ref s m))
  = (λ v : nat * GameState, if (v.1 =? ref)%nat then (ref, set_status s v.2) else v)
      <$> JsMap.get k (games m).
Proof.
  unfold set_status_of. simpl. induction (games m) as [|[k' [r g]] l IH]; [done|].
  rewrite fmap_cons. cbn [JsMap.get fst snd].
  destruct (r =? ref)%nat eqn:E; destruct (String.eqb k k'); simpl;
    rewrite ?E; done.
Qed.

Lemma getGame_store (roomCode : string) (ref : nat) game m :
  getGame roomCode (store roomCode ref game m) = Some game.
Proof. unfold getGame, store. simpl. by rewrite JsMapFacts.get_set_eq. Qed.

(** A call of the callback while the counter is positive: it emits the
    counter and nothing else happens. *)
Lemma countdown_callback_positive (cl : CountdownClosure) m :
  0 < cd_countdown cl →
  countdown_callback cl m
  = (Some (mkCountdown (cd_roomCode cl) (cd_game cl) (cd_countdown cl - 1)),
     emit (Countdown (cd_roomCode cl) (cd_countdown cl)) m).
Proof.
  intros H. unfold countdown_callback.
  destruct (cd_countdown cl - 1 <? 0) eqn:E; [|done]. apply Z.ltb_lt in E. lia.
Qed.

(** The call with the counter at [0]: it emits [0], clears the interval,
    makes the game [playing] and starts the tick loop, all in that call. *)
Lemma countdown_callback_zero (cl : CountdownClosure) m :
  cd_countdown cl = 0 →
  countdown_callback cl m
  = (None,
     startGameLoop (cd_roomCode cl)
       (set_status_of (cd_game cl) playing (emit (Countdown (cd_roomCode cl) 0) m))).
Proof. intros H. unfold countdown_callback. by rewrite H. Qed.

Lemma getGame_emit (roomCode : string) (e : Event) m :
  getGame roomCode (emit e m) = getGame roomCode m.
Proof. done. Qed.

Lemma gameLoops_emit (e : Event) m : gameLoops (emit e m) = gameLoops m.
Proof. done. Qed.

Lemma emitted_by_emit (e : Event) m :
  drop (length (emitted m)) (emitted (emit e m)) = [e].
Proof. unfold emit. simpl. by rewrite drop_app_length. Qed.

(** C4 (as amended).  [startGame] puts the game of the room into
    [countdown] and sets an interval of one second.  Its calls, at 1, 2, 3
    and 4 seconds after the start, emit the counts 3, 2, 1 and 0, one each.
    The game stays in [countdown] through the first three calls; the fourth
    call, the one that emits the count 0, clears the interval, makes the
    game [playing] and starts the tick loop before it returns.  There is no
    fifth call and no hold after the count 0. *)
Theorem countdown_ends_in_the_step_of_count_zero
    m (roomCode : string) (ref : nat) game (now : Z) (n : nat) :
  JsMap.get roomCode (games m) = Some (ref, game) →
  ∃ cl m1,
    startGame roomCode now m = (Ok cl, m1)
    ∧ status <$> getGame roomCode m1 = Some countdown
    ∧ countdown_steps roomCode now 1000 (4 + n) (Some cl) m1
      = [ mkStep (now + 1000) [Countdown roomCode 3] (Some countdown)
                 (JsMap.has roomCode (gameLoops m));
          mkStep (now + 2000) [Countdown roomCode 2] (Some countdown)
                 (JsMap.has roomCode (gameLoops m));
          mkStep (now + 3000) [Countdown roomCode 1] (Some countdown)
                 (JsMap.has roomCode (gameLoops m));
          mkStep (now + 4000) [Countdown roomCode 0] (Some playing) true ].
Proof.
  intros Hget. unfold startGame. rewrite Hget. eexists _, _.
  split; [reflexivity|].
  set (m1 := set_games _ m).
  assert (getGame roomCode m1 = Some (set_startTime now (set_status countdown game)))
    as Hg1 by apply getGame_store.
  split; [by rewrite Hg1|].
  cbn [countdown_steps Nat.add].
  rewrite countdown_callback_positive by (simpl; lia). cbn [cd_roomCode cd_game cd_countdown].
  rewrite countdown_callback_positive by (simpl; lia). cbn [cd_roomCode cd_game cd_countdown].
  rewrite countdown_callback_positive by (simpl; lia). cbn [cd_roomCode cd_game cd_countdown].
  rewrite countdown_callback_zero by (simpl; lia). cbn [cd_roomCode cd_game cd_countdown].
  rewrite !emitted_by_emit, !getGame_emit, !gameLoops_emit, Hg1.
  replace (3 - 1) with 2 by lia. replace (2 - 1) with 1 by lia.
  replace (now + 1000 + 1000) with (now + 2000) by lia.
  replace (now + 2000 + 1000) with (now + 3000) by lia.
  replace (now + 3000 + 1000) with (now + 4000) by lia.
  do 3 f_equal. f_equal; [f_equal|by destruct n].
  - unfold startGameLoop, set_status_of, set_games, emit. cbn [emitted].
    by rewrite drop_app_length.
  - unfold getGame, startGameLoop. cbn [games].
    rewrite get_set_status_of. cbn [emit games].
    unfold m1, set_games. cbn [games]. rewrite JsMapFacts.get_set_eq. simpl.
    by rewrite Nat.eqb_refl.
  - unfold JsMap.has, startGameLoop. cbn [gameLoops].
    by rewrite JsMapFacts.get_set_eq.
Qed.

Lemma countdown_ends_in_the_step_of_count_zero_witness :
  JsMap.get "AAAA" (games GameScenario.tug_created) = Some (0%nat, GameScenario.tug_game)
  ∧ countdown_steps "AAAA" 0 1000 4
      (GameScenario.countdown_of GameScenario.tug_started.1)
      GameScenario.tug_started.2
    = [ mkStep 1000 [Countdown "AAAA" 3] (Some countdown) false;
        mkStep 2000 [Countdown "AAAA" 2] (Some countdown) false;
        mkStep 3000 [Countdown "AAAA" 1] (Some countdown) false;
        mkStep 4000 [Countdown "AAAA" 0] (Some playing) true ].
Proof.
  split; [reflexivity|].
  destruct (countdown_ends_in_the_step_of_count_zero
              GameScenario.tug_created "AAAA" 0 GameScenario.tug_game 0 0)
    as (cl & m1 & Hs & _ & Hsteps); [reflexivity|].
  unfold GameScenario.tug_started. rewrite Hs. exact Hsteps.
Defined.

(** C4 (the claim as stated fails).  In the tug-of-war game of the room
    [AAAA] the fourth call of the countdown interval, 4 seconds after the
    start, emits the count 0 and the game is [playing], with its tick loop
    registered, when that call returns: the transition is in the timer step
    of the count 0, not one second later. *)
Lemma countdown_playing_in_step_of_zero :
  countdown_steps "AAAA" 0 1000 4
    (GameScenario.countdown_of GameScenario.tug_started.1)
    GameScenario.tug_started.2
  = [ mkStep 1000 [Countdown "AAAA" 3] (Some countdown) false;
      mkStep 2000 [Countdown "AAAA" 2] (Some countdown) false;
      mkStep 3000 [Countdown "AAAA" 1] (Some countdown) false;
      mkStep 4000 [Countdown "AAAA" 0] (Some playing) true ]
  ∧ ¬ playing_held_after_zero "AAAA"
        (countdown_steps "AAAA" 0 1000 4
           (GameScenario.countdown_of GameScenario.tug_started.1)
           GameScenario.tug_started.2).
Proof.
  assert (countdown_steps "AAAA" 0 1000 4
            (GameScenario.countdown_of GameScenario.tug_started.1)
            GameScenario.tug_started.2
          = [ mkStep 1000 [Countdown "AAAA" 3] (Some countdown) false;
              mkStep 2000 [Countdown "AAAA" 2] (Some countdown) false;
              mkStep 3000 [Countdown "AAAA" 1] (Some countdown) false;
              mkStep 4000 [Countdown "AAAA" 0] (Some playing) true ]) as Hsteps
    by (vm_compute; reflexivity).
  split; [exact Hsteps|]. rewrite Hsteps. intros Hclaim.
  apply (Hclaim (mkStep 4000 [Countdown "AAAA" 0] (Some playing) true)).
  - simpl. tauto.
  - simpl. tauto.
  - reflexivity.
Qed.

(** *** Actions in a race *)

Lemma processCommand_racer m (roomCode : string) (ref : nat) game (r : VoiceRacer)
      (action : GameAction) :
  JsMap.get roomCode (games m) = Some (ref, game) →
  status game = playing → variant game = Racer r →
  processCommand roomCode action m
  = store roomCode ref (set_variant (Racer (processVoiceRacerCommand r action)) game) m.
Proof. intros Hget Hst Hv. unfold processCommand. by rewrite Hget, Hst, Hv. Qed.

(** C7.  In a race that is [playing], an action of a player with an
    assigned word sets the speed of that player to
    [min (speed + boost, 0.15 * matchScore)], where [speed] is the current
    speed (a missing one counts as 0), [matchScore] is 1.0 when the action
    has none, and [boost] is [0.06 * matchScore] below the speed 0.015 and
    [0.04 * matchScore] from there on; the speeds of the other players stay.
    From speed 0 the score 1.0 gives the speed 0.06 and the score 2.0 gives
    0.12. *)
Theorem racer_action_sets_speed
    m (roomCode : string) (ref : nat) game (r : VoiceRacer) (action : GameAction)
    (word : string) :
  JsMap.get roomCode (games m) = Some (ref, game) →
  status game = playing →
  variant game = Racer r →
  JsMap.get (playerId action) (racerWords r) = Some word →
  word ≠ "" →
  let speed := Num.or_zero (JsMap.get (playerId action) (playerSpeeds r)) in
  let matchScore := default 1.0%float (Game.matchScore action) in
  let boost :=
    ((if PrimFloat.ltb speed 0.015 then 0.06 else 0.04) * matchScore)%float in
  speedAt roomCode (playerId action) (processCommand roomCode action m)
  = Some (Num.Math_min (speed + boost)%float (0.15 * matchScore)%float)
  ∧ (∀ other, other ≠ playerId action →
       speedAt roomCode other (processCommand roomCode action m)
       = speedAt roomCode other m)
  ∧ (speed = 0%float → Game.matchScore action = Some 1.0%float →
     speedAt roomCode (playerId action) (processCommand roomCode action m)
     = Some 0.06%float)
  ∧ (speed = 0%float → Game.matchScore action = Some 2.0%float →
     speedAt roomCode (playerId action) (processCommand roomCode action m)
     = Some 0.12%float).
Proof.
  intros Hget Hst Hv Hword Hne speed matchScore boost.
  assert (Js.falsy word = false) as Hfalsy by (by apply String.eqb_neq).
  rewrite (processCommand_racer _ _ ref game r) by done.
  unfold speedAt. rewrite getGame_store. cbn [variant set_variant].
  unfold processVoiceRacerCommand. rewrite Hword, Hfalsy. cbn [playerSpeeds].
  fold speed. fold matchScore. fold boost.
  split; [apply JsMapFacts.get_set_eq|]. split; [|split].
  - intros other Hother. rewrite JsMapFacts.get_set_ne by done.
    unfold getGame. rewrite Hget. simpl. by rewrite Hv.
  - intros Hs Hm. rewrite JsMapFacts.get_set_eq. unfold boost, matchScore.
    by rewrite Hs, Hm.
  - intros Hs Hm. rewrite JsMapFacts.get_set_eq. unfold boost, matchScore.
    by rewrite Hs, Hm.
Qed.

Lemma racer_action_sets_speed_witness :
  JsMap.get "AAAA" (games GameScenario.race_playing)
  = Some (0%nat, GameScenario.race_playing_game)
  ∧ speedAt "AAAA" "p1" GameScenario.race_playing = Some 0%float
  ∧ speedAt "AAAA" "p1"
            (processCommand "AAAA" GameScenario.ann_trigger_word GameScenario.race_playing)
    = Some 0.06%float.
Proof.
  split; [reflexivity|]. split; [reflexivity|].
  destruct (racer_action_sets_speed
              GameScenario.race_playing "AAAA" 0 GameScenario.race_playing_game
              GameScenario.race_playing_data GameScenario.ann_trigger_word "gravity")
    as (_ & _ & H & _).
  - reflexivity.
  - reflexivity.
  - reflexivity.
  - reflexivity.
  - discriminate.
  - apply H; reflexivity.
Defined.

(** *** Actions in a tug of war *)

Lemma includes_elem (team : list string) (playerId : string) :
  includes team playerId = true ↔ playerId ∈ team.
Proof.
  unfold includes. rewrite existsb_exists. split.
  - intros (x & Hin & ->%String.eqb_eq). by apply list_elem_of_In.
  - intros Hin. exists playerId. split; [by apply list_elem_of_In|].
    apply String.eqb_refl.
Qed.

(** The teams that [createTugOfWarGame] makes from players with distinct
    ids share no player: the first half is red, the second half is blue. *)
Lemma createTugOfWarGame_teams_disjoint
      (rng : Js.Rng) (pos : nat) (players : JsMap.t Types.Player) game (g : TugOfWar) :
  createTugOfWarGame rng pos players = Ok game →
  variant game = Tug g →
  NoDup (Types.id <$> JsMap.values players) →
  (red (teams g) ++ blue (teams g))%list = Types.id <$> JsMap.values players
  ∧ ∀ playerId, includes (red (teams g)) playerId = true →
                includes (blue (teams g)) playerId = false.
Proof.
  unfold createTugOfWarGame. destruct (negb _); [done|].
  intros [= <-] [= <-] Hnd. cbn [teams red blue].
  assert ((Types.id <$> take (length (JsMap.values players) / 2) (JsMap.values players))
          ++ (Types.id <$> drop (length (JsMap.values players) / 2) (JsMap.values players))
          = Types.id <$> JsMap.values players)%list as Hsplit
    by (by rewrite <- fmap_app, take_drop).
  split; [done|]. intros playerId Hred%includes_elem.
  destruct (includes _ playerId) eqn:Hblue; [|done].
  apply includes_elem in Hblue. rewrite <- Hsplit in Hnd.
  apply NoDup_app in Hnd as (_ & Hdisj & _). by destruct (Hdisj playerId).
Qed.

Lemma processCommand_tug m (roomCode : string) (ref : nat) game (g : TugOfWar)
      (action : GameAction) :
  JsMap.get roomCode (games m) = Some (ref, game) →
  status game = playing → variant game = Tug g →
  processCommand roomCode action m
  = store roomCode ref (set_variant (Tug (processTugOfWarCommand g action)) game) m.
Proof. intros Hget Hst Hv. unfold processCommand. by rewrite Hget, Hst, Hv. Qed.

Lemma ropeAt_store_tug (roomCode : string) (ref : nat) game (g : TugOfWar) m :
  ropeAt roomCode (store roomCode ref (set_variant (Tug g) game) m)
  = Some (ropePosition g).
Proof. unfold ropeAt. by rewrite getGame_store. Qed.


Lemma processTugOfWarCommand_blue (g : TugOfWar) (action : GameAction) :
  includes (red (teams g)) (playerId action) = false →
  includes (blue (teams g)) (playerId action) = true →
  processTugOfWarCommand g action
  = mkTug (teams g) (tugWords g)
          (blue_pull (default 1.0%float (Game.matchScore action)) (ropePosition g)).
Proof. intros Hr Hb. unfold processTugOfWarCommand. by rewrite Hr, Hb. Qed.

(** The game of the room after [n] actions of a blue player. *)
Lemma blue_pulls m (roomCode : string) (ref : nat) game (g : TugOfWar)
      (action : GameAction) (n : nat) :
  JsMap.get roomCode (games m) = Some (ref, game) →
  status game = playing → variant game = Tug g →
  includes (red (teams g)) (playerId action) = false →
  includes (blue (teams g)) (playerId action) = true →
  JsMap.get roomCode (games (Nat.iter n (processCommand roomCode action) m))
  = Some (ref,
          set_variant
            (Tug (mkTug (teams g) (tugWords g)
                        (Nat.iter n (blue_pull (default 1.0%float (Game.matchScore action)))
                                  (ropePosition g))))
            game).
Proof.
  intros Hget Hst Hv Hr Hb. induction n as [|n IH].
  - simpl. rewrite Hget. destruct game, g. simpl in *. by subst.
  - cbn [Nat.iter nat_rect]. fold (Nat.iter n (processCommand roomCode action) m).
    fold (Nat.iter n (blue_pull (default 1.0%float (Game.matchScore action)))
                   (ropePosition g)).
    erewrite processCommand_tug; [|exact IH|done|done].
    unfold store. cbn [games set_games]. rewrite JsMapFacts.get_set_eq.
    by rewrite processTugOfWarCommand_blue.
Qed.

(** Fourteen pulls of score 2.0 from the centre, in binary64. *)
Lemma blue_pull_table (n : nat) :
  (n ≤ 14)%nat →
  Nat.iter n (blue_pull 2.0%float) 0%float = Num.of_nat (6 * n)
  ∧ PrimFloat.leb (Num.of_nat (6 * n)) (-80)%float = false
  ∧ Num.geb (Num.of_nat (6 * n)) 80%float = (14 <=? n)%nat.
Proof.
  intros Hn. do 15 (destruct n as [|n]; [by vm_compute|]). lia.
Qed.

Lemma checkGameEnd_tug game (g : TugOfWar) :
  variant game = Tug g →
  checkGameEnd game
  = if PrimFloat.leb (ropePosition g) (-80)%float then
      (true, set_winner (head (red (teams g))) game)
    else if Num.geb (ropePosition g) 80%float then
      (true, set_winner (head (blue (teams g))) game)
    else (false, game).
Proof. intros Hv. unfold checkGameEnd. by rewrite Hv. Qed.

(** C6.  In a tug of war that is [playing], an action of a red player
    moves the rope to [max (-100, rope - 3 * matchScore)] and an action of a
    blue player, one that is not also red, to
    [min (100, rope + 3 * matchScore)]; an action of anyone else leaves it.
    From the centre one blue action of score 2.0 gives 6, [n] of them give
    [6 * n] up to 14, the end-of-game check is negative after fewer than 14
    and, after exactly 14, with the rope at 84, it names the first player of
    the blue team as the winner. *)
Theorem tug_pull_moves_rope_and_blue_wins_after_14
    m (roomCode : string) (ref : nat) game (g : TugOfWar) (action : GameAction) :
  JsMap.get roomCode (games m) = Some (ref, game) →
  status game = playing →
  variant game = Tug g →
  let who := playerId action in
  let pull := (3 * default 1.0 (Game.matchScore action))%float in
  let after n := Nat.iter n (processCommand roomCode action) m in
  (includes (red (teams g)) who = true →
   ropeAt roomCode (processCommand roomCode action m)
   = Some (Num.Math_max (-100)%float (ropePosition g - pull)%float))
  ∧ (includes (red (teams g)) who = false → includes (blue (teams g)) who = true →
     ropeAt roomCode (processCommand roomCode action m)
     = Some (Num.Math_min 100%float (ropePosition g + pull)%float))
  ∧ (includes (red (teams g)) who = false → includes (blue (teams g)) who = false →
     ropeAt roomCode (processCommand roomCode action m) = Some (ropePosition g))
  ∧ (ropePosition g = 0%float →
     includes (red (teams g)) who = false → includes (blue (teams g)) who = true →
     Game.matchScore action = Some 2.0%float →
     ropeAt roomCode (after 1%nat) = Some 6%float
     ∧ (∀ n, (n ≤ 14)%nat → ropeAt roomCode (after n) = Some (Num.of_nat (6 * n)))
     ∧ (∀ n, (n < 14)%nat →
          ∃ game_n, getGame roomCode (after n) = Some game_n
                    ∧ checkGameEnd game_n = (false, game_n))
     ∧ (∃ game_14, getGame roomCode (after 14%nat) = Some game_14
                   ∧ ropeAt roomCode (after 14%nat) = Some 84%float
                   ∧ checkGameEnd game_14
                     = (true, set_winner (head (blue (teams g))) game_14))).
Proof.
  intros Hget Hst Hv who pull after.
  assert (processCommand roomCode action m
          = store roomCode ref (set_variant (Tug (processTugOfWarCommand g action)) game) m)
    as Hstep by (by apply processCommand_tug).
  split; [|split; [|split]].
  - intros Hr. rewrite Hstep, ropeAt_store_tug.
    unfold processTugOfWarCommand. fold who. by rewrite Hr.
  - intros Hr Hb. rewrite Hstep, ropeAt_store_tug.
    unfold processTugOfWarCommand. fold who. by rewrite Hr, Hb.
  - intros Hr Hb. rewrite Hstep, ropeAt_store_tug.
    unfold processTugOfWarCommand. fold who. by rewrite Hr, Hb.
  - intros Hrope Hr Hb Hscore.
    assert (∀ n, (n ≤ 14)%nat →
              getGame roomCode (after n)
              = Some (set_variant
                        (Tug (mkTug (teams g) (tugWords g) (Num.of_nat (6 * n)))) game))
      as Hgames.
    { intros n Hn. unfold getGame, after.
      rewrite (blue_pulls m roomCode ref game g action n) by done.
      rewrite Hscore, Hrope.
      change (default 1.0%float (Some 2.0%float)) with 2.0%float.
      destruct (blue_pull_table n Hn) as (Htab & _). by rewrite Htab. }
    assert (∀ n, (n ≤ 14)%nat → ropeAt roomCode (after n) = Some (Num.of_nat (6 * n)))
      as Hropes by (intros n Hn; unfold ropeAt; by rewrite Hgames).
    split; [by rewrite Hropes by lia|]. split; [done|]. split.
    + intros n Hn. eexists. split; [apply Hgames; lia|].
      erewrite checkGameEnd_tug by reflexivity. cbn [ropePosition].
      destruct (blue_pull_table n) as (_ & -> & ->); [lia|].
      destruct (14 <=? n)%nat eqn:E; [apply Nat.leb_le in E; lia | done].
    + eexists. split; [apply Hgames; lia|]. split; [by rewrite Hropes by lia|].
      erewrite checkGameEnd_tug by reflexivity. cbn [ropePosition teams].
      by destruct (blue_pull_table 14) as (_ & -> & ->).
Qed.

Lemma tug_pull_moves_rope_and_blue_wins_after_14_witness :
  JsMap.get "AAAA" (games GameScenario.tug_playing)
  = Some (0%nat, GameScenario.tug_playing_game)
  ∧ ropeAt "AAAA" GameScenario.tug_playing = Some 0%float
  ∧ ropeAt "AAAA"
           (processCommand "AAAA" GameScenario.bob_full_phrase GameScenario.tug_playing)
    = Some 6%float
  ∧ ∃ game_14,
      getGame "AAAA"
              (Nat.iter 14 (processCommand "AAAA" GameScenario.bob_full_phrase)
                        GameScenario.tug_playing) = Some game_14
      ∧ checkGameEnd game_14 = (true, set_winner (Some "p2") game_14).
Proof.
  split; [reflexivity|]. split; [reflexivity|].
  destruct (tug_pull_moves_rope_and_blue_wins_after_14
              GameScenario.tug_playing "AAAA" 0 GameScenario.tug_playing_game
              GameScenario.tug_playing_data GameScenario.bob_full_phrase)
    as (_ & _ & _ & H).
  - reflexivity.
  - reflexivity.
  - reflexivity.
  - destruct H as (H1 & _ & _ & game_14 & Hg & _ & Hend); try reflexivity.
    split; [exact H1|]. exists game_14. split; [exact Hg | exact Hend].
Defined.

End GameManagerProps.

(** ** More facts about [JsMap] *)

Module JsMapMore.

Section Facts.
Context {V : Type}.
Implicit Types (m : JsMap.t V) (k : string) (v : V).

(** Setting a key to the value it has changes nothing. *)
Lemma set_same k v m : JsMap.get k m = Some v → JsMap.set k v m = m.
Proof.
  induction m as [|[k' v'] m IH]; simpl; [done|].
  destruct (String.eqb k k') eqn:E.
  - apply String.eqb_eq in E as <-. by intros [= ->].
  - intros H. by rewrite IH.
Qed.

Lemma size_set_present k v m :
  k ∈ JsMap.keys m → JsMap.size (JsMap.set k v m) = JsMap.size m.
Proof.
  intros H. unfold JsMap.size.
  rewrite <- (length_fmap fst (JsMap.set k v m)), <- (length_fmap fst m).
  change (fst <$> JsMap.set k v m) with (JsMap.keys (JsMap.set k v m)).
  by rewrite JsMapFacts.keys_set_present.
Qed.

Lemma size_set_absent k v m :
  k ∉ JsMap.keys m → JsMap.size (JsMap.set k v m) = S (JsMap.size m).
Proof.
  intros H. unfold JsMap.size.
  rewrite <- (length_fmap fst (JsMap.set k v m)), <- (length_fmap fst m).
  change (fst <$> JsMap.set k v m) with (JsMap.keys (JsMap.set k v m)).
  rewrite JsMapFacts.keys_set_absent by done. rewrite length_app. simpl.
  change (fst <$> m) with (JsMap.keys m). lia.
Qed.

Lemma size_delete_present k m :
  NoDup (JsMap.keys m) → k ∈ JsMap.keys m →
  S (JsMap.size (JsMap.delete k m)) = JsMap.size m.
Proof.
  unfold JsMap.keys, JsMap.size. induction m as [|[k' v'] m IH]; simpl.
  - intros _ H. by apply elem_of_nil in H.
  - rewrite NoDup_cons. intros [Hk Hnd]. destruct (String.eqb k k') eqn:E.
    + apply String.eqb_eq in E as <-. intros _. f_equal.
      clear IH Hnd. induction m as [|[k0 v0] m IH]; simpl; [done|].
      rewrite fmap_cons, not_elem_of_cons in Hk. destruct Hk as [Hne Hk].
      simpl in Hne. apply String.eqb_neq in Hne. rewrite Hne. simpl.
      f_equal. by apply IH.
    + apply String.eqb_neq in E. intros [?|Hin]%elem_of_cons; [done|].
      simpl. f_equal. by apply IH.
Qed.

(** [find] after [set], when no other entry satisfies the test. *)
Lemma find_set_unique (f : V → bool) k v m :
  f v = true →
  (∀ k' v', (k', v') ∈ m → k' ≠ k → f v' = false) →
  JsMap.find f (JsMap.set k v m) = Some (k, v).
Proof.
  intros Hv. induction m as [|[k0 v0] m IH]; intros Hm; simpl.
  - by rewrite Hv.
  - destruct (String.eqb k k0) eqn:E; simpl.
    + by rewrite Hv.
    + apply String.eqb_neq in E. rewrite (Hm k0 v0); [|left|congruence].
      apply IH. intros k' v' Hin. apply Hm. by right.
Qed.

(** With distinct keys, the entries after [set] are the new one and the
    old ones under other keys. *)
Lemma elem_set_NoDup k v k' v' m :
  NoDup (JsMap.keys m) →
  (k', v') ∈ JsMap.set k v m → (k', v') = (k, v) ∨ (k' ≠ k ∧ (k', v') ∈ m).
Proof.
  unfold JsMap.keys. induction m as [|[k0 v0] m IH]; simpl.
  - intros _ ->%list_elem_of_singleton. by left.
  - rewrite NoDup_cons. intros [Hk Hnd]. destruct (String.eqb k k0) eqn:E.
    + apply String.eqb_eq in E as <-.
      intros [->|Hin]%elem_of_cons; [by left|]. right. split; [|by right].
      intros ->. apply Hk. by apply (JsMapFacts.elem_keys k v').
    + apply String.eqb_neq in E.
      intros [[= -> ->]|Hin]%elem_of_cons; [right; split; [congruence|left]|].
      destruct (IH Hnd Hin) as [?|[? ?]]; [by left|]. right. split; [done|by right].
Qed.

Lemma find_set_none (f : V → bool) k v m :
  NoDup (JsMap.keys m) →
  f v = false →
  (∀ k' v', (k', v') ∈ m → k' ≠ k → f v' = false) →
  JsMap.find f (JsMap.set k v m) = None.
Proof.
  intros Hnd Hv Hm. apply JsMapFacts.find_None. intros k' v' Hin.
  apply elem_set_NoDup in Hin as [[= -> ->]|[Hne Hin]]; [done| |done].
  by eapply Hm.
Qed.

End Facts.

End JsMapMore.

(** ** More properties of the room registry *)

Module RoomManagerMore.
Import Types RoomManager RoomManagerProps.

Implicit Types (m : RoomManager.t) (room : Room) (player : Player).

(** *** Joining *)

(** X1.  [joinRoom] succeeds exactly when the code names a room that is
    [waiting], and a failed call leaves the registry as it is.  A call that
    succeeds stores the player under its id, binds its socket to the room
    and touches nothing else: the other players of the room, the host, the
    status, the other bindings and the other rooms are as before. *)
Theorem joinRoom_accepts_only_waiting_rooms m (roomCode : string) player :
  ((joinRoom roomCode player m).1 = true
   ↔ ∃ room, getRoom roomCode m = Some room ∧ gameState room = waiting)
  ∧ ((joinRoom roomCode player m).1 = false → (joinRoom roomCode player m).2 = m)
  ∧ (∀ room,
       getRoom roomCode m = Some room → gameState room = waiting →
       ∃ room',
         getRoom roomCode (joinRoom roomCode player m).2 = Some room'
         ∧ JsMap.get (id player) (players room') = Some player
         ∧ (∀ j, j ≠ id player →
              JsMap.get j (players room') = JsMap.get j (players room))
         ∧ hostSocketId room' = hostSocketId room
         ∧ gameState room' = waiting
         ∧ hostDisconnectedAt room' = hostDisconnectedAt room
         ∧ playerToRoom (joinRoom roomCode player m).2 !! socketId player
           = Some roomCode
         ∧ (∀ s, s ≠ socketId player →
              playerToRoom (joinRoom roomCode player m).2 !! s = playerToRoom m !! s)
         ∧ (∀ c, c ≠ roomCode →
              getRoom c (joinRoom roomCode player m).2 = getRoom c m)).
Proof.
  unfold joinRoom, getRoom.
  destruct (JsMap.get roomCode (rooms m)) as [room|] eqn:E.
  - destruct (gameState room) eqn:Hst; simpl.
    + split; [split; [eauto|done]|]. split; [done|].
      intros r [= <-] _. eexists. split; [apply JsMapFacts.get_set_eq|]. simpl.
      split; [apply JsMapFacts.get_set_eq|].
      split; [intros j Hj; by apply JsMapFacts.get_set_ne|].
      do 3 (split; [done|]).
      split; [apply lookup_insert_eq|].
      split; [intros s Hs; by apply lookup_insert_ne|].
      intros c Hc. by apply JsMapFacts.get_set_ne.
    + split; [split; [done|intros (r & [= <-] & ?); congruence]|].
      split; [done|]. intros r [= <-] ?. congruence.
    + split; [split; [done|intros (r & [= <-] & ?); congruence]|].
      split; [done|]. intros r [= <-] ?. congruence.
    + split; [split; [done|intros (r & [= <-] & ?); congruence]|].
      split; [done|]. intros r [= <-] ?. congruence.
  - simpl. split; [split; [done|by intros (r & ? & _)]|]. split; done.
Qed.

(** *** Leaving twice *)

(** X2.  A second [leaveRoom] for the same connection returns [null] and
    changes nothing, whatever the first call did: the first call either
    changed nothing itself or deleted the binding of the connection. *)
Theorem leaveRoom_twice m (socketId : string) (t1 t2 : Z) :
  leaveRoom socketId t2 (leaveRoom socketId t1 m).2
  = (None, (leaveRoom socketId t1 m).2).
Proof.
  assert (∀ m', playerToRoom m' !! socketId = None ∨ (leaveRoom socketId t1 m).2 = m
                → m' = (leaveRoom socketId t1 m).2
                → leaveRoom socketId t2 m' = (None, m')) as Hcases.
  { intros m' [Hnone|Hsame] ->; [by apply leaveRoom_unbound|].
    rewrite Hsame. revert Hsame. unfold leaveRoom.
    destruct (playerToRoom m !! socketId) as [rc|] eqn:Hb; [|done].
    destruct (Js.falsy rc); [done|].
    destruct (JsMap.get rc (rooms m)) as [room|]; [|done].
    destruct (String.eqb _ socketId); simpl; intros Hsame;
      apply (f_equal (λ x, playerToRoom x !! socketId)) in Hsame; simpl in Hsame;
      rewrite lookup_delete_eq, Hb in Hsame; done. }
  apply Hcases; [|done]. unfold leaveRoom.
  destruct (playerToRoom m !! socketId) as [rc|] eqn:Hb; [|by right].
  destruct (Js.falsy rc); [by right|].
  destruct (JsMap.get rc (rooms m)) as [room|]; [|by right].
  left. destruct (String.eqb _ socketId); simpl; apply lookup_delete_eq.
Qed.

(** *** Reconnection of a player *)

(** X3.  [reconnectPlayer] returns [null], and changes nothing, exactly
    when the room or the player id is unknown.  Otherwise the player it
    returns, which is the one now stored under the id, has the new socket
    and is connected, with its id and name as before; the new socket is
    bound to the room; the other players stay, and so does every other
    binding: the binding of the socket the player had before is not
    released. *)
Theorem reconnectPlayer_rebinds_player m (roomCode playerId newSocketId : string) :
  ((reconnectPlayer roomCode playerId newSocketId m).1 = None
   ↔ ¬ ∃ room player, getRoom roomCode m = Some room
                      ∧ JsMap.get playerId (players room) = Some player)
  ∧ ((reconnectPlayer roomCode playerId newSocketId m).1 = None →
     (reconnectPlayer roomCode playerId newSocketId m).2 = m)
  ∧ (∀ room player,
       getRoom roomCode m = Some room →
       JsMap.get playerId (players room) = Some player →
       ∃ room',
         (reconnectPlayer roomCode playerId newSocketId m).1
         = Some (mkPlayer (id player) (name player) (Types.roomCode player)
                          newSocketId true)
         ∧ getRoom roomCode (reconnectPlayer roomCode playerId newSocketId m).2
           = Some room'
         ∧ JsMap.get playerId (players room')
           = Some (mkPlayer (id player) (name player) (Types.roomCode player)
                            newSocketId true)
         ∧ (∀ j, j ≠ playerId →
              JsMap.get j (players room') = JsMap.get j (players room))
         ∧ JsMap.keys (players room') = JsMap.keys (players room)
         ∧ gameState room' = gameState room
         ∧ hostSocketId room' = hostSocketId room
         ∧ playerToRoom (reconnectPlayer roomCode playerId newSocketId m).2
             !! newSocketId = Some roomCode
         ∧ (∀ s, s ≠ newSocketId →
              playerToRoom (reconnectPlayer roomCode playerId newSocketId m).2 !! s
              = playerToRoom m !! s)).
Proof.
  unfold reconnectPlayer, getRoom.
  destruct (JsMap.get roomCode (rooms m)) as [room|] eqn:E.
  - destruct (JsMap.get playerId (players room)) as [player|] eqn:Ep; simpl.
    + split; [split; [done|intros []; eauto]|]. split; [done|].
      intros r p [= <-] Hp. rewrite Ep in Hp. injection Hp as <-.
      eexists. split; [reflexivity|].
      split; [apply JsMapFacts.get_set_eq|]. simpl.
      split; [apply JsMapFacts.get_set_eq|].
      split; [intros j Hj; by apply JsMapFacts.get_set_ne|].
      split; [apply JsMapFacts.keys_set_present;
              eapply JsMapFacts.elem_keys, JsMapFacts.get_Some_elem, Ep|].
      do 2 (split; [done|]).
      split; [apply lookup_insert_eq | intros s Hs; by apply lookup_insert_ne].
    + split; [split; [intros _ (r & p & [= <-] & ?); congruence | done]|].
      split; [done|]. intros r p [= <-] ?. congruence.
  - simpl. split; [split; [intros _ (r & p & ? & _); done | done]|].
    split; [done|]. intros r p ?. done.
Qed.

(** *** Removal of a player *)

(** X4.  [removePlayer] fails, and changes nothing, exactly when the room
    or the player id is unknown.  When it succeeds the entry of the player is
    gone from the room, the other players stay, the binding of the socket of
    the player is released, and a later [reconnectPlayer] for that id
    fails. *)
Theorem removePlayer_deletes_entry_and_binding m (roomCode playerId : string) :
  ((removePlayer roomCode playerId m).1 = false
   ↔ ¬ ∃ room player, getRoom roomCode m = Some room
                      ∧ JsMap.get playerId (players room) = Some player)
  ∧ ((removePlayer roomCode playerId m).1 = false →
     (removePlayer roomCode playerId m).2 = m)
  ∧ (∀ room player,
       getRoom roomCode m = Some room →
       JsMap.get playerId (players room) = Some player →
       ∃ room',
         getRoom roomCode (removePlayer roomCode playerId m).2 = Some room'
         ∧ JsMap.get playerId (players room') = None
         ∧ (∀ j, j ≠ playerId →
              JsMap.get j (players room') = JsMap.get j (players room))
         ∧ (socketId player ≠ "" →
            playerToRoom (removePlayer roomCode playerId m).2 !! socketId player = None)
         ∧ (∀ s, s ≠ socketId player →
              playerToRoom (removePlayer roomCode playerId m).2 !! s
              = playerToRoom m !! s)
         ∧ ∀ s, (reconnectPlayer roomCode playerId s
                   (removePlayer roomCode playerId m).2).1 = None).
Proof.
  unfold removePlayer, getRoom.
  destruct (JsMap.get roomCode (rooms m)) as [room|] eqn:E.
  - destruct (JsMap.get playerId (players room)) as [player|] eqn:Ep; simpl.
    + split; [split; [done|intros []; eauto]|]. split; [done|].
      intros r p [= <-] Hp. rewrite Ep in Hp. injection Hp as <-. eexists.
      split; [apply JsMapFacts.get_set_eq|]. simpl.
      split; [apply JsMapFacts.get_delete_eq|].
      split; [intros j Hj; by apply JsMapFacts.get_delete_ne|].
      split; [|split].
      * intros Hs. apply String.eqb_neq in Hs. unfold Js.falsy. rewrite Hs.
        apply lookup_delete_eq.
      * intros s Hs. destruct (Js.falsy _); [done | by apply lookup_delete_ne].
      * intros s. unfold reconnectPlayer. simpl.
        rewrite JsMapFacts.get_set_eq. simpl.
        by rewrite JsMapFacts.get_delete_eq.
    + split; [split; [intros _ (r & p & [= <-] & ?); congruence | done]|].
      split; [done|]. intros r p [= <-] ?. congruence.
  - simpl. split; [split; [intros _ (r & p & ? & _); done | done]|].
    split; [done|]. intros r p ?. done.
Qed.

(** *** A player joins, drops out and comes back *)

(** The two outcomes of [joinRoom], and the state after [reconnectPlayer]
    found the player. *)
Lemma joinRoom_refused m (roomCode : string) player :
  (joinRoom roomCode player m).1 = false → (joinRoom roomCode player m).2 = m.
Proof.
  unfold joinRoom. destruct (JsMap.get roomCode (rooms m)) as [room|]; [|done].
  by destruct (gameState room).
Qed.

Lemma joinRoom_accepted m (roomCode : string) player :
  (joinRoom roomCode player m).1 = true →
  ∃ room,
    getRoom roomCode m = Some room
    ∧ (joinRoom roomCode player m).2
      = mk (JsMap.set roomCode
              (set_players (JsMap.set (id player) player (players room)) room)
              (rooms m))
           (<[socketId player := roomCode]> (playerToRoom m)).
Proof.
  unfold joinRoom, getRoom.
  destruct (JsMap.get roomCode (rooms m)) as [room|]; [|done].
  destruct (gameState room); try done. intros _. by exists room.
Qed.

Lemma reconnectPlayer_found m (roomCode playerId newSocketId : string) room player :
  getRoom roomCode m = Some room →
  JsMap.get playerId (players room) = Some player →
  reconnectPlayer roomCode playerId newSocketId m
  = (Some (set_connected true (set_socketId newSocketId player)),
     mk (JsMap.set roomCode
           (set_players
              (JsMap.set playerId (set_connected true (set_socketId newSocketId player))
                         (players room))
              room)
           (rooms m))
        (<[newSocketId := roomCode]> (playerToRoom m))).
Proof. unfold reconnectPlayer, getRoom. by intros -> ->. Qed.

(** X5.  A player joins a waiting room from a socket that is neither the
    socket of the host nor that of another player of the room.  When that
    socket disconnects, [leaveRoom] names the room and the player, keeps the
    player in the room with [connected] false and releases the binding.
    [reconnectPlayer] from a new socket then returns the player with the new
    socket and [connected] true, stores it under the same id and binds the
    new socket to the room. *)
Theorem join_leave_reconnect
    m (roomCode : string) room player (newSocketId : string) (now : Z) :
  getRoom roomCode m = Some room →
  gameState room = waiting →
  roomCode ≠ "" →
  id player ≠ "" →
  hostSocketId room ≠ socketId player →
  (∀ j q, (j, q) ∈ players room → j ≠ id player → socketId q ≠ socketId player) →
  let left := leaveRoom (socketId player) now (joinRoom roomCode player m).2 in
  let back := reconnectPlayer roomCode (id player) newSocketId left.2 in
  left.1 = Some (mkLeave roomCode (id player) None)
  ∧ (∃ r, getRoom roomCode left.2 = Some r
          ∧ JsMap.get (id player) (players r) = Some (set_connected false player)
          ∧ hostDisconnectedAt r = hostDisconnectedAt room)
  ∧ playerToRoom left.2 !! socketId player = None
  ∧ back.1 = Some (mkPlayer (id player) (name player) (Types.roomCode player)
                            newSocketId true)
  ∧ (∃ r, getRoom roomCode back.2 = Some r
          ∧ JsMap.get (id player) (players r)
            = Some (mkPlayer (id player) (name player) (Types.roomCode player)
                             newSocketId true))
  ∧ playerToRoom back.2 !! newSocketId = Some roomCode.
Proof.
  intros Hget Hst Hrc Hid Hhost Hothers left back.
  set (m1 := (joinRoom roomCode player m).2).
  set (room1 := set_players (JsMap.set (id player) player (players room)) room).
  assert (m1 = mk (JsMap.set roomCode room1 (rooms m))
                  (<[socketId player := roomCode]> (playerToRoom m))) as Hm1.
  { unfold m1, joinRoom. unfold getRoom in Hget. by rewrite Hget, Hst. }
  destruct (leaveRoom_player m1 (socketId player) roomCode now room1
                             (id player) player)
    as (room2 & Hleave & Hp2 & Hothers2 & Hkeys2 & Hdis2 & Hhost2).
  { rewrite Hm1. simpl. apply lookup_insert_eq. }
  { done. }
  { rewrite Hm1. unfold getRoom. simpl. apply JsMapFacts.get_set_eq. }
  { done. }
  { unfold room1. simpl. apply JsMapMore.find_set_unique.
    - apply String.eqb_refl.
    - intros j q Hin Hj. apply String.eqb_neq. by eapply Hothers. }
  { done. }
  assert (left = (Some (mkLeave roomCode (id player) None),
                  mk (JsMap.set roomCode room2 (rooms m1))
                     (delete (socketId player) (playerToRoom m1)))) as Hleft
    by exact Hleave.
  assert (getRoom roomCode left.2 = Some room2) as Hroom2
    by (rewrite Hleft; unfold getRoom; simpl; apply JsMapFacts.get_set_eq).
  split; [by rewrite Hleft|].
  split; [exists room2; by rewrite Hroom2, Hp2, Hdis2|].
  split; [rewrite Hleft; simpl; apply lookup_delete_eq|].
  unfold back.
  rewrite (reconnectPlayer_found left.2 roomCode (id player) newSocketId room2
             (set_connected false player) Hroom2 Hp2).
  cbn [fst snd]. split; [reflexivity|]. split.
  - eexists. unfold getRoom. cbn [rooms]. rewrite JsMapFacts.get_set_eq.
    split; [reflexivity|]. cbn [players set_players]. apply JsMapFacts.get_set_eq.
  - cbn [playerToRoom]. apply lookup_insert_eq.
Qed.

Lemma join_leave_reconnect_witness :
  getRoom "AAAA" Scenario.created
  = Some (mkRoom "AAAA" "h0" JsMap.empty waiting 0 None (Some JsMap.empty))
  ∧ (leaveRoom "s1" 1000 (joinRoom "AAAA" Scenario.alice Scenario.created).2).1
    = Some (mkLeave "AAAA" "player_1" None)
  ∧ (reconnectPlayer "AAAA" "player_1" "s9"
       (leaveRoom "s1" 1000 (joinRoom "AAAA" Scenario.alice Scenario.created).2).2).1
    = Some (mkPlayer "player_1" "alice" "AAAA" "s9" true).
Proof.
  split; [reflexivity|].
  destruct (join_leave_reconnect
              Scenario.created "AAAA"
              (mkRoom "AAAA" "h0" JsMap.empty waiting 0 None (Some JsMap.empty))
              Scenario.alice "s9" 1000) as (H1 & _ & _ & H4 & _).
  - reflexivity.
  - reflexivity.
  - discriminate.
  - discriminate.
  - discriminate.
  - intros j q Hin. by apply elem_of_nil in Hin.
  - split; [exact H1 | exact H4].
Defined.

(** X6.  After [reconnectPlayer] gave a player a new socket, the binding of
    the old socket is still there.  When the old socket disconnects later,
    [leaveRoom] finds no player on it: it returns [null], the player stays
    connected on the new socket, and the stale binding is released. *)
Theorem leaveRoom_of_replaced_socket_keeps_player
    m (roomCode playerId newSocketId : string) room player (now : Z) :
  NoDup (JsMap.keys (players room)) →
  getRoom roomCode m = Some room →
  roomCode ≠ "" →
  JsMap.get playerId (players room) = Some player →
  playerToRoom m !! socketId player = Some roomCode →
  newSocketId ≠ socketId player →
  hostSocketId room ≠ socketId player →
  (∀ j q, (j, q) ∈ players room → j ≠ playerId → socketId q ≠ socketId player) →
  let back := reconnectPlayer roomCode playerId newSocketId m in
  let left := leaveRoom (socketId player) now back.2 in
  playerToRoom back.2 !! socketId player = Some roomCode
  ∧ left.1 = None
  ∧ (∃ r, getRoom roomCode left.2 = Some r
          ∧ JsMap.get playerId (players r)
            = Some (mkPlayer (id player) (name player) (Types.roomCode player)
                             newSocketId true))
  ∧ playerToRoom left.2 !! socketId player = None
  ∧ playerToRoom left.2 !! newSocketId = Some roomCode.
Proof.
  intros Hnd Hget Hrc Hp Hbind Hnew Hhost Hothers back left.
  set (player' := mkPlayer (id player) (name player) (Types.roomCode player)
                           newSocketId true).
  set (room1 := set_players (JsMap.set playerId player' (players room)) room).
  assert (back = (Some player',
                  mk (JsMap.set roomCode room1 (rooms m))
                     (<[newSocketId := roomCode]> (playerToRoom m)))) as Hback.
  { unfold back, reconnectPlayer. unfold getRoom in Hget. by rewrite Hget, Hp. }
  assert (playerToRoom back.2 !! socketId player = Some roomCode) as Hold
    by (rewrite Hback; simpl; by rewrite lookup_insert_ne).
  split; [exact Hold|].
  assert (left = (None,
                  mk (JsMap.set roomCode room1 (rooms back.2))
                     (delete (socketId player) (playerToRoom back.2)))) as Hleft.
  { unfold left, leaveRoom. rewrite Hold.
    assert (Js.falsy roomCode = false) as -> by (by apply String.eqb_neq).
    assert (JsMap.get roomCode (rooms back.2) = Some room1) as ->
      by (rewrite Hback; simpl; apply JsMapFacts.get_set_eq).
    assert (JsMap.find (λ p, String.eqb (socketId p) (socketId player))
                       (players room1) = None) as ->.
    { unfold room1. simpl. apply JsMapMore.find_set_none; [done| |].
      - apply String.eqb_neq. done.
      - intros j q Hin Hj. apply String.eqb_neq. by eapply Hothers. }
    simpl.
    assert (String.eqb (hostSocketId room) (socketId player) = false) as ->
      by (by apply String.eqb_neq).
    done. }
  rewrite Hleft. simpl. split; [done|]. split.
  - exists room1. unfold getRoom. simpl. rewrite JsMapFacts.get_set_eq.
    split; [done|]. unfold room1. simpl. apply JsMapFacts.get_set_eq.
  - split; [apply lookup_delete_eq|].
    rewrite lookup_delete_ne by done. rewrite Hback. simpl. apply lookup_insert_eq.
Qed.

Lemma leaveRoom_of_replaced_socket_keeps_player_witness :
  getRoom "AAAA" Scenario.joined
  = Some (mkRoom "AAAA" "h0" [("player_1", Scenario.alice)] waiting 0 None
                 (Some JsMap.empty))
  ∧ (leaveRoom "s1" 2000 (reconnectPlayer "AAAA" "player_1" "s9" Scenario.joined).2).1
    = None
  ∧ ∃ r, getRoom "AAAA"
           (leaveRoom "s1" 2000
              (reconnectPlayer "AAAA" "player_1" "s9" Scenario.joined).2).2 = Some r
         ∧ JsMap.get "player_1" (players r)
           = Some (mkPlayer "player_1" "alice" "AAAA" "s9" true).
Proof.
  split; [reflexivity|].
  destruct (leaveRoom_of_replaced_socket_keeps_player
              Scenario.joined "AAAA" "player_1" "s9"
              (mkRoom "AAAA" "h0" [("player_1", Scenario.alice)] waiting 0 None
                      (Some JsMap.empty))
              Scenario.alice 2000) as (_ & H2 & H3 & _).
  - apply NoDup_singleton.
  - reflexivity.
  - discriminate.
  - reflexivity.
  - reflexivity.
  - discriminate.
  - discriminate.
  - intros j q Hin Hj. apply list_elem_of_singleton in Hin. congruence.
  - split; [exact H2 | exact H3].
Defined.

(** *** The hourly sweep, again *)

Lemma cleanup_entries_remaining (l : JsMap.t Room) (now : Z) m (k : string) room :
  (k, room) ∈ rooms (foldl (cleanup_entry now) m l) →
  (k, room) ∈ rooms m ∧ ∀ e, e ∈ l → expired now e.2 = true → e.1 ≠ k.
Proof.
  revert m. induction l as [|e l IH]; intros m Hin; simpl in Hin.
  - split; [done|]. intros e He. by apply elem_of_nil in He.
  - apply IH in Hin as [Hin Hl]. unfold cleanup_entry in Hin.
    destruct (expired now e.2) eqn:E.
    + simpl in Hin. apply JsMapFacts.elem_delete in Hin as [Hne Hin].
      split; [done|]. intros e' [->|He']%elem_of_cons Hexp; [done | by apply Hl].
    + split; [done|]. intros e' [->|He']%elem_of_cons Hexp; [congruence | by apply Hl].
Qed.

Lemma cleanup_entries_nothing_expired (l : JsMap.t Room) (now : Z) m :
  (∀ e, e ∈ l → expired now e.2 = false) → foldl (cleanup_entry now) m l = m.
Proof.
  revert m. induction l as [|e l IH]; intros m Hl; simpl; [done|].
  unfold cleanup_entry at 2. rewrite (Hl e) by left.
  apply IH. intros e' He'. apply Hl. by right.
Qed.

(** X7.  The sweep is idempotent: a second sweep at the same time changes
    nothing, since the first one left no expired room behind. *)
Theorem cleanupOldRooms_idempotent m (now : Z) :
  cleanupOldRooms now (cleanupOldRooms now m) = cleanupOldRooms now m.
Proof.
  unfold cleanupOldRooms at 1. apply cleanup_entries_nothing_expired.
  intros [k room] Hin. simpl. unfold cleanupOldRooms in Hin.
  apply cleanup_entries_remaining in Hin as [Hin Hl].
  destruct (expired now room) eqn:E; [|done].
  by destruct (Hl (k, room) Hin E).
Qed.

(** X8.  What the sweep does to a registry with distinct room codes.  A
    room created more than two hours ago, or whose [hostDisconnectedAt] is
    more than 30 seconds old, is deleted; every other room stays as it is
    (a room whose host never disconnected, or disconnected at most 30 seconds
    ago, survives).  The connections of the players of the deleted rooms are
    released, and no other binding changes. *)
Theorem cleanupOldRooms_deletes_expired_rooms_only m (now : Z) :
  NoDup (JsMap.keys (rooms m)) →
  (∀ c, getRoom c (cleanupOldRooms now m)
        = match getRoom c m with
          | Some room => if expired now room then None else Some room
          | None => None
          end)
  ∧ (∀ room, expired now room = true
             ↔ createdAt room < now - 7200000
               ∨ ∃ d, hostDisconnectedAt room = Some d ∧ d < now - 30000)
  ∧ (∀ s, released now m s → playerToRoom (cleanupOldRooms now m) !! s = None)
  ∧ (∀ s, ¬ released now m s →
          playerToRoom (cleanupOldRooms now m) !! s = playerToRoom m !! s).
Proof.
  intros Hnd. split; [|split; [|split]].
  - intros c. destruct (getRoom c m) as [room|] eqn:E.
    + destruct (expired now room) eqn:Hexp.
      * by destruct (cleanupOldRooms_expired m now c room E Hexp).
      * by apply cleanupOldRooms_keep.
    + by apply cleanup_entries_absent.
  - intros room. unfold expired.
    destruct (createdAt room <? now - 2 * 60 * 60 * 1000) eqn:E.
    + apply Z.ltb_lt in E. split; [intros _; left; lia | done].
    + apply Z.ltb_ge in E. destruct (hostDisconnectedAt room) as [d|].
      * rewrite Z.ltb_lt. split.
        -- intros ?. right. exists d. split; [done | lia].
        -- intros [?|(d' & [= <-] & ?)]; lia.
      * split; [done|]. intros [?|(d' & ? & _)]; [lia | done].
  - intros s (k & room & p & Hin & Hexp & Hp & <-).
    apply (JsMapFacts.elem_get _ _ _ Hnd) in Hin.
    destruct (cleanupOldRooms_expired m now k room Hin Hexp) as [_ Hrel].
    by apply Hrel.
  - intros s Hs. unfold cleanupOldRooms.
    destruct (playerToRoom m !! s) as [rc|] eqn:Hb.
    + apply cleanup_entries_keep_binding; [|done].
      intros [k room] Hin Hexp Hmem. simpl in *.
      apply list_elem_of_fmap in Hmem as (p & -> & Hp).
      apply Hs. by exists k, room, p.
    + by apply cleanup_entries_released.
Qed.

Lemma cleanupOldRooms_deletes_expired_rooms_only_witness :
  NoDup (JsMap.keys (rooms Scenario.host_away))
  ∧ getRoom "AAAA" (cleanupOldRooms 30000 Scenario.host_away)
    = getRoom "AAAA" Scenario.host_away
  ∧ getRoom "AAAA" (cleanupOldRooms 30001 Scenario.host_away) = None
  ∧ playerToRoom (cleanupOldRooms 30001 Scenario.host_away) !! "s1" = None.
Proof.
  split; [exact host_away_keys|].
  destruct (cleanupOldRooms_deletes_expired_rooms_only
              Scenario.host_away 30000 host_away_keys) as (Hkeep & _).
  destruct (cleanupOldRooms_deletes_expired_rooms_only
              Scenario.host_away 30001 host_away_keys) as (Hgone & _ & Hrel & _).
  split; [by rewrite Hkeep|]. split; [by rewrite Hgone|].
  apply Hrel. eexists "AAAA", _, Scenario.alice.
  split; [vm_compute; left|]. split; [reflexivity|]. split; [|reflexivity].
  vm_compute. left.
Defined.

(** *** Queries *)

(** X9.  [getRoomBySocketId] looks for a room that the socket hosts before
    it looks at the binding of the socket.  So it finds a room for every
    socket that hosts one, bound or not, and the room it returns is hosted
    by the socket or is the room the socket is bound to; it returns nothing
    for a socket that hosts no room and has no binding. *)
Theorem getRoomBySocketId_prefers_hosted_room m (socketId : string) :
  (∀ room, room ∈ getAllRooms m → hostSocketId room = socketId →
           ∃ room', getRoomBySocketId socketId m = Some room'
                    ∧ room' ∈ getAllRooms m ∧ hostSocketId room' = socketId)
  ∧ (∀ room, getRoomBySocketId socketId m = Some room →
             (room ∈ getAllRooms m ∧ hostSocketId room = socketId)
             ∨ (∃ roomCode, playerToRoom m !! socketId = Some roomCode
                            ∧ getRoom roomCode m = Some room))
  ∧ ((∀ room, room ∈ getAllRooms m → hostSocketId room ≠ socketId) →
     playerToRoom m !! socketId = None →
     getRoomBySocketId socketId m = None).
Proof.
  unfold getRoomBySocketId, getAllRooms.
  destruct (List.find _ (JsMap.values (rooms m))) as [r|] eqn:E.
  - apply find_some in E as [Hin Heq]. apply String.eqb_eq in Heq.
    apply list_elem_of_In in Hin. split; [eauto|]. split.
    + intros room [= <-]. by left.
    + intros Hno. by destruct (Hno r Hin).
  - pose proof (find_none _ _ E) as Hnone. split; [|split].
    + intros room Hin%list_elem_of_In Hhost. apply Hnone in Hin.
      apply String.eqb_neq in Hin. done.
    + destruct (playerToRoom m !! socketId) as [rc|]; [|done].
      destruct (Js.falsy rc); [done|]. intros room Hget. right. by exists rc.
    + by intros _ ->.
Qed.

Lemma find_first {A} (f : A → bool) (l : list A) (x : A) :
  List.find f l = Some x →
  ∃ before after,
    l = (before ++ x :: after)%list ∧ f x = true ∧ ∀ e, e ∈ before → f e = false.
Proof.
  induction l as [|a l IH]; [done|]. simpl. destruct (f a) eqn:E.
  - intros [= ->]. exists [], l. split; [done|]. split; [done|].
    intros e He. by apply elem_of_nil in He.
  - intros Hfind. destruct (IH Hfind) as (before & after & -> & Hx & Hbefore).
    exists (a :: before), after. split; [done|]. split; [done|].
    intros e He. apply elem_of_cons in He as [->|He]; [done | by apply Hbefore].
Qed.

(** X10.  [getRoomByPlayerId] returns the code of the first room, in the
    order of the map of rooms, which is the order of creation, that has a
    player under the id: the room of the code it returns has the id and no
    room before it has; it returns nothing exactly when no room has the
    id.  After a successful [joinRoom] it finds a room for the id of the
    player. *)
Theorem getRoomByPlayerId_finds_a_room_of_the_player m (playerId : string) :
  (∀ c, getRoomByPlayerId playerId m = Some c →
        ∃ before room after,
          rooms m = (before ++ (c, room) :: after)%list
          ∧ is_Some (JsMap.get playerId (players room))
          ∧ ∀ e, e ∈ before → JsMap.get playerId (players e.2) = None)
  ∧ (getRoomByPlayerId playerId m = None
     ↔ ∀ c room, (c, room) ∈ rooms m → JsMap.get playerId (players room) = None)
  ∧ (∀ roomCode player,
       id player = playerId → (joinRoom roomCode player m).1 = true →
       is_Some (getRoomByPlayerId playerId (joinRoom roomCode player m).2)).
Proof.
  assert (∀ m', (getRoomByPlayerId playerId m' = None
                 ↔ ∀ c room, (c, room) ∈ rooms m' →
                             JsMap.get playerId (players room) = None)) as Hnone.
  { intros m'. unfold getRoomByPlayerId.
    destruct (List.find _ (rooms m')) as [[c r]|] eqn:E; simpl.
    - apply find_some in E as [Hin Hhas]. apply list_elem_of_In in Hin.
      split; [done|]. intros Hno. simpl in Hhas. unfold JsMap.has in Hhas.
      by rewrite (Hno c r Hin) in Hhas.
    - split; [|done]. intros _ c room Hin%list_elem_of_In.
      apply (find_none _ _ E) in Hin. simpl in Hin. unfold JsMap.has in Hin.
      by destruct (JsMap.get playerId (players room)). }
  split; [|split; [apply Hnone|]].
  - intros c. unfold getRoomByPlayerId.
    destruct (List.find _ (rooms m)) as [[c' r]|] eqn:E; [|done].
    intros Hc. simpl in Hc. injection Hc as <-.
    apply find_first in E as (before & after & Hsplit & Hhas & Hbefore).
    exists before, r, after. split; [exact Hsplit|]. simpl in Hhas.
    split; [by apply JsMapFacts.has_true|].
    intros e He. pose proof (Hbefore e He) as Hno. simpl in Hno.
    unfold JsMap.has in Hno. by destruct (JsMap.get playerId (players e.2)).
  - intros rc player <- Hjoin.
    destruct (getRoomByPlayerId (id player) (joinRoom rc player m).2) eqn:E; [eauto|].
    pose proof (proj1 (Hnone _) E) as Hno.
    destruct (joinRoom_accepted m rc player Hjoin) as (room & Hget & Hstate).
    rewrite Hstate in Hno. cbn [rooms] in Hno.
    assert (JsMap.get rc (JsMap.set rc
                            (set_players (JsMap.set (id player) player (players room)) room)
                            (rooms m))
            = Some (set_players (JsMap.set (id player) player (players room)) room))
      as Hget' by apply JsMapFacts.get_set_eq.
    apply JsMapFacts.get_Some_elem in Hget'. apply Hno in Hget'.
    cbn [players set_players] in Hget'. rewrite JsMapFacts.get_set_eq in Hget'.
    discriminate Hget'.
Qed.

(** *** Counting players *)

Lemma total_is_sum m :
  getTotalPlayerCount m
  = sum_list ((λ e : string * Room, JsMap.size (players e.2)) <$> rooms m).
Proof.
  unfold getTotalPlayerCount, JsMap.values.
  assert (∀ (l : JsMap.t Room) (n : nat),
            foldl (λ count room, (count + JsMap.size (players room))%nat) n (snd <$> l)
            = (n + sum_list ((λ e : string * Room, JsMap.size (players e.2)) <$> l))%nat)
    as Hgen.
  { induction l as [|[k r] l IH]; intros n.
    - simpl. lia.
    - rewrite !fmap_cons. cbn [foldl sum_list snd]. rewrite IH. simpl. lia. }
  by rewrite Hgen.
Qed.

(** Replacing the room under a key changes the total by the difference of
    the two numbers of players. *)
Lemma total_set (k : string) room room' (l : JsMap.t Room) (p2r p2r' : gmap string string) :
  JsMap.get k l = Some room →
  (getTotalPlayerCount (mk (JsMap.set k room' l) p2r') + JsMap.size (players room))%nat
  = (getTotalPlayerCount (mk l p2r) + JsMap.size (players room'))%nat.
Proof.
  rewrite !total_is_sum. cbn [rooms].
  induction l as [|[k0 r0] l IH]; [done|]. cbn [JsMap.get JsMap.set].
  destruct (String.eqb k k0) eqn:E.
  - intros [= ->]. rewrite !fmap_cons. cbn [sum_list snd]. simpl. lia.
  - intros H. rewrite !fmap_cons. cbn [sum_list snd]. specialize (IH H). simpl. lia.
Qed.

(** X11.  A player that drops out is still counted: [leaveRoom] never
    changes [getTotalPlayerCount], and neither does [reconnectPlayer].
    [joinRoom] adds one when it succeeds with an id that is new to the room,
    and nothing when it fails or replaces the player under an id the room
    already has. *)
Theorem getTotalPlayerCount_counts_disconnected_players m :
  (∀ (socketId : string) (now : Z),
     getTotalPlayerCount (leaveRoom socketId now m).2 = getTotalPlayerCount m)
  ∧ (∀ roomCode playerId socketId,
       getTotalPlayerCount (reconnectPlayer roomCode playerId socketId m).2
       = getTotalPlayerCount m)
  ∧ (∀ roomCode player room,
       getRoom roomCode m = Some room → gameState room = waiting →
       getTotalPlayerCount (joinRoom roomCode player m).2
       = if JsMap.has (id player) (players room)
         then getTotalPlayerCount m
         else S (getTotalPlayerCount m))
  ∧ (∀ roomCode player,
       (joinRoom roomCode player m).1 = false →
       getTotalPlayerCount (joinRoom roomCode player m).2 = getTotalPlayerCount m).
Proof.
  assert (∀ k room room' p2r',
            JsMap.get k (rooms m) = Some room →
            JsMap.size (players room') = JsMap.size (players room) →
            getTotalPlayerCount (mk (JsMap.set k room' (rooms m)) p2r')
            = getTotalPlayerCount m) as Hsame.
  { intros k room room' p2r' Hget Hsize.
    pose proof (total_set k room room' (rooms m) (playerToRoom m) p2r' Hget) as H.
    destruct m. simpl in *. lia. }
  split; [|split; [|split]].
  - intros s now. unfold leaveRoom.
    destruct (playerToRoom m !! s) as [rc|]; [|done].
    destruct (Js.falsy rc); [done|].
    destruct (JsMap.get rc (rooms m)) as [room|] eqn:E; [|done].
    destruct (JsMap.find _ (players room)) as [[i p]|] eqn:Hf; simpl;
      destruct (String.eqb (hostSocketId room) s); simpl;
      eapply Hsame; try done; simpl.
    all: apply JsMapMore.size_set_present.
    all: apply JsMapFacts.find_Some in Hf as [Hin _].
    all: by eapply JsMapFacts.elem_keys.
  - intros rc pid s. unfold reconnectPlayer.
    destruct (JsMap.get rc (rooms m)) as [room|] eqn:E; [|done].
    destruct (JsMap.get pid (players room)) as [p|] eqn:Ep; [|done]. simpl.
    eapply Hsame; [done|]. simpl. apply JsMapMore.size_set_present.
    eapply JsMapFacts.elem_keys, JsMapFacts.get_Some_elem, Ep.
  - intros rc player room Hget Hst. unfold joinRoom. unfold getRoom in Hget.
    rewrite Hget, Hst. simpl.
    pose proof (total_set rc room
                  (set_players (JsMap.set (id player) player (players room)) room)
                  (rooms m) (playerToRoom m)
                  (<[socketId player := rc]> (playerToRoom m)) Hget) as H.
    simpl in H. unfold JsMap.has.
    destruct (JsMap.get (id player) (players room)) as [q|] eqn:Eq.
    + rewrite JsMapMore.size_set_present in H
        by (eapply JsMapFacts.elem_keys, JsMapFacts.get_Some_elem, Eq).
      destruct m. simpl in *. lia.
    + rewrite JsMapMore.size_set_absent in H
        by (by apply JsMapFacts.get_None_keys).
      destruct m. simpl in *. lia.
  - intros rc player Hfail.
    by rewrite (joinRoom_refused m rc player Hfail).
Qed.

(** *** From the lobby to a game and back *)

(** X12.  [startGame] refuses a room without players, and leaves it as it
    is.  With at least one player it makes the room [playing], and from then
    on [joinRoom] is refused; it is still refused after [endGame] made the
    room [finished].  [resetRoom] makes the room [waiting] again with an
    empty ready map and the same players, and [joinRoom] succeeds again. *)
Theorem lobby_cycle m (roomCode : string) room player :
  getRoom roomCode m = Some room →
  (JsMap.size (players room) = 0%nat → startGame roomCode m = (false, m))
  ∧ (JsMap.size (players room) ≠ 0%nat →
     let started := (startGame roomCode m).2 in
     let ended := (endGame roomCode started).2 in
     let reset := (resetRoom roomCode ended).2 in
     (startGame roomCode m).1 = true
     ∧ gameState <$> getRoom roomCode started = Some playing
     ∧ (joinRoom roomCode player started).1 = false
     ∧ gameState <$> getRoom roomCode ended = Some finished
     ∧ (joinRoom roomCode player ended).1 = false
     ∧ (∃ r, getRoom roomCode reset = Some r
             ∧ gameState r = waiting
             ∧ players r = players room
             ∧ readyPlayers r = (λ _, JsMap.empty) <$> readyPlayers room)
     ∧ (joinRoom roomCode player reset).1 = true).
Proof.
  intros Hget. unfold getRoom in Hget. split.
  - intros Hsize. unfold startGame. by rewrite Hget, Hsize.
  - intros Hsize started ended reset.
    assert (startGame roomCode m
            = (true, mk (JsMap.set roomCode (set_gameState playing room) (rooms m))
                        (playerToRoom m))) as Hstart.
    { unfold startGame. rewrite Hget.
      destruct (JsMap.size (players room)) eqn:E; [done|]. done. }
    assert (getRoom roomCode started = Some (set_gameState playing room)) as Hs
      by (unfold started, getRoom; rewrite Hstart; apply JsMapFacts.get_set_eq).
    assert (getRoom roomCode ended
            = Some (set_gameState finished (set_gameState playing room))) as He.
    { unfold ended, endGame. unfold getRoom in Hs. rewrite Hs.
      unfold getRoom. simpl. apply JsMapFacts.get_set_eq. }
    assert (∃ r, getRoom roomCode reset = Some r
                 ∧ gameState r = waiting ∧ players r = players room
                 ∧ readyPlayers r = (λ _, JsMap.empty) <$> readyPlayers room)
      as (r & Hr & Hrst & Hrp & Hrr).
    { unfold reset, resetRoom. unfold getRoom in He. rewrite He.
      unfold getRoom. simpl. rewrite JsMapFacts.get_set_eq. eexists. split; [done|].
      destruct (readyPlayers room) eqn:Hready; simpl; rewrite ?Hready; done. }
    split; [by rewrite Hstart|]. split; [by rewrite Hs|].
    split; [unfold joinRoom; unfold getRoom in Hs; by rewrite Hs|].
    split; [by rewrite He|].
    split; [unfold joinRoom; unfold getRoom in He; by rewrite He|].
    split; [by exists r|].
    unfold joinRoom. unfold getRoom in Hr. by rewrite Hr, Hrst.
Qed.

Lemma lobby_cycle_witness :
  getRoom "AAAA" Scenario.joined
  = Some (mkRoom "AAAA" "h0" [("player_1", Scenario.alice)] waiting 0 None
                 (Some JsMap.empty))
  ∧ (startGame "AAAA" Scenario.created).1 = false
  ∧ (joinRoom "AAAA" Scenario.host_player (startGame "AAAA" Scenario.joined).2).1 = false
  ∧ (joinRoom "AAAA" Scenario.host_player
       (resetRoom "AAAA"
          (endGame "AAAA" (startGame "AAAA" Scenario.joined).2).2).2).1 = true.
Proof.
  split; [reflexivity|].
  destruct (lobby_cycle Scenario.created "AAAA"
              (mkRoom "AAAA" "h0" JsMap.empty waiting 0 None (Some JsMap.empty))
              Scenario.host_player) as [H0 _]; [reflexivity|].
  destruct (lobby_cycle Scenario.joined "AAAA"
              (mkRoom "AAAA" "h0" [("player_1", Scenario.alice)] waiting 0 None
                      (Some JsMap.empty))
              Scenario.host_player) as [_ H1]; [reflexivity|].
  destruct H1 as (_ & _ & H3 & _ & _ & _ & H7); [discriminate|].
  split; [by rewrite H0|]. split; [exact H3 | exact H7].
Defined.

End RoomManagerMore.

(** ** Properties of the handlers of the server entry point *)

Module HandlersProps.
Import Types Handlers.

(** *** The limit on the creation of rooms *)

Lemma ceil_seconds_bounds (x : Z) :
  1000 * (ceil_seconds x - 1) < x ≤ 1000 * ceil_seconds x.
Proof.
  unfold ceil_seconds.
  pose proof (Z.div_mod (- x) 1000 ltac:(lia)) as Hdiv.
  pose proof (Z.mod_pos_bound (- x) 1000 ltac:(lia)) as Hmod. lia.
Qed.

(** X13.  After the creation of a room was accepted for an address at time
    [t0], a further attempt from that address less than 60 seconds later is
    answered with an error that tells how many full seconds, from 1 to 60,
    are left to wait, and changes neither the registry nor the limiter: the
    window runs from the last accepted creation.  From 60 seconds on the
    attempt goes through to [createRoom].  Other addresses are not
    affected. *)
Theorem createRoom_once_per_minute_per_address
    (s : Handlers.t) (fuel : nat) (rng : Js.Rng) (pos : nat) (ip socketId : string)
    (t0 : Z) (code : string) (pos' : nat) (s1 : Handlers.t) :
  onCreateRoom fuel rng pos ip socketId t0 s = Some (roomCreated code, pos', s1) →
  JsMap.get ip (roomCreationLimiter s1) = Some t0
  ∧ (∀ ip', ip' ≠ ip →
       JsMap.get ip' (roomCreationLimiter s1) = JsMap.get ip' (roomCreationLimiter s))
  ∧ (∀ fuel' rng' p socketId' t1,
       t0 ≤ t1 < t0 + 60000 →
       ∃ waitTime,
         onCreateRoom fuel' rng' p ip socketId' t1 s1
         = Some (error (wait_message waitTime), p, s1)
         ∧ 1 ≤ waitTime ≤ 60
         ∧ 1000 * (waitTime - 1) < t0 + 60000 - t1 ≤ 1000 * waitTime)
  ∧ (∀ fuel' rng' p socketId' t1,
       t0 + 60000 ≤ t1 →
       onCreateRoom fuel' rng' p ip socketId' t1 s1
       = match RoomManager.createRoom fuel' rng' p socketId' t1 (registry s1) with
         | Some (c, p', registry') =>
             Some (roomCreated c, p',
                   Handlers.mk registry' (JsMap.set ip t1 (roomCreationLimiter s1)))
         | None => None
         end).
Proof.
  unfold onCreateRoom at 1.
  destruct (t0 - default 0 (JsMap.get ip (roomCreationLimiter s)) <? _); [done|].
  destruct (RoomManager.createRoom fuel rng pos socketId t0 (registry s))
    as [[[c p1] r1]|]; [|done].
  intros [= <- <- <-]. cbn [roomCreationLimiter registry].
  assert (JsMap.get ip (JsMap.set ip t0 (roomCreationLimiter s)) = Some t0) as Hlast
    by apply JsMapFacts.get_set_eq.
  split; [done|]. split; [intros ip' Hne; by apply JsMapFacts.get_set_ne|]. split.
  - intros fuel' rng' p sid' t1 Ht. unfold onCreateRoom.
    cbn [roomCreationLimiter registry]. rewrite Hlast. cbn [default from_option].
    unfold Datatypes.id, ROOM_CREATION_COOLDOWN.
    destruct (t1 - t0 <? 60000) eqn:E; [|apply Z.ltb_ge in E; lia].
    eexists. split; [reflexivity|].
    pose proof (ceil_seconds_bounds (60000 - (t1 - t0))) as Hb. lia.
  - intros fuel' rng' p sid' t1 Ht. unfold onCreateRoom.
    cbn [roomCreationLimiter registry]. rewrite Hlast. cbn [default from_option].
    unfold Datatypes.id, ROOM_CREATION_COOLDOWN.
    destruct (t1 - t0 <? 60000) eqn:E; [apply Z.ltb_lt in E; lia|]. done.
Qed.

Lemma createRoom_once_per_minute_per_address_witness :
  onCreateRoom 1 Scenario.rng0 0 "10.0.0.1" "h0" 100000 HandlersScenario.fresh
  = Some (roomCreated "AAAA", 4%nat, HandlersScenario.after_creation)
  ∧ onCreateRoom 1 Scenario.rng0 4 "10.0.0.1" "h1" 122500 HandlersScenario.after_creation
    = Some (error "Please wait 38 seconds before creating another room", 4%nat,
            HandlersScenario.after_creation).
Proof.
  split; [reflexivity|].
  destruct (createRoom_once_per_minute_per_address
              HandlersScenario.fresh 1 Scenario.rng0 0 "10.0.0.1" "h0" 100000
              "AAAA" 4 HandlersScenario.after_creation eq_refl)
    as (_ & _ & Hwait & _).
  destruct (Hwait 1%nat Scenario.rng0 4%nat "h1" 122500) as (w & -> & Hw & Hb); [lia|].
  assert (w = 38) as -> by lia. reflexivity.
Defined.

(** *** Forgetting old entries of the limiter *)

Lemma prune_entries_absent (l acc : JsMap.t Z) (now : Z) (k : string) :
  JsMap.get k acc = None → JsMap.get k (foldl (prune_step now) acc l) = None.
Proof.
  revert acc. induction l as [|e l IH]; intros acc H; simpl; [done|].
  apply IH. unfold prune_step. destruct (now - e.2 >? _); [|done].
  destruct (decide (e.1 = k)) as [->|Hne].
  - apply JsMapFacts.get_delete_eq.
  - by rewrite JsMapFacts.get_delete_ne.
Qed.

Lemma prune_entries_stale (l acc : JsMap.t Z) (now : Z) (k : string) (ts : Z) :
  (k, ts) ∈ l → now - ts > 60000 →
  JsMap.get k (foldl (prune_step now) acc l) = None.
Proof.
  revert acc. induction l as [|e l IH]; intros acc Hin Hstale.
  - by apply elem_of_nil in Hin.
  - simpl. apply elem_of_cons in Hin as [<-|Hin]; [|by apply IH].
    apply prune_entries_absent. unfold prune_step, ROOM_CREATION_COOLDOWN. simpl.
    destruct (now - ts >? 60000) eqn:E; [apply JsMapFacts.get_delete_eq|].
    rewrite Z.gtb_ltb in E. apply Z.ltb_ge in E. lia.
Qed.

Lemma prune_entries_keep (l acc : JsMap.t Z) (now : Z) (k : string) :
  (∀ ts, (k, ts) ∈ l → now - ts ≤ 60000) →
  JsMap.get k (foldl (prune_step now) acc l) = JsMap.get k acc.
Proof.
  revert acc. induction l as [|e l IH]; intros acc Hl; simpl; [done|].
  rewrite IH by (intros ts Hin; apply Hl; by right).
  unfold prune_step, ROOM_CREATION_COOLDOWN.
  destruct (now - e.2 >? 60000) eqn:E; [|done].
  apply Z.gtb_gt in E. apply JsMapFacts.get_delete_ne. intros Heq.
  destruct e as [k' ts]. simpl in *. subst k'.
  specialize (Hl ts ltac:(left)). lia.
Qed.

(** X14.  The interval that prunes the limiter forgets exactly the entries
    that are more than 60 seconds old.  With the times of the limiter not
    negative, as [Date.now ()] gives them, pruning does not change what any
    later [createRoom] request is answered with, nor the registry it leaves:
    an entry that still blocks its address is kept, and a forgotten one
    would not have blocked. *)
Theorem pruneLimiter_does_not_change_answers (s : Handlers.t) (now : Z) :
  NoDup (JsMap.keys (roomCreationLimiter s)) →
  (∀ ip ts, (ip, ts) ∈ roomCreationLimiter s → 0 ≤ ts) →
  registry (pruneLimiter now s) = registry s
  ∧ (∀ ip, JsMap.get ip (roomCreationLimiter (pruneLimiter now s))
           = match JsMap.get ip (roomCreationLimiter s) with
             | Some ts => if now - ts >? 60000 then None else Some ts
             | None => None
             end)
  ∧ (∀ fuel rng pos ip socketId t,
       now ≤ t →
       (λ x : Reply * nat * Handlers.t, (x.1, registry x.2))
         <$> onCreateRoom fuel rng pos ip socketId t (pruneLimiter now s)
       = (λ x : Reply * nat * Handlers.t, (x.1, registry x.2))
           <$> onCreateRoom fuel rng pos ip socketId t s).
Proof.
  intros Hnd Hpos.
  assert (∀ ip, JsMap.get ip (roomCreationLimiter (pruneLimiter now s))
                = match JsMap.get ip (roomCreationLimiter s) with
                  | Some ts => if now - ts >? 60000 then None else Some ts
                  | None => None
                  end) as Hget.
  { intros ip. unfold pruneLimiter. cbn [roomCreationLimiter].
    destruct (JsMap.get ip (roomCreationLimiter s)) as [ts|] eqn:E.
    - destruct (now - ts >? 60000) eqn:Hstale.
      + apply Z.gtb_gt in Hstale.
        eapply prune_entries_stale; [by apply JsMapFacts.get_Some_elem|lia].
      + rewrite prune_entries_keep; [done|]. intros ts' Hin.
        apply (JsMapFacts.elem_get _ _ _ Hnd) in Hin.
        assert (ts' = ts) as -> by congruence.
        rewrite Z.gtb_ltb in Hstale. apply Z.ltb_ge in Hstale. lia.
    - by apply prune_entries_absent. }
  split; [done|]. split; [exact Hget|].
  intros fuel rng pos ip sid t Ht. unfold onCreateRoom. rewrite Hget.
  cbn [registry pruneLimiter]. unfold ROOM_CREATION_COOLDOWN.
  destruct (JsMap.get ip (roomCreationLimiter s)) as [ts|] eqn:E.
  2:{ destruct (_ <? _); [done|].
      by destruct (RoomManager.createRoom _ _ _ _ _ _) as [[[c p'] r']|]. }
  destruct (now - ts >? 60000) eqn:Hstale; cbn [default from_option].
  - apply Z.gtb_gt in Hstale. unfold Datatypes.id.
    pose proof (Hpos ip ts (JsMapFacts.get_Some_elem _ _ _ E)) as H0.
    destruct (t - 0 <? 60000) eqn:E0; [apply Z.ltb_lt in E0; lia|].
    destruct (t - ts <? 60000) eqn:E1; [apply Z.ltb_lt in E1; lia|].
    by destruct (RoomManager.createRoom _ _ _ _ _ _) as [[[c p'] r']|].
  - unfold Datatypes.id. destruct (t - ts <? 60000); [done|].
    by destruct (RoomManager.createRoom _ _ _ _ _ _) as [[[c p'] r']|].
Qed.

Lemma pruneLimiter_does_not_change_answers_witness :
  NoDup (JsMap.keys (roomCreationLimiter HandlersScenario.after_creation))
  ∧ JsMap.get "10.0.0.1"
      (roomCreationLimiter (pruneLimiter 160000 HandlersScenario.after_creation))
    = Some 100000
  ∧ JsMap.get "10.0.0.1"
      (roomCreationLimiter (pruneLimiter 160001 HandlersScenario.after_creation))
    = None.
Proof.
  assert (NoDup (JsMap.keys (roomCreationLimiter HandlersScenario.after_creation)))
    as Hnd by (vm_compute; apply NoDup_singleton).
  assert (∀ ip ts, (ip, ts) ∈ roomCreationLimiter HandlersScenario.after_creation
                   → 0 ≤ ts) as Hpos.
  { intros ip ts Hin. vm_compute in Hin. apply list_elem_of_singleton in Hin.
    injection Hin as -> ->. lia. }
  split; [exact Hnd|].
  destruct (pruneLimiter_does_not_change_answers
              HandlersScenario.after_creation 160000 Hnd Hpos) as (_ & H1 & _).
  destruct (pruneLimiter_does_not_change_answers
              HandlersScenario.after_creation 160001 Hnd Hpos) as (_ & H2 & _).
  split; [by rewrite H1 | by rewrite H2].
Defined.

(** *** The ready gate *)

Lemma is_ready_set (readyPlayers : JsMap.t ReadyState) (k j : string) (r : ReadyState) :
  is_ready (JsMap.set k r readyPlayers) j
  = if decide (j = k) then ready r else is_ready readyPlayers j.
Proof.
  unfold is_ready. destruct (decide (j = k)) as [->|Hne].
  - by rewrite JsMapFacts.get_set_eq.
  - by rewrite JsMapFacts.get_set_ne.
Qed.

Lemma has_keys {V} (k : string) (m : JsMap.t V) :
  JsMap.has k m = true ↔ k ∈ JsMap.keys m.
Proof.
  unfold JsMap.has. destruct (JsMap.get k m) eqn:E.
  - split; [|done]. intros _.
    eapply JsMapFacts.elem_keys, JsMapFacts.get_Some_elem, E.
  - apply JsMapFacts.get_None_keys in E. split; [done | intros; done].
Qed.

(** X15.  The handler of [playerReady] announces that all players are
    ready, and sets the timeout that starts the game, exactly when the room
    exists and is [preparing], the sender is one of its players, and every
    other player of the room, connected or not, has a ready entry already.
    The sender is recorded as ready in any room it is a player of.  After
    [playerNotReady] for another player of the room the gate stays shut. *)
Theorem allPlayersReady_exactly_when_all_are_ready
    (m : RoomManager.t) (roomCode playerId : string) (hasMic : bool) :
  (allPlayersReady roomCode ∈ sent (onPlayerReady roomCode playerId hasMic m)
   ↔ start_scheduled (onPlayerReady roomCode playerId hasMic m) = true)
  ∧ (start_scheduled (onPlayerReady roomCode playerId hasMic m) = true
     ↔ ∃ room, RoomManager.getRoom roomCode m = Some room
               ∧ gameState room = preparing
               ∧ playerId ∈ JsMap.keys (players room)
               ∧ ∀ j, j ∈ JsMap.keys (players room) → j ≠ playerId →
                      is_ready (default JsMap.empty (readyPlayers room)) j = true)
  ∧ (∀ room, RoomManager.getRoom roomCode m = Some room →
             playerId ∈ JsMap.keys (players room) →
             ∃ room' ready',
               RoomManager.getRoom roomCode (after (onPlayerReady roomCode playerId hasMic m))
               = Some room'
               ∧ readyPlayers room' = Some ready'
               ∧ JsMap.get playerId ready' = Some (mkReady true hasMic)
               ∧ players room' = players room
               ∧ gameState room' = gameState room)
  ∧ (∀ room other,
       RoomManager.getRoom roomCode m = Some room →
       is_Some (readyPlayers room) →
       other ∈ JsMap.keys (players room) → other ≠ playerId →
       start_scheduled
         (onPlayerReady roomCode playerId hasMic
            (after (onPlayerNotReady roomCode other m))) = false).
Proof.
  assert (∀ m',
            start_scheduled (onPlayerReady roomCode playerId hasMic m') = true
            ↔ ∃ room, RoomManager.getRoom roomCode m' = Some room
                      ∧ gameState room = preparing
                      ∧ playerId ∈ JsMap.keys (players room)
                      ∧ ∀ j, j ∈ JsMap.keys (players room) → j ≠ playerId →
                             is_ready (default JsMap.empty (readyPlayers room)) j = true)
    as Hgate.
  { intros m'. unfold onPlayerReady.
    destruct (RoomManager.getRoom roomCode m') as [room|] eqn:E;
      [|split; [done | by intros (r & ? & _)]].
    destruct (JsMap.has playerId (players room)) eqn:Hhas.
    2:{ split; [done|]. intros (r & [= <-] & _ & Hin%has_keys & _). congruence. }
    apply has_keys in Hhas.
    destruct (gameState room) eqn:Hst;
      try (split; [done | intros (r & [= <-] & ? & _); congruence]).
    destruct (forallb _ (JsMap.keys (players room))) eqn:Hall.
    - assert ((0 <? length (JsMap.keys (players room)))%nat = true) as ->.
      { apply Nat.ltb_lt. destruct (JsMap.keys (players room)); [|simpl; lia].
        by apply elem_of_nil in Hhas. }
      simpl. split; [|done]. intros _. exists room. do 3 (split; [done|]).
      intros j Hj Hne. rewrite forallb_forall in Hall.
      apply list_elem_of_In, Hall in Hj. rewrite is_ready_set in Hj.
      by rewrite decide_False in Hj.
    - simpl. split; [done|]. intros (r & [= <-] & _ & _ & Hothers).
      assert (forallb
                (is_ready (JsMap.set playerId (mkReady true hasMic)
                                     (default JsMap.empty (readyPlayers room))))
                (JsMap.keys (players room)) = true) as Habs; [|congruence].
      apply forallb_forall. intros j Hj%list_elem_of_In. rewrite is_ready_set.
      case_decide; [done | by apply Hothers]. }
  split; [|split; [apply Hgate|split]].
  - unfold onPlayerReady. destruct (RoomManager.getRoom roomCode m) as [room|];
      [|simpl; split; [intros H; by apply elem_of_nil in H | done]].
    destruct (JsMap.has playerId (players room));
      [|simpl; split; [intros H; by apply elem_of_nil in H | done]].
    assert (allPlayersReady roomCode
              ∈ [playerReadyStatus roomCode playerId true hasMic
                   (totalReady (JsMap.set playerId (mkReady true hasMic)
                                  (default JsMap.empty (readyPlayers room))))
                   (JsMap.size (players room))] ↔ false = true) as Hno.
    { split; [|done]. intros H%list_elem_of_singleton. discriminate H. }
    destruct (gameState room); try exact Hno.
    destruct (_ && _); [|exact Hno]. simpl. split; [done|]. intros _. right. left.
  - intros room Hget Hin. unfold onPlayerReady. rewrite Hget.
    apply has_keys in Hin. rewrite Hin. eexists _, _.
    assert (∀ g1 g2 m', after (if (g1 : bool) then mkGate g2 true m' else mkGate (take 1 g2) false m')
                        = m') as Hafter by (by intros []).
    split.
    { destruct (gameState room); cbn [after];
        try (unfold RoomManager.getRoom; simpl; apply JsMapFacts.get_set_eq).
      destruct (_ && _); cbn [after];
        unfold RoomManager.getRoom; simpl; apply JsMapFacts.get_set_eq. }
    simpl. split; [done|]. split; [apply JsMapFacts.get_set_eq | done].
  - intros room other Hget [ready0 Hready] Hother Hne.
    destruct (start_scheduled _) eqn:E; [|done].
    apply Hgate in E as (r & Hr & _ & _ & Hothers).
    unfold onPlayerNotReady in Hr. rewrite Hget, Hready in Hr. simpl in Hr.
    unfold RoomManager.getRoom in Hr. simpl in Hr.
    rewrite JsMapFacts.get_set_eq in Hr. injection Hr as <-. simpl in Hothers.
    specialize (Hothers other Hother Hne). rewrite is_ready_set in Hothers.
    by rewrite decide_True in Hothers.
Qed.

End HandlersProps.

(** ** More of the game engine *)

Module GameManagerMore.
Import Game GameManager GameManagerProps.

(** *** Ending a game *)

Lemma delete_absent {V} (k : string) (m : JsMap.t V) :
  JsMap.get k m = None → JsMap.delete k m = m.
Proof.
  induction m as [|[k' v] m IH]; [done|]. simpl.
  destruct (String.eqb k k'); [done|]. intros H. by rewrite IH.
Qed.

Lemma stopGameLoop_games (roomCode : string) m :
  games (stopGameLoop roomCode m) = games m.
Proof. unfold stopGameLoop. by destruct (JsMap.get roomCode (gameLoops m)). Qed.

Lemma stopGameLoop_emitted (roomCode : string) m :
  emitted (stopGameLoop roomCode m) = emitted m.
Proof. unfold stopGameLoop. by destruct (JsMap.get roomCode (gameLoops m)). Qed.

Lemma stopGameLoop_loops (roomCode : string) m :
  gameLoops (stopGameLoop roomCode m) = JsMap.delete roomCode (gameLoops m).
Proof.
  unfold stopGameLoop. destruct (JsMap.get roomCode (gameLoops m)) eqn:E; [done|].
  by rewrite delete_absent.
Qed.

Lemma stopGameLoop_absent (roomCode : string) m :
  JsMap.get roomCode (gameLoops m) = None → stopGameLoop roomCode m = m.
Proof. unfold stopGameLoop. by intros ->. Qed.

Lemma endGame_games (roomCode : string) (now : Z) m :
  games (endGame roomCode now m) = JsMap.delete roomCode (games m).
Proof.
  unfold endGame. rewrite stopGameLoop_games.
  destruct (JsMap.get roomCode (games m)) as [[ref game]|] eqn:E; [done|].
  by rewrite stopGameLoop_games, delete_absent.
Qed.

Lemma endGame_loops (roomCode : string) (now : Z) m :
  gameLoops (endGame roomCode now m) = JsMap.delete roomCode (gameLoops m).
Proof.
  unfold endGame. rewrite stopGameLoop_games.
  destruct (JsMap.get roomCode (games m)) as [[ref game]|]; simpl;
    apply stopGameLoop_loops.
Qed.

Lemma endGame_emitted (roomCode : string) (now : Z) m :
  emitted (endGame roomCode now m)
  = (emitted m
     ++ match getGame roomCode m with
        | Some game => [GameEnd roomCode (set_endTime now (set_status finished game))]
        | None => []
        end)%list.
Proof.
  unfold endGame, getGame. rewrite stopGameLoop_games.
  destruct (JsMap.get roomCode (games m)) as [[ref game]|]; simpl;
    rewrite stopGameLoop_emitted; [done | by rewrite app_nil_r].
Qed.

Lemma getGame_store_fresh (roomCode : string) game m :
  getGame roomCode
    (mk (JsMap.set roomCode (fresh m, game) (games m)) (gameLoops m) (intervals m)
        (S (fresh m)) (emitted m)) = Some game.
Proof. unfold getGame. simpl. by rewrite JsMapFacts.get_set_eq. Qed.

Lemma stopGameLoop_intervals (roomCode : string) m :
  intervals (stopGameLoop roomCode m)
  = match JsMap.get roomCode (gameLoops m) with
    | Some loop => filter (λ i : nat * string, i.1 ≠ loop) (intervals m)
    | None => intervals m
    end.
Proof. unfold stopGameLoop. by destruct (JsMap.get roomCode (gameLoops m)). Qed.

Lemma endGame_intervals (roomCode : string) (now : Z) m :
  intervals (endGame roomCode now m)
  = match JsMap.get roomCode (gameLoops m) with
    | Some loop => filter (λ i : nat * string, i.1 ≠ loop) (intervals m)
    | None => intervals m
    end.
Proof.
  rewrite <- stopGameLoop_intervals. unfold endGame. rewrite stopGameLoop_games.
  by destruct (JsMap.get roomCode (games m)) as [[ref game]|].
Qed.

(** The room has neither a game nor an entry in [gameLoops] after [endGame]. *)
Lemma endGame_gone (roomCode : string) (now : Z) m :
  JsMap.get roomCode (games (endGame roomCode now m)) = None
  ∧ JsMap.get roomCode (gameLoops (endGame roomCode now m)) = None.
Proof.
  rewrite endGame_games, endGame_loops. split; apply JsMapFacts.get_delete_eq.
Qed.

(** X16.  [endGame] leaves the room without a game and without an entry
    in [gameLoops].  Of the intervals that run it clears the one that the
    entry named and no other: an interval that an earlier [startGameLoop]
    set for the room, and whose entry a later one has overwritten, keeps
    running.  The games and entries of the other rooms are left alone.  One
    [gameEnd] is emitted, with the game marked [finished] at the time of the
    call, when the room had a game, and nothing when it had none; a second
    call changes nothing more. *)
Theorem endGame_removes_game_and_loop (roomCode : string) (now : Z) m :
  getGame roomCode (endGame roomCode now m) = None
  ∧ JsMap.has roomCode (gameLoops (endGame roomCode now m)) = false
  ∧ intervals (endGame roomCode now m)
    = match JsMap.get roomCode (gameLoops m) with
      | Some loop => filter (λ i : nat * string, i.1 ≠ loop) (intervals m)
      | None => intervals m
      end
  ∧ (∀ loop i, JsMap.get roomCode (gameLoops m) = Some loop →
               i ∈ intervals m → i.1 ≠ loop →
               i ∈ intervals (endGame roomCode now m))
  ∧ (∀ other, other ≠ roomCode →
       getGame other (endGame roomCode now m) = getGame other m
       ∧ JsMap.get other (gameLoops (endGame roomCode now m))
         = JsMap.get other (gameLoops m))
  ∧ emitted (endGame roomCode now m)
    = (emitted m
       ++ match getGame roomCode m with
          | Some game => [GameEnd roomCode (set_endTime now (set_status finished game))]
          | None => []
          end)%list
  ∧ ∀ later, endGame roomCode later (endGame roomCode now m) = endGame roomCode now m.
Proof.
  destruct (endGame_gone roomCode now m) as [Hgame Hloop].
  split; [by unfold getGame; rewrite Hgame|].
  split; [by unfold JsMap.has; rewrite Hloop|].
  split; [apply endGame_intervals|].
  split.
  { intros loop i Hentry Hin Hne. rewrite endGame_intervals, Hentry.
    apply list_elem_of_filter. by split. }
  split.
  { intros other Hne. unfold getGame. rewrite endGame_games, endGame_loops.
    by rewrite !JsMapFacts.get_delete_ne. }
  split; [apply endGame_emitted|].
  intros later. unfold endGame at 1.
  rewrite (stopGameLoop_absent _ _ Hloop), Hgame. done.
Qed.

(** *** Creating a game *)

(** X17.  [createGame] throws exactly when the mode is not [voice_racer]
    and is not [tug_of_war] for an even number of players: for a tug of war
    with an odd number of players, for the two modes without an
    implementation, and, with the message [Unknown game mode], for every
    other string.  It has ended the game that the room had in either case:
    after a failed call the room has no game, after a successful one it has
    the new game, in status [waiting], and no entry in [gameLoops]. *)
Theorem createGame_ends_the_previous_game_also_when_it_throws
    (roomCode mode : string) (rng : Js.Rng) (pos : nat) (now : Z)
    (players : JsMap.t Types.Player) m :
  ((∃ message, (createGame roomCode mode rng pos now players m).1 = Error message)
   ↔ mode ≠ "voice_racer"
     ∧ (mode = "tug_of_war" → (JsMap.size players mod 2 ≠ 0)%nat))
  ∧ (mode ≠ "voice_racer" → mode ≠ "tug_of_war" →
     mode ≠ "quick_draw" → mode ≠ "word_bridge" →
     (createGame roomCode mode rng pos now players m).1
     = Error ("Unknown game mode: " ++ mode))
  ∧ (∀ message,
       (createGame roomCode mode rng pos now players m).1 = Error message →
       (createGame roomCode mode rng pos now players m).2 = endGame roomCode now m
       ∧ getGame roomCode (createGame roomCode mode rng pos now players m).2 = None)
  ∧ (∀ game,
       (createGame roomCode mode rng pos now players m).1 = Ok game →
       getGame roomCode (createGame roomCode mode rng pos now players m).2 = Some game
       ∧ status game = waiting
       ∧ JsMap.has roomCode
           (gameLoops (createGame roomCode mode rng pos now players m).2) = false
       ∧ emitted (createGame roomCode mode rng pos now players m).2
         = emitted (endGame roomCode now m)).
Proof.
  destruct (endGame_gone roomCode now m) as [Hgame Hloop].
  assert (getGame roomCode (endGame roomCode now m) = None) as Hnone
    by (by unfold getGame; rewrite Hgame).
  assert (JsMap.has roomCode (gameLoops (endGame roomCode now m)) = false) as Hhas
    by (by unfold JsMap.has; rewrite Hloop).
  assert (length (JsMap.values players) = JsMap.size players) as Hlen
    by (unfold JsMap.values, JsMap.size; apply length_fmap).
  unfold createGame, createTugOfWarGame. rewrite Hlen.
  destruct (String.eqb mode "voice_racer") eqn:Hracer.
  { apply String.eqb_eq in Hracer. cbn [fst snd].
    split; [split; [by intros [? ?] | by intros [? _]]|].
    split; [done|]. split; [done|].
    intros game Hok. injection Hok as <-. by rewrite getGame_store_fresh. }
  apply String.eqb_neq in Hracer.
  destruct (String.eqb mode "tug_of_war") eqn:Htug.
  { apply String.eqb_eq in Htug.
    destruct (JsMap.size players mod 2 =? 0)%nat eqn:Heven; cbn [negb fst snd].
    - apply Nat.eqb_eq in Heven.
      split; [split; [by intros [? ?] | intros [_ Hodd]; by destruct (Hodd Htug)]|].
      split; [done|]. split; [done|].
      intros game Hok. injection Hok as <-. by rewrite getGame_store_fresh.
    - apply Nat.eqb_neq in Heven.
      split; [split; [done | by eexists]|].
      split; [done|]. split; [done | by intros game]. }
  apply String.eqb_neq in Htug.
  destruct (String.eqb mode "quick_draw") eqn:Hquick.
  { apply String.eqb_eq in Hquick. cbn [fst snd].
    split; [split; [done | by eexists]|].
    split; [done|]. split; [done | by intros game]. }
  apply String.eqb_neq in Hquick.
  destruct (String.eqb mode "word_bridge") eqn:Hword.
  { apply String.eqb_eq in Hword. cbn [fst snd].
    split; [split; [done | by eexists]|].
    split; [done|]. split; [done | by intros game]. }
  cbn [fst snd].
  split; [split; [done | by eexists]|].
  split; [done|]. split; [done | by intros game].
Qed.

(** *** The words of the players *)

Lemma swap_Permutation {A} (i j : nat) (l : list A) : swap i j l ≡ₚ l.
Proof.
  unfold swap. destruct (l !! i) as [a|] eqn:Hi; [|done].
  destruct (l !! j) as [b|] eqn:Hj; [|done].
  apply Permutation_inj. split; [by rewrite !length_insert|].
  pose proof (lookup_lt_Some _ _ _ Hi) as Hli.
  pose proof (lookup_lt_Some _ _ _ Hj) as Hlj.
  exists (λ k, if decide (k = i) then j else if decide (k = j) then i else k).
  split.
  - intros x y. repeat case_decide; congruence.
  - intros k. destruct (decide (k = j)) as [->|Hkj].
    + rewrite list_lookup_insert_eq by (by rewrite length_insert).
      case_decide as E; [by subst | done].
    + rewrite list_lookup_insert_ne by done.
      destruct (decide (k = i)) as [->|Hki].
      * by rewrite list_lookup_insert_eq.
      * by rewrite list_lookup_insert_ne.
Qed.

Lemma shuffle_Permutation {A} (rng : Js.Rng) (pos : nat) (l : list A) :
  shuffle rng pos l ≡ₚ l.
Proof.
  unfold shuffle. generalize (length l - 1)%nat as i. intros i.
  revert pos l. induction i as [|i IH]; intros pos l; [done|].
  cbn [shuffle_from]. rewrite IH. apply swap_Permutation.
Qed.

Lemma RACING_WORDS_NoDup : NoDup RACING_WORDS.
Proof. apply (bool_decide_unpack _). vm_compute. reflexivity. Qed.

(** A loop over numbered entries that sets one key per entry builds the map
    of the entries, in their order, when the keys are distinct. *)
Lemma foldl_set_imap {A V} (key : A → string) (val : nat → A → V)
      (F : JsMap.t V → nat * A → JsMap.t V) (l : list A) :
  (∀ acc i a, F acc (i, a) = JsMap.set (key a) (val i a) acc) →
  ∀ (n : nat) (acc : JsMap.t V),
    NoDup (JsMap.keys acc ++ (key <$> l)) →
    foldl F acc (imap (λ i a, ((n + i)%nat, a)) l)
    = (acc ++ imap (λ i a, (key a, val (n + i)%nat a)) l)%list.
Proof.
  intros HF. induction l as [|a l IH]; intros n acc Hnd.
  - simpl. by rewrite app_nil_r.
  - rewrite !imap_cons. cbn [foldl]. rewrite HF.
    rewrite (imap_ext _ (λ i a, ((S n + i)%nat, a)))
      by (intros; unfold compose; f_equal; lia).
    rewrite (imap_ext (_ ∘ S) (λ i a0, (key a0, val (S n + i)%nat a0)))
      by (intros; unfold compose; do 2 f_equal; lia).
    rewrite fmap_cons in Hnd.
    assert (key a ∉ JsMap.keys acc) as Hfresh.
    { apply NoDup_app in Hnd as (_ & Hdis & _). intros Hin.
      apply (Hdis _ Hin). left. }
    assert (JsMap.set (key a) (val (n + 0)%nat a) acc
            = (acc ++ [(key a, val (n + 0)%nat a)])%list) as ->.
    { clear -Hfresh. induction acc as [|[k v] acc IHacc]; [done|].
      simpl. destruct (String.eqb (key a) k) eqn:E.
      - apply String.eqb_eq in E. exfalso. apply Hfresh. rewrite E. left.
      - rewrite IHacc; [done|]. intros Hin. apply Hfresh. by right. }
    rewrite IH.
    + by rewrite <- app_assoc.
    + unfold JsMap.keys in *. rewrite fmap_app, <- app_assoc. exact Hnd.
Qed.

Lemma foldl_set_imap_empty {A V} (key : A → string) (val : nat → A → V)
      (F : JsMap.t V → nat * A → JsMap.t V) (l : list A) :
  (∀ acc i a, F acc (i, a) = JsMap.set (key a) (val i a) acc) →
  NoDup (key <$> l) →
  foldl F JsMap.empty (imap (λ i a, (i, a)) l) = imap (λ i a, (key a, val i a)) l.
Proof.
  intros HF Hnd. apply (foldl_set_imap key val F l HF 0%nat []). exact Hnd.
Qed.

(** The first words of a list without repetition are distinct. *)
Lemma word_at_NoDup {A} (availableWords : list string) (l : list A) :
  NoDup availableWords → (length l ≤ length availableWords)%nat →
  NoDup (imap (λ i _, word_at availableWords i) l)
  ∧ ∀ w, w ∈ imap (λ i (_ : A), word_at availableWords i) l → w ∈ availableWords.
Proof.
  intros Hnd Hlen.
  assert (∀ i, (i < length l)%nat →
               availableWords !! i = Some (word_at availableWords i)) as Hword.
  { intros i Hi. unfold word_at. rewrite Nat.mod_small by lia.
    destruct (lookup_lt_is_Some_2 availableWords i) as [w ->]; [lia | done]. }
  split.
  - apply NoDup_alt. intros i j w Hi Hj.
    apply list_lookup_imap_Some in Hi as (a & Ha & ->).
    apply list_lookup_imap_Some in Hj as (b & Hb & Heq).
    apply lookup_lt_Some in Ha, Hb.
    eapply NoDup_lookup; [exact Hnd | by apply Hword |].
    rewrite Heq. by apply Hword.
  - intros w Hin. apply list_elem_of_lookup in Hin as [i Hi].
    apply list_lookup_imap_Some in Hi as (a & Ha & ->).
    apply lookup_lt_Some in Ha. eapply list_elem_of_lookup_2, Hword, Ha.
Qed.

Lemma imap_keys_values {A V} (key : A → string) (val : nat → A → V) (l : list A) :
  JsMap.keys (imap (λ i a, (key a, val i a)) l) = key <$> l
  ∧ JsMap.values (imap (λ i a, (key a, val i a)) l) = imap val l.
Proof.
  unfold JsMap.keys, JsMap.values. revert val.
  induction l as [|a l IH]; intros val; [done|].
  rewrite !imap_cons, !fmap_cons. cbn [fst snd].
  destruct (IH (λ i, val (S i))) as [IH1 IH2].
  split; f_equal; [exact IH1 | exact IH2].
Qed.

(** X18.  The shuffle of the word pool is a permutation of it, and a race
    gives each of up to 95 players a word of the pool that no other player
    has; every player starts at position 0 with speed 0. *)
Theorem createVoiceRacerGame_gives_each_player_a_word_of_its_own
    (rng : Js.Rng) (pos : nat) (players : JsMap.t Types.Player) :
  NoDup (JsMap.keys players) →
  (JsMap.size players ≤ 95)%nat →
  shuffle rng pos RACING_WORDS ≡ₚ RACING_WORDS
  ∧ ∃ r, variant (createVoiceRacerGame rng pos players) = Racer r
         ∧ JsMap.keys (racerWords r) = JsMap.keys players
         ∧ NoDup (JsMap.values (racerWords r))
         ∧ (∀ word, word ∈ JsMap.values (racerWords r) → word ∈ RACING_WORDS)
         ∧ playerPositions r = (λ playerId, (playerId, 0%float)) <$> JsMap.keys players
         ∧ playerSpeeds r = (λ playerId, (playerId, 0%float)) <$> JsMap.keys players.
Proof.
  intros Hkeys Hsize. split; [apply shuffle_Permutation|].
  assert (NoDup (shuffle rng pos RACING_WORDS)) as Hnd
    by (rewrite shuffle_Permutation; apply RACING_WORDS_NoDup).
  assert (length (shuffle rng pos RACING_WORDS) = 95%nat) as Hlen
    by (by rewrite shuffle_Permutation).
  assert (∀ word, word ∈ shuffle rng pos RACING_WORDS → word ∈ RACING_WORDS) as Hpool
    by (intros word; by rewrite shuffle_Permutation).
  unfold createVoiceRacerGame.
  generalize dependent (shuffle rng pos RACING_WORDS). intros availableWords Hnd Hlen Hpool.
  eexists. split; [reflexivity|]. cbn [racerWords playerPositions playerSpeeds].
  rewrite (foldl_set_imap_empty fst (λ i _, word_at availableWords i))
    by (by intros ? ? [? ?] || done).
  rewrite !(foldl_set_imap_empty fst (λ _ _, 0%float))
    by (by intros ? ? [? ?] || done).
  destruct (word_at_NoDup availableWords players Hnd) as [Hw1 Hw2];
    [unfold JsMap.size in Hsize; lia|].
  destruct (imap_keys_values (fst : string * Types.Player → string)
                             (λ i _, word_at availableWords i) players) as [-> ->].
  destruct (imap_keys_values (fst : string * Types.Player → string)
                             (λ _ _, 0%float) players) as [Hzero _].
  split; [done|]. split; [exact Hw1|].
  split; [intros word Hin; by apply Hpool, Hw2|].
  assert (imap (λ (_ : nat) (a : string * Types.Player), (a.1, 0%float)) players
          = (λ playerId, (playerId, 0%float)) <$> JsMap.keys players) as ->; [|done].
  clear. unfold JsMap.keys. induction players as [|[k p] l IH]; [done|].
  rewrite imap_cons, !fmap_cons. f_equal. exact IH.
Qed.

Lemma createVoiceRacerGame_gives_each_player_a_word_of_its_own_witness :
  NoDup (JsMap.keys GameScenario.two_players)
  ∧ (JsMap.size GameScenario.two_players ≤ 95)%nat
  ∧ ∃ r, variant (createVoiceRacerGame GameScenario.rng0 0 GameScenario.two_players)
         = Racer r
         ∧ NoDup (JsMap.values (racerWords r)).
Proof.
  assert (NoDup (JsMap.keys GameScenario.two_players)) as Hkeys
    by (apply (bool_decide_unpack _); vm_compute; reflexivity).
  assert (JsMap.size GameScenario.two_players ≤ 95)%nat as Hsize
    by (vm_compute; lia).
  split; [exact Hkeys|]. split; [exact Hsize|].
  destruct (createVoiceRacerGame_gives_each_player_a_word_of_its_own
              GameScenario.rng0 0 GameScenario.two_players Hkeys Hsize)
    as (_ & r & Hr & _ & Hnd & _).
  exists r. split; [exact Hr | exact Hnd].
Defined.

(** X19.  A tug of war for an even number of players, at most 95, with
    distinct ids puts the first half of the players, in the order of the
    room, in the red team and the second half in the blue team: the teams
    have the same size, no player is in both, and every player has a word
    of the pool that no other player has.  The rope starts at 0. *)
Theorem createTugOfWarGame_splits_the_players_in_two_halves
    (rng : Js.Rng) (pos : nat) (players : JsMap.t Types.Player) :
  NoDup (Types.id <$> JsMap.values players) →
  (JsMap.size players ≤ 95)%nat →
  (JsMap.size players mod 2 = 0)%nat →
  ∃ game g,
    createTugOfWarGame rng pos players = Ok game
    ∧ variant game = Tug g
    ∧ status game = waiting
    ∧ ropePosition g = 0%float
    ∧ (red (teams g) ++ blue (teams g))%list = Types.id <$> JsMap.values players
    ∧ length (red (teams g)) = length (blue (teams g))
    ∧ (∀ playerId, playerId ∈ red (teams g) → playerId ∉ blue (teams g))
    ∧ JsMap.keys (tugWords g) = Types.id <$> JsMap.values players
    ∧ NoDup (JsMap.values (tugWords g))
    ∧ (∀ word, word ∈ JsMap.values (tugWords g) → word ∈ RACING_WORDS).
Proof.
  intros Hids Hsize Heven.
  assert (length (JsMap.values players) = JsMap.size players) as Hlen
    by (unfold JsMap.values, JsMap.size; apply length_fmap).
  assert (NoDup (shuffle rng pos RACING_WORDS)) as Hnd
    by (rewrite shuffle_Permutation; apply RACING_WORDS_NoDup).
  assert (length (shuffle rng pos RACING_WORDS) = 95%nat) as Hwords
    by (by rewrite shuffle_Permutation).
  assert (∀ word, word ∈ shuffle rng pos RACING_WORDS → word ∈ RACING_WORDS) as Hpool
    by (intros word; by rewrite shuffle_Permutation).
  unfold createTugOfWarGame. rewrite Hlen, Heven. cbn [Nat.eqb negb].
  generalize dependent (shuffle rng pos RACING_WORDS).
  intros availableWords Hnd Hwords Hpool.
  eexists _, _. split; [reflexivity|]. split; [reflexivity|].
  split; [done|]. split; [done|]. cbn [teams red blue tugWords].
  rewrite (foldl_set_imap_empty Types.id (λ i _, word_at availableWords i)) by done.
  destruct (word_at_NoDup availableWords (JsMap.values players) Hnd)
    as [Hw1 Hw2]; [lia|].
  split; [by rewrite <- fmap_app, take_drop|].
  split.
  { rewrite !length_fmap, length_take, length_drop, Hlen.
    pose proof (Nat.div_mod_eq (JsMap.size players) 2). lia. }
  split.
  { intros playerId Hred Hblue.
    rewrite <- (take_drop (JsMap.size players / 2) (JsMap.values players)) in Hids.
    rewrite fmap_app in Hids. apply NoDup_app in Hids as (_ & Hdis & _).
    by apply (Hdis playerId). }
  destruct (imap_keys_values Types.id (λ i (_ : Types.Player), word_at availableWords i)
                             (JsMap.values players)) as [-> ->].
  split; [done|]. split; [exact Hw1|].
  intros word Hin. by apply Hpool, Hw2.
Qed.

Lemma createTugOfWarGame_splits_the_players_in_two_halves_witness :
  NoDup (Types.id <$> JsMap.values GameScenario.two_players)
  ∧ (JsMap.size GameScenario.two_players mod 2 = 0)%nat
  ∧ ∃ game g,
      createTugOfWarGame GameScenario.rng0 0 GameScenario.two_players = Ok game
      ∧ variant game = Tug g
      ∧ red (teams g) = ["p1"] ∧ blue (teams g) = ["p2"].
Proof.
  assert (NoDup (Types.id <$> JsMap.values GameScenario.two_players)) as Hids
    by (apply (bool_decide_unpack _); vm_compute; reflexivity).
  assert (JsMap.size GameScenario.two_players ≤ 95)%nat as Hsize
    by (vm_compute; lia).
  assert (JsMap.size GameScenario.two_players mod 2 = 0)%nat as Heven by reflexivity.
  split; [exact Hids|]. split; [exact Heven|].
  destruct (createTugOfWarGame_splits_the_players_in_two_halves
              GameScenario.rng0 0 GameScenario.two_players Hids Hsize Heven)
    as (game & g & Hmade & Hg & _).
  exists game, g. split; [exact Hmade|]. split; [exact Hg|].
  unfold createTugOfWarGame in Hmade. cbn [Nat.eqb negb] in Hmade.
  vm_compute in Hmade. injection Hmade as <-. vm_compute in Hg.
  injection Hg as <-. split; reflexivity.
Defined.

(** *** Commands and ticks *)

(** X20.  A command never ends a game: [processCommand] emits nothing,
    leaves the tick loops, the games of the other rooms, and the status and
    the winner of the game of its room as they are, and does nothing at all
    to a game that is not [playing]. *)
Theorem processCommand_never_ends_a_game (roomCode : string) (action : GameAction) m :
  emitted (processCommand roomCode action m) = emitted m
  ∧ gameLoops (processCommand roomCode action m) = gameLoops m
  ∧ JsMap.keys (games (processCommand roomCode action m)) = JsMap.keys (games m)
  ∧ (∀ other, other ≠ roomCode →
       getGame other (processCommand roomCode action m) = getGame other m)
  ∧ status <$> getGame roomCode (processCommand roomCode action m)
    = status <$> getGame roomCode m
  ∧ winner <$> getGame roomCode (processCommand roomCode action m)
    = winner <$> getGame roomCode m
  ∧ (∀ game, getGame roomCode m = Some game → status game ≠ playing →
             processCommand roomCode action m = m).
Proof.
  unfold processCommand, getGame.
  destruct (JsMap.get roomCode (games m)) as [[ref game]|] eqn:E.
  2:{ rewrite ?E. repeat split; try done. all: intros ? [=]. }
  assert (∀ game', status game' = status game → winner game' = winner game →
            emitted (store roomCode ref game' m) = emitted m
            ∧ gameLoops (store roomCode ref game' m) = gameLoops m
            ∧ JsMap.keys (games (store roomCode ref game' m)) = JsMap.keys (games m)
            ∧ (∀ other, other ≠ roomCode →
                 snd <$> JsMap.get other (games (store roomCode ref game' m))
                 = snd <$> JsMap.get other (games m))
            ∧ status <$> (snd <$> JsMap.get roomCode (games (store roomCode ref game' m)))
              = status <$> (snd <$> Some (ref, game))
            ∧ winner <$> (snd <$> JsMap.get roomCode (games (store roomCode ref game' m)))
              = winner <$> (snd <$> Some (ref, game))) as Hstore.
  { intros game' Hst Hwin. unfold store. simpl.
    split; [done|]. split; [done|].
    split. { apply JsMapFacts.keys_set_present.
             eapply JsMapFacts.elem_keys, JsMapFacts.get_Some_elem, E. }
    split. { intros other Hne. by rewrite JsMapFacts.get_set_ne. }
    rewrite JsMapFacts.get_set_eq. simpl. by rewrite Hst, Hwin. }
  destruct (status game) eqn:Hst;
    try (rewrite E; repeat split; try done; intros ? [= <-]; done).
  destruct (variant game) eqn:Hv;
    try (rewrite E; repeat split; try done; intros ? [= <-]; congruence).
  all: destruct (Hstore (set_variant (Racer (processVoiceRacerCommand r action)) game))
         as (H1 & H2 & H3 & H4 & H5 & H6)
       || destruct (Hstore (set_variant (Tug (processTugOfWarCommand g action)) game))
         as (H1 & H2 & H3 & H4 & H5 & H6); try done.
  all: repeat split; try done.
  all: intros ? [= <-]; congruence.
Qed.

Lemma geb_80_not_leb (x : float) :
  Num.geb x 80%float = true → PrimFloat.leb x (-80)%float = false.
Proof.
  unfold Num.geb. rewrite !leb_spec.
  let v := eval vm_compute in (Prim2SF 80%float) in change (Prim2SF 80%float) with v.
  let v := eval vm_compute in (Prim2SF (-80)%float) in
  change (Prim2SF (-80)%float) with v.
  destruct (Prim2SF x) as [s|s| |s mx e]; try done.
  - by destruct s.
  - destruct s; [|done]. unfold SFleb, SFcompare. done.
Qed.

Lemma store_same (roomCode : string) (ref : nat) game m :
  JsMap.get roomCode (games m) = Some (ref, game) →
  store roomCode ref game m = m.
Proof.
  intros E. unfold store, set_games. rewrite JsMapMore.set_same by done.
  by destruct m.
Qed.

(** X21.  A tick does not move the rope of a tug of war: it emits the game
    as it is and then judges the rope.  With the rope at +80 or beyond the
    game ends in that tick, the first player of the blue team being the
    winner (the first of the red team at -80 or beyond): [gameEnd] carries
    the finished game, the room has no game and no entry in [gameLoops]
    afterwards, and the interval that the entry named is cleared, no other.
    Otherwise the game, the entries and the intervals stay as they are. *)
Theorem tick_judges_the_rope_of_a_tug_of_war
    m (roomCode : string) (ref : nat) game (g : TugOfWar) (now : Z) :
  JsMap.get roomCode (games m) = Some (ref, game) →
  status game = playing →
  variant game = Tug g →
  (Num.geb (ropePosition g) 80%float = true →
   getGame roomCode (gameLoop_callback roomCode now m) = None
   ∧ JsMap.has roomCode (gameLoops (gameLoop_callback roomCode now m)) = false
   ∧ intervals (gameLoop_callback roomCode now m)
     = match JsMap.get roomCode (gameLoops m) with
       | Some loop => filter (λ i : nat * string, i.1 ≠ loop) (intervals m)
       | None => intervals m
       end
   ∧ emitted (gameLoop_callback roomCode now m)
     = (emitted m
        ++ [GameUpdate roomCode game;
            GameEnd roomCode
              (set_endTime now
                 (set_status finished (set_winner (head (blue (teams g))) game)))])%list)
  ∧ (PrimFloat.leb (ropePosition g) (-80)%float = true →
     getGame roomCode (gameLoop_callback roomCode now m) = None
     ∧ JsMap.has roomCode (gameLoops (gameLoop_callback roomCode now m)) = false
     ∧ intervals (gameLoop_callback roomCode now m)
       = match JsMap.get roomCode (gameLoops m) with
         | Some loop => filter (λ i : nat * string, i.1 ≠ loop) (intervals m)
         | None => intervals m
         end
     ∧ emitted (gameLoop_callback roomCode now m)
       = (emitted m
          ++ [GameUpdate roomCode game;
              GameEnd roomCode
                (set_endTime now
                   (set_status finished (set_winner (head (red (teams g))) game)))])%list)
  ∧ (PrimFloat.leb (ropePosition g) (-80)%float = false →
     Num.geb (ropePosition g) 80%float = false →
     getGame roomCode (gameLoop_callback roomCode now m) = Some game
     ∧ gameLoops (gameLoop_callback roomCode now m) = gameLoops m
     ∧ intervals (gameLoop_callback roomCode now m) = intervals m
     ∧ emitted (gameLoop_callback roomCode now m)
       = (emitted m ++ [GameUpdate roomCode game])%list).
Proof.
  intros E Hst Hv.
  assert (∀ who,
            getGame roomCode
              (endGame roomCode now
                 (store roomCode ref (set_winner who game)
                        (emit (GameUpdate roomCode game) m))) = None
            ∧ JsMap.has roomCode
                (gameLoops
                   (endGame roomCode now
                      (store roomCode ref (set_winner who game)
                             (emit (GameUpdate roomCode game) m)))) = false
            ∧ intervals
                (endGame roomCode now
                   (store roomCode ref (set_winner who game)
                          (emit (GameUpdate roomCode game) m)))
              = match JsMap.get roomCode (gameLoops m) with
                | Some loop => filter (λ i : nat * string, i.1 ≠ loop) (intervals m)
                | None => intervals m
                end
            ∧ emitted
                (endGame roomCode now
                   (store roomCode ref (set_winner who game)
                          (emit (GameUpdate roomCode game) m)))
              = (emitted m
                 ++ [GameUpdate roomCode game;
                     GameEnd roomCode
                       (set_endTime now (set_status finished (set_winner who game)))])%list)
    as Hend.
  { intros who.
    destruct (endGame_gone roomCode now
                (store roomCode ref (set_winner who game)
                       (emit (GameUpdate roomCode game) m))) as [H1 H2].
    split; [by unfold getGame; rewrite H1|].
    split; [by unfold JsMap.has; rewrite H2|].
    split; [by rewrite endGame_intervals|].
    rewrite endGame_emitted, getGame_store. cbn [store set_games emit emitted].
    by rewrite <- app_assoc. }
  unfold gameLoop_callback. rewrite E, Hst, Hv. unfold updateTugOfWar.
  rewrite (store_same _ _ _ _ E), (checkGameEnd_tug _ _ Hv).
  split; [|split].
  - intros Hblue. rewrite (geb_80_not_leb _ Hblue), Hblue. apply Hend.
  - intros Hred. rewrite Hred. apply Hend.
  - intros Hred Hblue. rewrite Hred, Hblue.
    rewrite getGame_store. by repeat split.
Qed.

Lemma tick_judges_the_rope_of_a_tug_of_war_witness :
  JsMap.get "AAAA" (games GameScenario.tug_won)
  = Some (0%nat, GameScenario.tug_won_game)
  ∧ ropePosition GameScenario.tug_won_data = 84%float
  ∧ intervals GameScenario.tug_won = [(1%nat, "AAAA")]
  ∧ getGame "AAAA" (gameLoop_callback "AAAA" 5000 GameScenario.tug_won) = None
  ∧ intervals (gameLoop_callback "AAAA" 5000 GameScenario.tug_won) = []
  ∧ last (emitted (gameLoop_callback "AAAA" 5000 GameScenario.tug_won))
    = Some (GameEnd "AAAA"
              (set_endTime 5000
                 (set_status finished
                    (set_winner (Some "p2") GameScenario.tug_won_game)))).
Proof.
  assert (JsMap.get "AAAA" (games GameScenario.tug_won)
          = Some (0%nat, GameScenario.tug_won_game)) as E
    by (vm_compute; reflexivity).
  assert (status GameScenario.tug_won_game = playing) as Hst
    by (vm_compute; reflexivity).
  assert (variant GameScenario.tug_won_game = Tug GameScenario.tug_won_data) as Hv
    by (vm_compute; reflexivity).
  assert (Num.geb (ropePosition GameScenario.tug_won_data) 80%float = true) as Hrope
    by (vm_compute; reflexivity).
  split; [exact E|]. split; [vm_compute; reflexivity|].
  split; [vm_compute; reflexivity|].
  destruct (tick_judges_the_rope_of_a_tug_of_war
              GameScenario.tug_won "AAAA" 0 GameScenario.tug_won_game
              GameScenario.tug_won_data 5000 E Hst Hv)
    as (H & _ & _).
  destruct (H Hrope) as (Hgame & _ & Hintervals & Hemitted).
  split; [exact Hgame|]. split; [rewrite Hintervals; vm_compute; reflexivity|].
  rewrite Hemitted. vm_compute. reflexivity.
Defined.

(** *** The tick of a race *)

Lemma update_racer_players (l : JsMap.t float) (r : VoiceRacer)
      (players : JsMap.t PlayerGameState) :
  NoDup (JsMap.keys l) →
  trackLength (foldl update_racer_player (r, players) l).1 = trackLength r
  ∧ racerWords (foldl update_racer_player (r, players) l).1 = racerWords r
  ∧ ∀ playerId,
      JsMap.get playerId (playerSpeeds (foldl update_racer_player (r, players) l).1)
      = match JsMap.get playerId l with
        | Some _ =>
            let newSpeed :=
              (Num.or_zero (JsMap.get playerId (playerSpeeds r)) * 0.98)%float in
            Some (if PrimFloat.ltb 0.001 newSpeed then newSpeed else 0%float)
        | None => JsMap.get playerId (playerSpeeds r)
        end
      ∧ JsMap.get playerId (playerPositions (foldl update_racer_player (r, players) l).1)
        = match JsMap.get playerId l with
          | Some position =>
              let newSpeed :=
                (Num.or_zero (JsMap.get playerId (playerSpeeds r)) * 0.98)%float in
              Some (Num.Math_min (position + newSpeed)%float (trackLength r + 1)%float)
          | None => JsMap.get playerId (playerPositions r)
          end.
Proof.
  revert r players. induction l as [|[k position] l IH]; intros r players Hnd; [done|].
  unfold JsMap.keys in Hnd. rewrite fmap_cons in Hnd. apply NoDup_cons in Hnd as [Hk Hnd].
  apply JsMapFacts.get_None_keys in Hk. cbn [fst] in Hk.
  cbn [foldl].
  destruct (update_racer_player (r, players) (k, position)) as [r1 players1] eqn:Hstep.
  destruct (IH r1 players1 Hnd) as (Ht & Hw & Hget).
  unfold update_racer_player in Hstep. cbv zeta in Hstep.
  injection Hstep as Hr1 _. subst r1.
  cbn [trackLength racerWords playerSpeeds playerPositions] in Ht, Hw, Hget.
  split; [exact Ht|]. split; [exact Hw|].
  intros player. destruct (Hget player) as [Hs Hp]. rewrite Hs, Hp. clear Hs Hp Hget.
  cbn [JsMap.get].
  destruct (String.eqb player k) eqn:Heq.
  - apply String.eqb_eq in Heq as ->. rewrite Hk.
    by rewrite !JsMapFacts.get_set_eq.
  - apply String.eqb_neq in Heq.
    rewrite !JsMapFacts.get_set_ne by done. done.
Qed.

Lemma update_racer_keys (l : JsMap.t float) (r : VoiceRacer)
      (players : JsMap.t PlayerGameState) :
  (∀ k, k ∈ JsMap.keys l → k ∈ JsMap.keys (playerPositions r)) →
  JsMap.keys (playerPositions (foldl update_racer_player (r, players) l).1)
  = JsMap.keys (playerPositions r).
Proof.
  revert r players. induction l as [|[k position] l IH]; intros r players Hin; [done|].
  cbn [foldl].
  destruct (update_racer_player (r, players) (k, position)) as [r1 players1] eqn:Hstep.
  unfold update_racer_player in Hstep. cbv zeta in Hstep.
  injection Hstep as Hr1 _.
  assert (k ∈ JsMap.keys (playerPositions r)) as Hk by (apply Hin; left).
  assert (JsMap.keys (playerPositions r1) = JsMap.keys (playerPositions r)) as Hkeys.
  { subst r1. cbn [playerPositions]. by apply JsMapFacts.keys_set_present. }
  rewrite IH; [exact Hkeys|].
  intros k' Hk'. rewrite Hkeys. apply Hin. by right.
Qed.

(** X22.  One tick of a race multiplies the speed of every player by 0.98,
    a speed that is not above 0.001 after that becoming 0, and moves the
    player by the speed after friction, not beyond one unit past the end of
    the track.  The order of the players, the track, the words, the status
    and the winner are as before. *)
Theorem updateVoiceRacer_moves_each_player_by_its_speed
    (r : VoiceRacer) (game : GameState) :
  NoDup (JsMap.keys (playerPositions r)) →
  ∃ r', variant (updateVoiceRacer r game) = Racer r'
        ∧ status (updateVoiceRacer r game) = status game
        ∧ winner (updateVoiceRacer r game) = winner game
        ∧ trackLength r' = trackLength r
        ∧ racerWords r' = racerWords r
        ∧ JsMap.keys (playerPositions r') = JsMap.keys (playerPositions r)
        ∧ ∀ playerId position,
            JsMap.get playerId (playerPositions r) = Some position →
            let newSpeed :=
              (Num.or_zero (JsMap.get playerId (playerSpeeds r)) * 0.98)%float in
            JsMap.get playerId (playerPositions r')
            = Some (Num.Math_min (position + newSpeed)%float (trackLength r + 1)%float)
            ∧ JsMap.get playerId (playerSpeeds r')
              = Some (if PrimFloat.ltb 0.001 newSpeed then newSpeed else 0%float).
Proof.
  intros Hnd. unfold updateVoiceRacer.
  destruct (update_racer_players (playerPositions r) r (players game) Hnd)
    as (Ht & Hw & Hget).
  pose proof (update_racer_keys (playerPositions r) r (players game) (λ _ H, H)) as Hkeys.
  destruct (foldl update_racer_player (r, players game) (playerPositions r))
    as [r' players'].
  exists r'. do 3 (split; [done|]). split; [exact Ht|]. split; [exact Hw|].
  split; [exact Hkeys|]. intros playerId position Hpos. cbv zeta.
  destruct (Hget playerId) as [Hs Hp]. rewrite Hpos in Hs, Hp. by split.
Qed.

Lemma updateVoiceRacer_moves_each_player_by_its_speed_witness :
  NoDup (JsMap.keys (playerPositions GameScenario.race_playing_data))
  ∧ ∃ r', variant (updateVoiceRacer GameScenario.race_playing_data
                                    GameScenario.race_playing_game) = Racer r'
          ∧ JsMap.keys (playerPositions r') = ["p1"; "p2"].
Proof.
  assert (NoDup (JsMap.keys (playerPositions GameScenario.race_playing_data))) as Hnd
    by (apply (bool_decide_unpack _); vm_compute; reflexivity).
  split; [exact Hnd|].
  destruct (updateVoiceRacer_moves_each_player_by_its_speed
              GameScenario.race_playing_data GameScenario.race_playing_game Hnd)
    as (r' & Hr & _ & _ & _ & _ & Hkeys & _).
  exists r'. split; [exact Hr | exact Hkeys].
Defined.

(** X23.  A tick of a race emits the game after the move and then looks
    for a player at or past the end of the track, in the order of the
    players of the race: the first such player is the winner, whatever the
    positions of the players after it, and the game ends in that tick:
    the room has no game and no entry in [gameLoops] afterwards, and the
    interval that the entry named is cleared, no other.  When no player is
    that far, the moved game stays and the entries and intervals are
    untouched. *)
Theorem tick_of_a_race_declares_the_first_finisher
    m (roomCode : string) (ref : nat) game (r r1 : VoiceRacer) (now : Z) :
  JsMap.get roomCode (games m) = Some (ref, game) →
  status game = playing →
  variant game = Racer r →
  variant (updateVoiceRacer r game) = Racer r1 →
  (∀ playerId position before after,
     playerPositions r1 = (before ++ (playerId, position) :: after)%list →
     Num.geb position (trackLength r1) = true →
     (∀ e, e ∈ before → Num.geb e.2 (trackLength r1) = false) →
     getGame roomCode (gameLoop_callback roomCode now m) = None
     ∧ JsMap.has roomCode (gameLoops (gameLoop_callback roomCode now m)) = false
     ∧ intervals (gameLoop_callback roomCode now m)
       = match JsMap.get roomCode (gameLoops m) with
         | Some loop => filter (λ i : nat * string, i.1 ≠ loop) (intervals m)
         | None => intervals m
         end
     ∧ emitted (gameLoop_callback roomCode now m)
       = (emitted m
          ++ [GameUpdate roomCode (updateVoiceRacer r game);
              GameEnd roomCode
                (set_endTime now
                   (set_status finished
                      (set_winner (Some playerId) (updateVoiceRacer r game))))])%list)
  ∧ ((∀ e, e ∈ playerPositions r1 → Num.geb e.2 (trackLength r1) = false) →
     getGame roomCode (gameLoop_callback roomCode now m)
     = Some (updateVoiceRacer r game)
     ∧ gameLoops (gameLoop_callback roomCode now m) = gameLoops m
     ∧ intervals (gameLoop_callback roomCode now m) = intervals m
     ∧ emitted (gameLoop_callback roomCode now m)
       = (emitted m ++ [GameUpdate roomCode (updateVoiceRacer r game)])%list).
Proof.
  intros E Hst Hv Hv1. unfold gameLoop_callback. rewrite E, Hst, Hv.
  unfold checkGameEnd. rewrite Hv1. split.
  - intros playerId position before after Hsplit Hpos Hbefore.
    assert (JsMap.find (λ position, Num.geb position (trackLength r1)) (playerPositions r1)
            = Some (playerId, position)) as ->.
    { rewrite Hsplit. clear Hsplit. induction before as [|[k v] before IH]; simpl.
      - by rewrite Hpos.
      - assert (Num.geb v (trackLength r1) = false) as -> by (apply (Hbefore (k, v)); left).
        apply IH. intros e He. apply Hbefore. by right. }
    match goal with
    | |- context [endGame roomCode now ?m2] =>
        destruct (endGame_gone roomCode now m2) as [H1 H2];
        split; [by unfold getGame; rewrite H1|];
        split; [by unfold JsMap.has; rewrite H2|];
        split; [by rewrite endGame_intervals|];
        rewrite endGame_emitted
    end.
    rewrite getGame_store. cbn [store set_games emit emitted].
    by rewrite <- app_assoc.
  - intros Hnone.
    assert (JsMap.find (λ position, Num.geb position (trackLength r1)) (playerPositions r1)
            = None) as ->.
    { apply JsMapFacts.find_None. intros k v Hin. apply (Hnone (k, v) Hin). }
    rewrite getGame_store. by repeat split.
Qed.

Lemma tick_of_a_race_declares_the_first_finisher_witness :
  JsMap.get "AAAA" (games GameScenario.race_close)
  = Some (0%nat, GameScenario.race_close_game)
  ∧ playerPositions GameScenario.race_close_moved
    = [("p1", (99.95 + 0.1 * 0.98)%float); ("p2", (99.9 + 0.3 * 0.98)%float)]
  ∧ Num.geb (99.95 + 0.1 * 0.98)%float 100%float = true
  ∧ PrimFloat.ltb (99.95 + 0.1 * 0.98)%float (99.9 + 0.3 * 0.98)%float = true
  ∧ getGame "AAAA" (gameLoop_callback "AAAA" 5000 GameScenario.race_close) = None
  ∧ last (emitted (gameLoop_callback "AAAA" 5000 GameScenario.race_close))
    = Some (GameEnd "AAAA"
              (set_endTime 5000
                 (set_status finished
                    (set_winner (Some "p1")
                       (updateVoiceRacer GameScenario.race_close_data
                                         GameScenario.race_close_game))))).
Proof.
  assert (JsMap.get "AAAA" (games GameScenario.race_close)
          = Some (0%nat, GameScenario.race_close_game)) as E
    by (vm_compute; reflexivity).
  assert (status GameScenario.race_close_game = playing) as Hst
    by (vm_compute; reflexivity).
  assert (variant GameScenario.race_close_game = Racer GameScenario.race_close_data)
    as Hv by (vm_compute; reflexivity).
  assert (variant (updateVoiceRacer GameScenario.race_close_data
                                    GameScenario.race_close_game)
          = Racer GameScenario.race_close_moved) as Hv1
    by (vm_compute; reflexivity).
  assert (playerPositions GameScenario.race_close_moved
          = ([] ++ ("p1", (99.95 + 0.1 * 0.98)%float)
                :: [("p2", (99.9 + 0.3 * 0.98)%float)])%list) as Hsplit
    by (vm_compute; reflexivity).
  assert (Num.geb (99.95 + 0.1 * 0.98)%float
                  (trackLength GameScenario.race_close_moved) = true) as Hpos
    by (vm_compute; reflexivity).
  split; [exact E|]. split; [exact Hsplit|]. split; [vm_compute; reflexivity|].
  split; [vm_compute; reflexivity|].
  destruct (tick_of_a_race_declares_the_first_finisher
              GameScenario.race_close "AAAA" 0 GameScenario.race_close_game
              GameScenario.race_close_data GameScenario.race_close_moved
              5000 E Hst Hv Hv1)
    as [H _].
  destruct (H "p1" (99.95 + 0.1 * 0.98)%float []
              [("p2", (99.9 + 0.3 * 0.98)%float)] Hsplit Hpos)
    as (Hgame & _ & _ & Hemitted).
  - intros e He. exfalso. by apply elem_of_nil in He.
  - split; [exact Hgame|]. rewrite Hemitted. vm_compute. reflexivity.
Defined.

(** *** A countdown whose game is gone *)

Lemma set_status_of_stale (ref : nat) (s : GameStatus) m :
  (∀ k v, (k, v) ∈ games m → v.1 ≠ ref) →
  set_status_of ref s m = m.
Proof.
  intros Hstale. unfold set_status_of, set_games.
  assert (∀ l : JsMap.t (nat * GameState),
            (∀ k v, (k, v) ∈ l → v.1 ≠ ref) →
            (λ e : string * (nat * GameState),
               if (e.2.1 =? ref)%nat then (e.1, (ref, set_status s e.2.2)) else e) <$> l
            = l) as Hmap.
  { induction l as [|[k v] l IH]; intros Hl; [done|].
    rewrite fmap_cons. cbn [fst snd].
    assert (v.1 ≠ ref) as Hne by (apply (Hl k); left).
    apply Nat.eqb_neq in Hne. rewrite Hne. f_equal. apply IH.
    intros k' v' Hin. apply (Hl k'). by right. }
  rewrite Hmap by done. by destruct m.
Qed.

(** X24.  Ending or replacing a game does not stop its countdown.  A call
    of the countdown timer of a game that is no longer the game of any room
    still emits its [countdown] event and changes no game; the call for the
    count 0 registers a tick loop for the room all the same, and the first
    tick of that loop removes it again, emitting nothing, unless the room
    has a [playing] game by then. *)
Theorem countdown_of_a_game_that_is_gone_still_runs
    (cl : CountdownClosure) m (now : Z) :
  (∀ k v, (k, v) ∈ games m → v.1 ≠ cd_game cl) →
  games (countdown_callback cl m).2 = games m
  ∧ emitted (countdown_callback cl m).2
    = (emitted m ++ [Countdown (cd_roomCode cl) (cd_countdown cl)])%list
  ∧ (0 < cd_countdown cl →
     (countdown_callback cl m).1
     = Some (mkCountdown (cd_roomCode cl) (cd_game cl) (cd_countdown cl - 1))
     ∧ gameLoops (countdown_callback cl m).2 = gameLoops m)
  ∧ (cd_countdown cl = 0 →
     (countdown_callback cl m).1 = None
     ∧ JsMap.has (cd_roomCode cl) (gameLoops (countdown_callback cl m).2) = true
     ∧ (status <$> getGame (cd_roomCode cl) m ≠ Some playing →
        games (gameLoop_callback (cd_roomCode cl) now (countdown_callback cl m).2)
        = games m
        ∧ JsMap.has (cd_roomCode cl)
            (gameLoops (gameLoop_callback (cd_roomCode cl) now (countdown_callback cl m).2))
          = false
        ∧ emitted (gameLoop_callback (cd_roomCode cl) now (countdown_callback cl m).2)
          = emitted (countdown_callback cl m).2)).
Proof.
  intros Hstale.
  assert (games (countdown_callback cl m).2 = games m
          ∧ emitted (countdown_callback cl m).2
            = (emitted m ++ [Countdown (cd_roomCode cl) (cd_countdown cl)])%list)
    as [Hgames Hemitted].
  { unfold countdown_callback. destruct (cd_countdown cl - 1 <? 0); [|done].
    rewrite set_status_of_stale by done. done. }
  split; [exact Hgames|]. split; [exact Hemitted|]. split.
  - intros Hpos. by rewrite countdown_callback_positive.
  - intros Hzero. revert Hgames Hemitted. rewrite countdown_callback_zero by done.
    rewrite set_status_of_stale by done. cbn [fst snd]. intros _ _.
    split; [done|]. split.
    { unfold JsMap.has. cbn [startGameLoop gameLoops].
      by rewrite JsMapFacts.get_set_eq. }
    intros Hnot.
    assert (games (stopGameLoop (cd_roomCode cl)
                     (startGameLoop (cd_roomCode cl)
                        (emit (Countdown (cd_roomCode cl) 0) m))) = games m
            ∧ JsMap.has (cd_roomCode cl)
                (gameLoops (stopGameLoop (cd_roomCode cl)
                              (startGameLoop (cd_roomCode cl)
                                 (emit (Countdown (cd_roomCode cl) 0) m)))) = false
            ∧ emitted (stopGameLoop (cd_roomCode cl)
                         (startGameLoop (cd_roomCode cl)
                            (emit (Countdown (cd_roomCode cl) 0) m)))
              = emitted (startGameLoop (cd_roomCode cl)
                           (emit (Countdown (cd_roomCode cl) 0) m))) as Hstop.
    { rewrite stopGameLoop_games, stopGameLoop_emitted, stopGameLoop_loops.
      split; [done|]. split; [|done]. unfold JsMap.has.
      by rewrite JsMapFacts.get_delete_eq. }
    unfold gameLoop_callback.
    change (games (startGameLoop (cd_roomCode cl)
                     (emit (Countdown (cd_roomCode cl) 0) m))) with (games m).
    unfold getGame in Hnot.
    destruct (JsMap.get (cd_roomCode cl) (games m)) as [[ref game]|];
      [|exact Hstop].
    simpl in Hnot. destruct (status game); try exact Hstop. done.
Qed.

Lemma countdown_of_a_game_that_is_gone_still_runs_witness :
  games (endGame "AAAA" 500 GameScenario.tug_started.2) = []
  ∧ emitted (countdown_callback (mkCountdown "AAAA" 0 3)
                                (endGame "AAAA" 500 GameScenario.tug_started.2)).2
    = (emitted (endGame "AAAA" 500 GameScenario.tug_started.2)
       ++ [Countdown "AAAA" 3])%list.
Proof.
  split; [reflexivity|].
  destruct (countdown_of_a_game_that_is_gone_still_runs
              (mkCountdown "AAAA" 0 3)
              (endGame "AAAA" 500 GameScenario.tug_started.2) 0)
    as (_ & H & _).
  - intros k v Hin. vm_compute in Hin. by apply elem_of_nil in Hin.
  - exact H.
Defined.

End GameManagerMore.
(** ** More of the voice-command matcher *)

Module CommandExtractorMore.
Import CommandExtractor CommandExtractorProps.

Lemma lower_char_idempotent (c : ascii) :
  Js.lower_char (Js.lower_char c) = Js.lower_char c.
Proof. destruct c as [[] [] [] [] [] [] [] []]; reflexivity. Qed.

Lemma toLowerCase_idempotent (s : string) :
  Js.toLowerCase (Js.toLowerCase s) = Js.toLowerCase s.
Proof.
  induction s as [|c s IH]; [done|]. simpl. by rewrite lower_char_idempotent, IH.
Qed.

(** After [toLowerCase] only two of the inherited names can be met. *)
Lemma inherited_lower_case (word : string) :
  PHRASE_MAP_get (Js.toLowerCase word) = Inherited
  ↔ Js.toLowerCase word = "constructor" ∨ Js.toLowerCase word = "__proto__".
Proof.
  split.
  - unfold PHRASE_MAP_get.
    destruct (JsMap.get (Js.toLowerCase word) PHRASE_MAP); [done|].
    destruct (existsb _ prototype_names) eqn:E; [|done]. intros _.
    apply existsb_exists in E as (name & Hin & Heq).
    apply String.eqb_eq in Heq. subst name.
    pose proof (toLowerCase_idempotent word) as Hid.
    unfold prototype_names in Hin. simpl in Hin.
    repeat (destruct Hin as [Hin|Hin];
            [first [by left | by right
                   | rewrite <- Hin in Hid; vm_compute in Hid; discriminate Hid]|]).
    done.
  - by intros [-> | ->].
Qed.

(** A loop over words none of which is an inherited name ends without an
    exception. *)
Lemma match_words_TypeError (transcript text : string) (confidence : float)
      (words : list string) :
  match_words transcript text confidence words = TypeError →
  ∃ word, word ∈ words ∧ PHRASE_MAP_get (Js.toLowerCase word) = Inherited.
Proof.
  induction words as [|word words IH]; [done|]. simpl.
  destruct (match_word transcript text confidence word) eqn:E; [done| |].
  - intros H. destruct (IH H) as (w & Hin & Hw). exists w. split; [by right | done].
  - intros _. exists word. split; [left|].
    unfold match_word in E. destruct (PHRASE_MAP_get (Js.toLowerCase word)); [|done|].
    + destruct (Js.falsy phrase).
      * unfold match_trigger in E. repeat (destruct (_ : bool) in E; try done).
      * cbv zeta in E. unfold match_trigger in E.
        repeat (destruct (_ : bool) in E; try done).
    + unfold match_trigger in E. repeat (destruct (_ : bool) in E; try done).
Qed.

Lemma pool_words (word : string) :
  word ∈ GameManager.RACING_WORDS →
  Js.toLowerCase word = word ∧ Js.falsy word = false
  ∧ ∃ phrase, PHRASE_MAP_get word = Own phrase.
Proof.
  assert (forallb (λ w, String.eqb (Js.toLowerCase w) w && negb (Js.falsy w)
                        && match PHRASE_MAP_get w with Own _ => true | _ => false end)
                  GameManager.RACING_WORDS = true) as H by (vm_compute; reflexivity).
  rewrite forallb_forall in H. intros Hin. apply list_elem_of_In, H in Hin.
  apply andb_true_iff in Hin as [[H1 H2]%andb_true_iff H3].
  apply String.eqb_eq in H1. apply negb_true_iff in H2.
  split; [done|]. split; [done|].
  destruct (PHRASE_MAP_get word); [by eexists | done | done].
Qed.

(** X25.  [extract] throws exactly when the loop over the dynamic words
    reaches a word that is [constructor] or [__proto__] in lower case:
    [PHRASE_MAP] answers with a value inherited from [Object.prototype],
    which has no [toLowerCase].  It throws for such a word at the head of
    the list whatever the transcript, and never without dynamic words or
    for a word of the pool of the game manager. *)
Theorem extract_throws_exactly_for_inherited_names
    (text : string) (confidence : float) :
  (∀ words,
     extract text confidence (Some words) = Throws →
     ∃ word, word ∈ words
             ∧ (Js.toLowerCase word = "constructor" ∨ Js.toLowerCase word = "__proto__"))
  ∧ (∀ word words,
       Js.toLowerCase word = "constructor" ∨ Js.toLowerCase word = "__proto__" →
       extract text confidence (Some (word :: words)) = Throws)
  ∧ extract text confidence None ≠ Throws
  ∧ (∀ word, word ∈ GameManager.RACING_WORDS →
             extract text confidence (Some [word]) ≠ Throws).
Proof.
  assert (∀ words,
            extract text confidence (Some words) = Throws →
            ∃ word, word ∈ words ∧ PHRASE_MAP_get (Js.toLowerCase word) = Inherited)
    as Hthrows.
  { intros words. unfold extract. simpl.
    destruct (match_words _ _ _ words) eqn:E; [done | done |]. intros _.
    by apply (match_words_TypeError _ _ _ _ E). }
  split; [|split; [|split]].
  - intros words H. destruct (Hthrows words H) as (word & Hin & Hw).
    exists word. split; [done|]. by apply inherited_lower_case.
  - intros word words Hw%inherited_lower_case.
    rewrite extract_cons. unfold match_word. by rewrite Hw.
  - done.
  - intros word Hin H.
    destruct (Hthrows _ H) as (w & Hw%list_elem_of_singleton & Hget).
    subst w. destruct (pool_words word Hin) as (Hlow & _ & phrase & Hown).
    rewrite Hlow in Hget. congruence.
Qed.

(** A word that is in the transcript matches, at one of the first three
    tiers. *)
Lemma match_word_said (transcript text word : string) (confidence : float) :
  PHRASE_MAP_get (Js.toLowerCase word) ≠ Inherited →
  Js.includes transcript (Js.toLowerCase word) = true →
  ∃ score,
    match_word transcript text confidence word
    = Hit (mkCommand game_specific (Js.toLowerCase word) confidence text (Some score))
    ∧ (score = 1.0%float ∨ score = 1.5%float ∨ score = 2.0%float).
Proof.
  intros Hget Hsaid.
  assert (match_trigger transcript text (Js.toLowerCase word) confidence
          = Hit (mkCommand game_specific (Js.toLowerCase word) confidence text
                           (Some 1.0%float))) as Htrigger.
  { unfold match_trigger. by rewrite Hsaid, orb_true_r. }
  unfold match_word. destruct (PHRASE_MAP_get (Js.toLowerCase word)); [|done|].
  - destruct (Js.falsy phrase); [eexists; split; [exact Htrigger | by left]|].
    cbv zeta. destruct (_ || _); [eexists; split; [done | by right; right]|].
    destruct (3 <=? _)%nat; [|eexists; split; [exact Htrigger | by left]].
    destruct (Js.includes transcript (Js.join_space (Js.slice_last2 _)));
      [eexists; split; [done | by right; left]|].
    destruct (_ && _); [eexists; split; [done | by right; left]|].
    eexists; split; [exact Htrigger | by left].
  - eexists; split; [exact Htrigger | by left].
Qed.

(** X26.  Saying the trigger word is always enough: when the first
    dynamic word, in lower case, occurs anywhere in the normalised
    transcript and is not an inherited name, [extract] returns a
    [game_specific] command for it with the confidence of the transcript
    unchanged and a score of 1.0, 1.5 or 2.0, whatever words follow in the
    list. *)
Theorem extract_hits_when_the_word_is_said
    (text word : string) (words : list string) (confidence : float) :
  PHRASE_MAP_get (Js.toLowerCase word) ≠ Inherited →
  Js.includes (normalize text) (Js.toLowerCase word) = true →
  ∃ score,
    extract text confidence (Some (word :: words))
    = Returns (Some (mkCommand game_specific (Js.toLowerCase word) confidence text
                               (Some score)))
    ∧ (score = 1.0%float ∨ score = 1.5%float ∨ score = 2.0%float).
Proof.
  intros Hget Hsaid.
  destruct (match_word_said (normalize text) text word confidence Hget Hsaid)
    as (score & Hhit & Hscore).
  exists score. split; [|done]. by rewrite extract_cons, Hhit.
Qed.

Lemma extract_hits_when_the_word_is_said_witness :
  PHRASE_MAP_get (Js.toLowerCase "Zebra") ≠ Inherited
  ∧ Js.includes (normalize "  the ZEBRA runs ") (Js.toLowerCase "Zebra") = true
  ∧ ∃ score,
      extract "  the ZEBRA runs " 0.5%float (Some ["Zebra"; "wifi"])
      = Returns (Some (mkCommand game_specific "zebra" 0.5%float "  the ZEBRA runs "
                                 (Some score))).
Proof.
  assert (PHRASE_MAP_get (Js.toLowerCase "Zebra") ≠ Inherited) as Hget
    by (vm_compute; discriminate).
  assert (Js.includes (normalize "  the ZEBRA runs ") (Js.toLowerCase "Zebra") = true)
    as Hsaid by reflexivity.
  split; [exact Hget|]. split; [exact Hsaid|].
  destruct (extract_hits_when_the_word_is_said
              "  the ZEBRA runs " "Zebra" ["wifi"] 0.5%float Hget Hsaid)
    as (score & H & _).
  exists score. exact H.
Defined.

(** *** The boost of a race *)

Lemma count_go_includes (n : nat) (s : string) :
  (String.length s ≤ n)%nat →
  count_go s = 0%nat ↔ Js.includes s "go" = false.
Proof.
  revert s. induction n as [|n IH]; intros s Hlen.
  - destruct s; [done | simpl in Hlen; lia].
  - destruct s as [|c s]; [done|]. simpl in Hlen.
    cbn [count_go Js.includes Js.startsWith].
    destruct (Ascii.eqb c "g") eqn:Hc.
    + apply Ascii.eqb_eq in Hc as ->. cbn [Ascii.eqb Bool.eqb andb].
      destruct s as [|c' s]; [done|]. simpl in Hlen. cbn [Js.startsWith].
      rewrite (Ascii.eqb_sym "o" c').
      destruct (Ascii.eqb c' "o") eqn:Hc'; cbn [andb orb].
      * by destruct s.
      * apply IH. simpl. lia.
    + rewrite (Ascii.eqb_sym "g" c), Hc. cbn [andb orb]. apply IH. lia.
Qed.

(** X27.  [extractRacerBoost] is at most 3, and it is 0 exactly when [go]
    occurs nowhere in the normalised transcript; it counts an occurrence
    inside a longer word as well. *)
Theorem extractRacerBoost_counts_go_up_to_three (text : string) :
  (extractRacerBoost text ≤ 3)%nat
  ∧ (extractRacerBoost text = 0%nat ↔ Js.includes (normalize text) "go" = false)
  ∧ (∀ before after,
       normalize text = before ++ "go" ++ after →
       (1 ≤ extractRacerBoost text)%nat).
Proof.
  unfold extractRacerBoost. split; [lia|].
  assert (count_go (normalize text) = 0%nat ↔ Js.includes (normalize text) "go" = false)
    as Hzero by (by apply (count_go_includes (String.length (normalize text)))).
  split.
  - rewrite <- Hzero. lia.
  - intros before after Hsplit.
    assert (Js.includes (normalize text) "go" = true) as Hin.
    { rewrite Hsplit. clear. induction before as [|c before IH].
      - simpl. by destruct after.
      - change (String c before ++ "go" ++ after)
          with (String c (before ++ "go" ++ after)).
        cbn [Js.includes]. rewrite IH. apply orb_true_r. }
    destruct (count_go (normalize text)) eqn:E; [|lia].
    rewrite (proj1 Hzero eq_refl) in Hin. done.
Qed.

End CommandExtractorMore.
(** ** From a transcript to the game *)

Module TranscriptProps.
Import CommandExtractor Game GameManager Handlers.
Import CommandExtractorProps GameManagerProps CommandExtractorMore.

Lemma dynamicWords_racer (event : TranscriptEvent) gm (ref : nat) game
      (r : VoiceRacer) (word : string) :
  JsMap.get (ev_roomCode event) (games gm) = Some (ref, game) →
  variant game = Racer r →
  JsMap.get (ev_playerId event) (racerWords r) = Some word →
  Js.falsy word = false →
  dynamicWords event gm = [word].
Proof.
  intros E Hv Hw Hne. unfold dynamicWords, getGame. rewrite E. simpl.
  by rewrite Hv, Hw, Hne.
Qed.

(** What the handler does with a command that [extract] returns. *)
Lemma onTranscript_command (event : TranscriptEvent) rooms gm (c : GameCommand) :
  extract (ev_text event) (ev_confidence event) (Some (dynamicWords event gm))
  = Returns (Some c) →
  onTranscript event rooms gm
  = if Num.geb (confidence c) (getConfidenceThreshold (type_name (type c))) then
      ((echo event rooms
        ++ [playerCommand (ev_roomCode event) (ev_playerId event) (CommandExtractor.command c)
              (type c) (confidence c) (ev_timestamp event)
              (playerName_of event rooms)])%list,
       Returns (processCommand (ev_roomCode event)
                  (mkAction (ev_playerId event) (CommandExtractor.command c)
                            (ev_timestamp event) (CommandExtractor.matchScore c))
                  gm))
    else (echo event rooms, Returns gm).
Proof. intros H. unfold onTranscript. by rewrite H. Qed.

(** The speed of a racer after any action of that racer. *)
Lemma speedAt_action gm (roomCode : string) (ref : nat) game (r : VoiceRacer)
      (action : GameAction) (word : string) :
  JsMap.get roomCode (games gm) = Some (ref, game) →
  status game = playing →
  variant game = Racer r →
  JsMap.get (playerId action) (racerWords r) = Some word →
  Js.falsy word = false →
  speedAt roomCode (playerId action) (processCommand roomCode action gm)
  = Some (Num.Math_min
            (Num.or_zero (JsMap.get (playerId action) (playerSpeeds r))
             + (if PrimFloat.ltb (Num.or_zero (JsMap.get (playerId action) (playerSpeeds r)))
                                 0.015
                then 0.06 else 0.04)
               * default 1.0 (Game.matchScore action))%float
            (0.15 * default 1.0 (Game.matchScore action))%float).
Proof.
  intros E Hst Hv Hw Hne.
  rewrite (processCommand_racer _ _ _ _ _ _ E Hst Hv).
  unfold speedAt. rewrite getGame_store. cbn [variant set_variant].
  unfold processVoiceRacerCommand. rewrite Hw, Hne. cbn [playerSpeeds].
  by rewrite JsMapFacts.get_set_eq.
Qed.

(** X28.  In a race that is [playing], a transcript of a player that
    contains the word of that player, a word of the pool, with a confidence
    of at least 0.6 is sent to the room as a [game_specific] command of
    that word and raises the speed of the player: to the speed before plus
    0.06 (0.04 from a speed of 0.015 on) times the score of the match, at
    most 0.15 times the score, the score being 1.0, 1.5 or 2.0. *)
Theorem transcript_with_the_word_of_a_racer_boosts_the_racer
    (event : TranscriptEvent) rooms gm (ref : nat) game (r : VoiceRacer)
    (word : string) :
  JsMap.get (ev_roomCode event) (games gm) = Some (ref, game) →
  status game = playing →
  variant game = Racer r →
  JsMap.get (ev_playerId event) (racerWords r) = Some word →
  word ∈ RACING_WORDS →
  Js.includes (normalize (ev_text event)) word = true →
  Num.geb (ev_confidence event) 0.6%float = true →
  ∃ score gm',
    (score = 1.0%float ∨ score = 1.5%float ∨ score = 2.0%float)
    ∧ onTranscript event rooms gm
      = ((echo event rooms
          ++ [playerCommand (ev_roomCode event) (ev_playerId event) word game_specific
                (ev_confidence event) (ev_timestamp event)
                (playerName_of event rooms)])%list,
         Returns gm')
    ∧ speedAt (ev_roomCode event) (ev_playerId event) gm'
      = Some (Num.Math_min
                (Num.or_zero (JsMap.get (ev_playerId event) (playerSpeeds r))
                 + (if PrimFloat.ltb
                         (Num.or_zero (JsMap.get (ev_playerId event) (playerSpeeds r)))
                         0.015
                    then 0.06 else 0.04) * score)%float
                (0.15 * score)%float).
Proof.
  intros E Hst Hv Hw Hpool Hsaid Hconf.
  destruct (pool_words word Hpool) as (Hlow & Hne & phrase & Hown).
  destruct (match_word_said (normalize (ev_text event)) (ev_text event) word
                            (ev_confidence event)) as (score & Hhit & Hscore).
  { rewrite Hlow, Hown. done. }
  { by rewrite Hlow. }
  rewrite Hlow in Hhit.
  exists score. eexists. split; [exact Hscore|].
  rewrite (onTranscript_command event rooms gm
             (mkCommand game_specific word (ev_confidence event) (ev_text event)
                        (Some score))).
  2:{ rewrite (dynamicWords_racer _ _ _ _ _ _ E Hv Hw Hne), extract_cons.
      by rewrite Hhit. }
  cbn [confidence type type_name CommandExtractor.command CommandExtractor.matchScore].
  change (getConfidenceThreshold "game_specific") with 0.6%float. rewrite Hconf.
  split; [reflexivity|].
  exact (speedAt_action gm _ ref game r
           (mkAction (ev_playerId event) word (ev_timestamp event) (Some score))
           word E Hst Hv Hw Hne).
Qed.

Lemma transcript_with_the_word_of_a_racer_boosts_the_racer_witness :
  JsMap.get "AAAA" (games GameScenario.race_playing)
  = Some (0%nat, GameScenario.race_playing_game)
  ∧ JsMap.get "p1" (racerWords GameScenario.race_playing_data) = Some "gravity"
  ∧ ∃ score gm',
      onTranscript (mkEvent "Squirrels fight GRAVITY " 0.9%float "p1" "AAAA" 7000)
                   HandlersScenario.preparing_room GameScenario.race_playing
      = ([transcript "s1" "Squirrels fight GRAVITY " 0.9%float;
          hostTranscript "h0" "p1" "ann" "Squirrels fight GRAVITY " 0.9%float 7000;
          playerCommand "AAAA" "p1" "gravity" game_specific 0.9%float 7000 "ann"],
         Returns gm')
      ∧ speedAt "AAAA" "p1" gm'
        = Some (Num.Math_min (0 + 0.06 * score)%float (0.15 * score)%float).
Proof.
  split; [reflexivity|]. split; [reflexivity|].
  destruct (transcript_with_the_word_of_a_racer_boosts_the_racer
              (mkEvent "Squirrels fight GRAVITY " 0.9%float "p1" "AAAA" 7000)
              HandlersScenario.preparing_room GameScenario.race_playing
              0 GameScenario.race_playing_game GameScenario.race_playing_data "gravity")
    as (score & gm' & _ & Hsent & Hspeed).
  - reflexivity.
  - reflexivity.
  - reflexivity.
  - reflexivity.
  - apply (bool_decide_unpack _). vm_compute. reflexivity.
  - reflexivity.
  - reflexivity.
  - exists score, gm'. split; [exact Hsent | exact Hspeed].
Defined.

(** X29.  The game does not ask whether a command is the word of the
    player.  In a race that is [playing], a transcript that is just [go],
    in any case and with spaces around it, with a confidence of at least
    0.7, from a player with any word of the pool, is sent to the room as the
    [movement] command [go] and raises the speed of the player as a match
    of the trigger word does, with the score 1.0. *)
Theorem saying_go_boosts_a_racer_like_its_own_word
    (event : TranscriptEvent) rooms gm (ref : nat) game (r : VoiceRacer)
    (word : string) :
  JsMap.get (ev_roomCode event) (games gm) = Some (ref, game) →
  status game = playing →
  variant game = Racer r →
  JsMap.get (ev_playerId event) (racerWords r) = Some word →
  word ∈ RACING_WORDS →
  normalize (ev_text event) = "go" →
  Num.geb (ev_confidence event) 0.7%float = true →
  ∃ gm',
    onTranscript event rooms gm
    = ((echo event rooms
        ++ [playerCommand (ev_roomCode event) (ev_playerId event) "go" movement
              (ev_confidence event) (ev_timestamp event)
              (playerName_of event rooms)])%list,
       Returns gm')
    ∧ speedAt (ev_roomCode event) (ev_playerId event) gm'
      = Some (Num.Math_min
                (Num.or_zero (JsMap.get (ev_playerId event) (playerSpeeds r))
                 + (if PrimFloat.ltb
                         (Num.or_zero (JsMap.get (ev_playerId event) (playerSpeeds r)))
                         0.015
                    then 0.06 else 0.04) * 1.0)%float
                (0.15 * 1.0)%float).
Proof.
  intros E Hst Hv Hw Hpool Hgo Hconf.
  destruct (pool_words word Hpool) as (_ & Hne & _).
  assert (match_word "go" (ev_text event) (ev_confidence event) word = Next) as Hnext.
  { assert (forallb (λ w, match match_word "go" (ev_text event) (ev_confidence event) w with
                          | Next => true
                          | _ => false
                          end) RACING_WORDS = true) as H by (vm_compute; reflexivity).
    rewrite forallb_forall in H. apply list_elem_of_In, H in Hpool.
    by destruct (match_word "go" (ev_text event) (ev_confidence event) word). }
  eexists. 
  rewrite (onTranscript_command event rooms gm
             (mkCommand movement "go" (ev_confidence event) (ev_text event) None)).
  2:{ rewrite (dynamicWords_racer _ _ _ _ _ _ E Hv Hw Hne), extract_cons.
      rewrite Hgo, Hnext. unfold extract. rewrite Hgo. reflexivity. }
  cbn [confidence type type_name CommandExtractor.command CommandExtractor.matchScore].
  change (getConfidenceThreshold "movement") with 0.7%float. rewrite Hconf.
  split; [reflexivity|].
  exact (speedAt_action gm _ ref game r
           (mkAction (ev_playerId event) "go" (ev_timestamp event) None)
           word E Hst Hv Hw Hne).
Qed.

Lemma saying_go_boosts_a_racer_like_its_own_word_witness :
  JsMap.get "p1" (racerWords GameScenario.race_playing_data) = Some "gravity"
  ∧ normalize " Go " = "go"
  ∧ ∃ gm',
      onTranscript (mkEvent " Go " 0.75%float "p1" "AAAA" 7000)
                   HandlersScenario.preparing_room GameScenario.race_playing
      = ([transcript "s1" " Go " 0.75%float;
          hostTranscript "h0" "p1" "ann" " Go " 0.75%float 7000;
          playerCommand "AAAA" "p1" "go" movement 0.75%float 7000 "ann"],
         Returns gm')
      ∧ speedAt "AAAA" "p1" gm'
        = Some (Num.Math_min (0 + 0.06 * 1.0)%float (0.15 * 1.0)%float).
Proof.
  split; [reflexivity|]. split; [reflexivity|].
  destruct (saying_go_boosts_a_racer_like_its_own_word
              (mkEvent " Go " 0.75%float "p1" "AAAA" 7000)
              HandlersScenario.preparing_room GameScenario.race_playing
              0 GameScenario.race_playing_game GameScenario.race_playing_data "gravity")
    as (gm' & Hsent & Hspeed).
  - reflexivity.
  - reflexivity.
  - reflexivity.
  - reflexivity.
  - apply (bool_decide_unpack _). vm_compute. reflexivity.
  - reflexivity.
  - reflexivity.
  - exists gm'. split; [exact Hsent | exact Hspeed].
Defined.

(** X30.  The confidence threshold is applied to the confidence of the
    command, and a match of the fuzzy prefix tier has lowered it: such a
    transcript reaches the room and the game, as a command of score 0.8,
    when 0.9 times its confidence is at least 0.6, and is dropped
    otherwise, also when its own confidence is 0.6 or more. *)
Theorem fuzzy_match_is_judged_on_the_lowered_confidence
    (event : TranscriptEvent) rooms gm (word phrase : string) :
  dynamicWords event gm = [word] →
  PHRASE_MAP_get (Js.toLowerCase word) = Own phrase →
  spec_tier (normalize (ev_text event)) (Js.toLowerCase word) phrase = Some FuzzyPrefix →
  onTranscript event rooms gm
  = if Num.geb (ev_confidence event * 0.9)%float 0.6%float then
      ((echo event rooms
        ++ [playerCommand (ev_roomCode event) (ev_playerId event) (Js.toLowerCase word)
              game_specific (ev_confidence event * 0.9)%float (ev_timestamp event)
              (playerName_of event rooms)])%list,
       Returns (processCommand (ev_roomCode event)
                  (mkAction (ev_playerId event) (Js.toLowerCase word)
                            (ev_timestamp event) (Some 0.8%float))
                  gm))
    else (echo event rooms, Returns gm).
Proof.
  intros Hwords Hown Htier.
  rewrite (onTranscript_command event rooms gm
             (spec_command FuzzyPrefix (Js.toLowerCase word) (ev_text event)
                           (ev_confidence event))).
  - done.
  - rewrite Hwords, extract_cons, (match_word_tier _ _ _ _ _ Hown), Htier. done.
Qed.

Lemma fuzzy_match_is_judged_on_the_lowered_confidence_witness :
  dynamicWords (mkEvent "gravi" 0.65%float "p1" "AAAA" 7000) GameScenario.race_playing
  = ["gravity"]
  ∧ Num.geb 0.65%float 0.6%float = true
  ∧ onTranscript (mkEvent "gravi" 0.65%float "p1" "AAAA" 7000)
                 HandlersScenario.preparing_room GameScenario.race_playing
    = ([transcript "s1" "gravi" 0.65%float;
        hostTranscript "h0" "p1" "ann" "gravi" 0.65%float 7000],
       Returns GameScenario.race_playing).
Proof.
  split; [reflexivity|]. split; [reflexivity|].
  rewrite (fuzzy_match_is_judged_on_the_lowered_confidence
             (mkEvent "gravi" 0.65%float "p1" "AAAA" 7000)
             HandlersScenario.preparing_room GameScenario.race_playing
             "gravity" "squirrels fight gravity");
    reflexivity.
Defined.

End TranscriptProps.
